(** * verdaccio-htpasswd: the htpasswd / htgroup credential store

    A shallow embedding of [src/utils.js] (hash verifier, format codec,
    sanity checks) and of the [HTPasswd] class of [src/htpasswd.js]
    ([adduser], [addusergroups], [reload], [reloadGroups]), followed by the
    properties proved about them.

    Modelling conventions.
    - A JavaScript string is a [string]: a sequence of code units below 256.
      On such strings the ['binary'] encoding used for SHA-1 is the identity
      and [encodeURIComponent] never throws (it does on a lone surrogate,
      which no such string holds).
    - A plain object used as a dictionary is an [object V]: its own
      enumerable properties as an association list kept in the order
      [Object.keys] enumerates them (array-index keys first, ascending, then
      the other keys in insertion order).  Its prototype is
      [Object.prototype]: a read [obj[k]] that finds no own property finds
      what is inherited under the names of [prototype_names], and an
      assignment to [__proto__] adds no property.
    - Code that can throw returns an [outcome].
    - The file system, the lock library and the clock are a [host] that
      answers requests, a [world] holding file contents, and a log of the
      effects performed, in order.
    - [bcryptjs], [apache-md5] and the module [./crypt3] are a [HashLib]
      supplied from outside; [crypt3] may be unavailable, as the source
      tests for.  [bcrypt_compareSync] is the answer of [bcryptjs] where
      it gives one; the exception it raises on a malformed hash is the
      library's own and is not modelled.  SHA-1 and base64 are
      implemented. *)

From Stdlib Require Import String Ascii List ZArith NArith Arith Bool Lia.
Import ListNotations.

Local Open Scope list_scope.
Local Open Scope string_scope.

(* ================================================================== *)
(** * JavaScript strings, arrays and objects *)
(* ================================================================== *)

Module JS.

(** ** Errors and completions *)

Inductive js_error :=
| PlainError (message : string)                (* Error(message) *)
| HttpError (status : Z) (message : string)   (* Error(message) with err.status *)
| SysError (code : string)                     (* fs / locker error with err.code *)
| TypeError (message : string).                (* raised by the engine *)

Inductive outcome (A : Type) :=
| Ret (a : A)
| Throw (e : js_error).
Arguments Ret {A} a.
Arguments Throw {A} e.

Definition bind {A B} (m : outcome A) (k : A -> outcome B) : outcome B :=
  match m with
  | Ret a => k a
  | Throw e => Throw e
  end.

Notation "x <- m ;; k" := (bind m (fun x => k))
  (at level 61, m at next level, right associativity).

(** [err.code], [undefined] when the error carries none. *)
Definition code (e : js_error) : option string :=
  match e with
  | SysError c => Some c
  | _ => None
  end.

Definition ENOENT : js_error := SysError "ENOENT".

(** [err.code !== 'ENOENT'] *)
Definition code_is_not_ENOENT (e : js_error) : bool :=
  match code e with
  | Some c => negb (c =? "ENOENT")
  | None => true
  end.

(** ** Strings *)

(** The line feed, as a character and as a one-character string. *)
Definition LF : ascii := "010"%char.
Definition NL : string := String LF "".

(** Truthiness of a string: only the empty string is falsy. *)
Definition truthy (s : string) : bool :=
  match s with
  | EmptyString => false
  | String _ _ => true
  end.

(** [s] between double quotes. *)
Definition quoted (s : string) : string :=
  String "034"%char (s ++ String "034"%char "").

(** [s.split(sep)] for a one-character separator: never empty, one more
    piece than there are separators. *)
Fixpoint split_on (sep : ascii) (s : string) : list string :=
  match s with
  | EmptyString => [EmptyString]
  | String c s' =>
      if Ascii.eqb c sep then EmptyString :: split_on sep s'
      else match split_on sep s' with
           | piece :: rest => String c piece :: rest
           | [] => [String c EmptyString]
           end
  end.

(** [s.split(sep, limit)]: the first [limit] pieces of the full split. *)
Definition split (s : string) (sep : ascii) (limit : option nat) : list string :=
  match limit with
  | None => split_on sep s
  | Some n => firstn n (split_on sep s)
  end.

(** [arr.join(sep)] *)
Fixpoint join (sep : string) (arr : list string) : string :=
  match arr with
  | [] => ""
  | [x] => x
  | x :: rest => x ++ sep ++ join sep rest
  end.

(** [s.indexOf(pat)]: position of the first occurrence, [-1] when absent. *)
Definition indexOf (s pat : string) : Z :=
  match String.index 0 pat s with
  | Some i => Z.of_nat i
  | None => (-1)%Z
  end.

(** [s.substr(n)] *)
Fixpoint substr (s : string) (n : nat) : string :=
  match n, s with
  | 0, _ => s
  | S _, EmptyString => EmptyString
  | S n', String _ s' => substr s' n'
  end.

(** [s[s.length - 1]], [undefined] on the empty string. *)
Fixpoint last_char (s : string) : option ascii :=
  match s with
  | EmptyString => None
  | String c EmptyString => Some c
  | String _ s' => last_char s'
  end.

(** [arr.includes(x)] on an array of strings. *)
Fixpoint includes (arr : list string) (x : string) : bool :=
  match arr with
  | [] => false
  | y :: rest => (y =? x) || includes rest x
  end.

(** ** encodeURIComponent *)

Definition char_code (c : ascii) : nat := nat_of_ascii c.

Definition between (lo hi n : nat) : bool := ((lo <=? n) && (n <=? hi))%nat.

(** The characters [encodeURIComponent] leaves alone:
    [A-Z a-z 0-9 - _ . ! ~ * ' ( )]. *)
Definition uri_unreserved (c : ascii) : bool :=
  let n := char_code c in
  between 65 90 n || between 97 122 n || between 48 57 n
  || existsb (Nat.eqb n) [45; 95; 46; 33; 126; 42; 39; 40; 41].

Definition hex_digit (n : nat) : ascii :=
  if (n <? 10)%nat then ascii_of_nat (48 + n) else ascii_of_nat (55 + n).

(** [%XX] for one UTF-8 byte. *)
Definition percent (byte : nat) : string :=
  String "%" (String (hex_digit (byte / 16)) (String (hex_digit (byte mod 16)) "")).

(** A code unit below 128 is one UTF-8 byte, one in 128..255 is two. *)
Definition encode_char (c : ascii) : string :=
  let n := char_code c in
  if uri_unreserved c then String c ""
  else if (n <? 128)%nat then percent n
  else percent (192 + n / 64) ++ percent (128 + n mod 64).

Fixpoint encodeURIComponent (s : string) : string :=
  match s with
  | EmptyString => EmptyString
  | String c s' => encode_char c ++ encodeURIComponent s'
  end.

(** ** Numbers that may be [Infinity] *)

Inductive js_number :=
| Fin (z : Z)
| Infinity.

(** [n >= m] for a length [n]. *)
Definition length_ge (n : nat) (m : js_number) : bool :=
  match m with
  | Fin z => (z <=? Z.of_nat n)%Z
  | Infinity => false
  end.

(** ** Values held by [lastTime]: [null] or the [Date] of a [Stats] object.
    A [Date] is an object: [===] compares references, not instants. *)

Inductive js_value :=
| JNull
| JDate (ref : nat) (time : Z).

Definition strict_eq (a b : js_value) : bool :=
  match a, b with
  | JNull, JNull => true
  | JDate r _, JDate r' _ => Nat.eqb r r'
  | _, _ => false
  end.

(** ** Date.prototype.toJSON *)

Record Date := {
  year : N; month : N; day : N;
  hours : N; minutes : N; seconds : N; milliseconds : N
}.

Definition digit (n : N) : ascii := ascii_of_N (48 + n mod 10).

(** The [k] low decimal digits of [n], zero padded. *)
Fixpoint pad (k : nat) (n : N) : string :=
  match k with
  | 0 => ""
  | S k' => pad k' (n / 10) ++ String (digit n) ""
  end.

(** [YYYY-MM-DDTHH:mm:ss.sssZ]; years past 9999 take the expanded form. *)
Definition toJSON (d : Date) : string :=
  (if (year d <? 10000)%N then pad 4 (year d) else "+" ++ pad 6 (year d))
  ++ "-" ++ pad 2 (month d) ++ "-" ++ pad 2 (day d)
  ++ "T" ++ pad 2 (hours d) ++ ":" ++ pad 2 (minutes d)
  ++ ":" ++ pad 2 (seconds d) ++ "." ++ pad 3 (milliseconds d) ++ "Z".

(** ** Objects used as dictionaries *)

Definition object (V : Type) := list (string * V).

Definition is_digit (c : ascii) : bool := between 48 57 (char_code c).

Fixpoint digits_value (s : string) (acc : N) : option N :=
  match s with
  | EmptyString => Some acc
  | String c s' =>
      if is_digit c
      then digits_value s' (10 * acc + N.of_nat (char_code c - 48))%N
      else None
  end.

(** A key is an array index when it is the canonical decimal form of an
    integer below 2^32 - 1. *)
Definition array_index (k : string) : option N :=
  match k with
  | EmptyString => None
  | String "0" EmptyString => Some 0%N
  | String "0" _ => None
  | _ => match digits_value k 0 with
         | Some n => if (n <? 4294967295)%N then Some n else None
         | None => None
         end
  end.

(** Does a new key [k] enumerate before the existing key [k0]? *)
Definition enumerates_before (k k0 : string) : bool :=
  match array_index k, array_index k0 with
  | Some n, Some n0 => (n <? n0)%N
  | Some _, None => true
  | None, _ => false
  end.

(** The names under which a plain object finds a property of
    [Object.prototype] when it has none of its own. *)
Definition prototype_names : list string :=
  ["constructor"; "__defineGetter__"; "__defineSetter__"; "hasOwnProperty";
   "__lookupGetter__"; "__lookupSetter__"; "isPrototypeOf";
   "propertyIsEnumerable"; "toString"; "valueOf"; "__proto__";
   "toLocaleString"].

Definition inherited (k : string) : bool :=
  existsb (String.eqb k) prototype_names.

Section Object.
Context {V : Type}.

(** The object's own property [k]; [None] when it has none of its own. *)
Fixpoint obj_get (obj : object V) (k : string) : option V :=
  match obj with
  | [] => None
  | (k0, v0) :: rest => if k0 =? k then Some v0 else obj_get rest k
  end.

Fixpoint has_key (obj : object V) (k : string) : bool :=
  match obj with
  | [] => false
  | (k0, _) :: rest => (k0 =? k) || has_key rest k
  end.

Fixpoint replace_value (obj : object V) (k : string) (v : V) : object V :=
  match obj with
  | [] => []
  | (k0, v0) :: rest =>
      if k0 =? k then (k0, v) :: rest else (k0, v0) :: replace_value rest k v
  end.

Fixpoint add_key (obj : object V) (k : string) (v : V) : object V :=
  match obj with
  | [] => [(k, v)]
  | (k0, v0) :: rest =>
      if enumerates_before k k0 then (k, v) :: obj
      else (k0, v0) :: add_key rest k v
  end.

(** What [obj[k]] evaluates to: the object's own property; failing that,
    what [Object.prototype] holds under that name, a function, or the
    prototype itself for [__proto__]: truthy, and neither a string nor an
    array; failing that, [undefined]. *)
Inductive property :=
| Own (v : V)
| Inherited
| Undefined.

Definition obj_read (obj : object V) (k : string) : property :=
  match obj_get obj k with
  | Some v => Own v
  | None => if inherited k then Inherited else Undefined
  end.

(** [obj[k] = v]: an existing property keeps its place.  Without an own
    property of that name, an assignment to [__proto__] goes to the setter
    of [Object.prototype] and adds no property: a string is ignored, an
    array becomes the prototype of the object. *)
Definition obj_set (obj : object V) (k : string) (v : V) : object V :=
  if has_key obj k then replace_value obj k v
  else if k =? "__proto__" then obj
  else add_key obj k v.

(** [Object.keys(obj)] *)
Definition Object_keys (obj : object V) : list string := map fst obj.

(** [Object.assign(target, source)] *)
Definition Object_assign (target source : object V) : object V :=
  fold_left (fun t kv => obj_set t (fst kv) (snd kv)) source target.
End Object.
Arguments property V : clear implicits.
Arguments Inherited {V}.
Arguments Undefined {V}.

End JS.

(* ================================================================== *)
(** * crypto.createHash('sha1') ... digest('base64') *)
(* ================================================================== *)

Module Sha1.

Local Open Scope Z_scope.

Definition w32 (x : Z) : Z := x mod 2 ^ 32.

Definition rotl (n x : Z) : Z :=
  w32 (Z.lor (Z.shiftl x n) (Z.shiftr x (32 - n))).

Definition bytes_of_string (s : string) : list Z :=
  map (fun c => Z.of_nat (nat_of_ascii c)) (list_ascii_of_string s).

(** [n] as [k] big-endian bytes. *)
Fixpoint be_bytes (k : nat) (n : Z) : list Z :=
  match k with
  | O => []
  | S k' => (be_bytes k' (n / 256) ++ [n mod 256])%list
  end.

(** The message, a one bit, zeros up to 56 modulo 64, the bit length. *)
Definition padded (msg : list Z) : list Z :=
  let len := Z.of_nat (length msg) in
  (msg ++ [128] ++ repeat 0 (Z.to_nat ((55 - len) mod 64))
       ++ be_bytes 8 (8 * len))%list.

Fixpoint be_word (bytes : list Z) (acc : Z) : Z :=
  match bytes with
  | [] => acc
  | b :: rest => be_word rest (256 * acc + b)
  end.

(** The sixteen words of a 64-byte block. *)
Fixpoint block_words (n : nat) (bytes : list Z) : list Z :=
  match n with
  | O => []
  | S n' => be_word (firstn 4 bytes) 0 :: block_words n' (skipn 4 bytes)
  end.

(** The message schedule, newest word first: [rev_w] holds W[t-1], W[t-2], ... *)
Fixpoint extend (n : nat) (rev_w : list Z) : list Z :=
  match n with
  | O => rev_w
  | S n' =>
      let w := rotl 1 (Z.lxor (Z.lxor (nth 2 rev_w 0) (nth 7 rev_w 0))
                              (Z.lxor (nth 13 rev_w 0) (nth 15 rev_w 0))) in
      extend n' (w :: rev_w)
  end.

Definition schedule (block : list Z) : list Z :=
  rev (extend 64 (rev (block_words 16 block))).

Definition round_f (t : nat) (b c d : Z) : Z :=
  if (t <? 20)%nat then Z.lor (Z.land b c) (Z.land (w32 (Z.lnot b)) d)
  else if (t <? 40)%nat then Z.lxor (Z.lxor b c) d
  else if (t <? 60)%nat then Z.lor (Z.lor (Z.land b c) (Z.land b d)) (Z.land c d)
  else Z.lxor (Z.lxor b c) d.

Definition round_k (t : nat) : Z :=
  if (t <? 20)%nat then 0x5A827999
  else if (t <? 40)%nat then 0x6ED9EBA1
  else if (t <? 60)%nat then 0x8F1BBCDC
  else 0xCA62C1D6.

Record state := { ha : Z; hb : Z; hc : Z; hd : Z; he : Z }.

Fixpoint rounds (t : nat) (ws : list Z) (s : state) : state :=
  match ws with
  | [] => s
  | w :: ws' =>
      let temp := w32 (rotl 5 (ha s) + round_f t (hb s) (hc s) (hd s)
                       + he s + w + round_k t) in
      rounds (S t) ws'
        {| ha := temp; hb := ha s; hc := rotl 30 (hb s); hd := hc s; he := hd s |}
  end.

Definition compress (h : state) (block : list Z) : state :=
  let s := rounds 0 (schedule block) h in
  {| ha := w32 (ha h + ha s); hb := w32 (hb h + hb s); hc := w32 (hc h + hc s);
     hd := w32 (hd h + hd s); he := w32 (he h + he s) |}.

Fixpoint blocks (n : nat) (bytes : list Z) (h : state) : state :=
  match n with
  | O => h
  | S n' => blocks n' (skipn 64 bytes) (compress h (firstn 64 bytes))
  end.

Definition initial : state :=
  {| ha := 0x67452301; hb := 0xEFCDAB89; hc := 0x98BADCFE;
     hd := 0x10325476; he := 0xC3D2E1F0 |}.

(** The twenty bytes of the digest. *)
Definition digest (msg : list Z) : list Z :=
  let p := padded msg in
  let h := blocks (length p / 64) p initial in
  (be_bytes 4 (ha h) ++ be_bytes 4 (hb h) ++ be_bytes 4 (hc h)
     ++ be_bytes 4 (hd h) ++ be_bytes 4 (he h))%list.

(** *** base64 *)

Definition alphabet : string :=
  "ABCDEFGHIJKLMNOPQRSTUVWXYZabcdefghijklmnopqrstuvwxyz0123456789+/".

Definition b64_char (n : Z) : ascii :=
  match String.get (Z.to_nat n) alphabet with
  | Some c => c
  | None => "="%char
  end.

Fixpoint base64 (n : nat) (bytes : list Z) : string :=
  match n with
  | O => ""
  | S n' =>
      match bytes with
      | [] => ""
      | [a] =>
          String (b64_char (a / 4))
            (String (b64_char (a mod 4 * 16)) "==")
      | [a; b] =>
          String (b64_char (a / 4))
            (String (b64_char (a mod 4 * 16 + b / 16))
               (String (b64_char (b mod 16 * 4)) "="))
      | a :: b :: c :: rest =>
          String (b64_char (a / 4))
            (String (b64_char (a mod 4 * 16 + b / 16))
               (String (b64_char (b mod 16 * 4 + c / 64))
                  (String (b64_char (c mod 64)) (base64 n' rest))))
      end
  end.

(** [createHash('sha1').update(s, 'binary').digest('base64')] *)
Definition sha1_base64 (s : string) : string :=
  let d := digest (bytes_of_string s) in
  base64 (length d) d.

End Sha1.

(* ================================================================== *)
(** * utils.js *)
(* ================================================================== *)

Module Utils.
Import JS.

(** The hashing packages the module imports.  [crypt3 key salt] stands for
    [crypt3(key, salt)], with [None] for an omitted salt (the module then
    draws one itself); [crypt3] as a whole is [None] when the import is
    falsy. *)
Record HashLib := {
  bcrypt_compareSync : string -> string -> bool;
  md5 : string -> string -> string;
  crypt3 : option (string -> option string -> string)
}.

Section WithHashLib.
Variable lib : HashLib.

(** [input.split('\n').reduce(..., {})]: one step per line. *)
Definition parseHTPasswd_line (result : object string) (line : string)
  : object string :=
  let args := split line ":" (Some 3) in
  if (1 <? length args)%nat
  then obj_set result (nth 0 args "") (nth 1 args "")
  else result.

Definition parseHTPasswd (input : string) : object string :=
  fold_left parseHTPasswd_line (split input LF None) [].

(** [hash.match(/^\$2(a|b|y)\$/)] *)
Definition bcrypt_marker (hash : string) : bool :=
  match hash with
  | String c1 (String c2 (String v (String c4 _))) =>
      Ascii.eqb c1 "$" && Ascii.eqb c2 "2"
      && (Ascii.eqb v "a" || Ascii.eqb v "b" || Ascii.eqb v "y")
      && Ascii.eqb c4 "$"
  | _ => false
  end.

(** Calling [crypt3] when the import is falsy raises a [TypeError]. *)
Definition call_crypt3 (key : string) (salt : option string) : outcome string :=
  match crypt3 lib with
  | Some f => Ret (f key salt)
  | None => Throw (TypeError "crypt3 is not a function")
  end.

Definition verifyPassword (passwd hash : string) : outcome bool :=
  if bcrypt_marker hash then
    Ret (bcrypt_compareSync lib passwd hash)
  else if (indexOf hash "{PLAIN}" =? 0)%Z then
    Ret (passwd =? substr hash 7)
  else if (indexOf hash "{SHA}" =? 0)%Z then
    Ret (Sha1.sha1_base64 passwd =? substr hash 5)
  else
    (* for backwards compatibility, first check md5 then check crypt3 *)
    if md5 lib passwd hash =? hash then Ret true
    else c <- call_crypt3 passwd (Some hash) ;; Ret (c =? hash).

Definition not_uri_safe : js_error :=
  HttpError 409 "username should not contain non-uri-safe characters".

Definition addUserToHTPasswd (now : Date) (body user passwd : string)
  : outcome string :=
  if negb (user =? encodeURIComponent user) then Throw not_uri_safe
  else
    passwd <- match crypt3 lib with
              | Some _ => call_crypt3 passwd None
              | None => Ret ("{SHA}" ++ Sha1.sha1_base64 passwd)
              end ;;
    let comment := "autocreated " ++ toJSON now in
    let newline := user ++ ":" ++ passwd ++ ":" ++ comment ++ NL in
    let newline :=
      if negb (String.length body =? 0)%nat
         && negb (match last_char body with
                  | Some c => Ascii.eqb c LF
                  | None => false
                  end)
      then NL ++ newline
      else newline in
    Ret (body ++ newline).

Definition required : js_error :=
  HttpError 400 "username and password is required".
Definition already_registered : js_error :=
  HttpError 409 "username is already registered".
Definition unauthorized : js_error :=
  HttpError 401 "unauthorized access".
Definition maximum_reached : js_error :=
  HttpError 403 "maximum amount of users reached".

(** [if (hash)] on what [users[user]] gave. *)
Definition truthy_hash (hash : property string) : bool :=
  match hash with
  | Own h => truthy h
  | Inherited => true
  | Undefined => false
  end.

Definition no_match_method : js_error :=
  TypeError "hash.match is not a function".

(** [verifyFn(password, hash)] on what [users[user]] gave.  What is inherited
    from [Object.prototype] is no string: [verifyPassword], the [verifyFn]
    of every call in this repository, begins with [hash.match], which such
    a value does not have. *)
Definition verify_hash (verifyFn : string -> string -> outcome bool)
    (password : string) (hash : property string) : outcome bool :=
  match hash with
  | Own h => verifyFn password h
  | Inherited | Undefined => Throw no_match_method
  end.

(** [null] is [None]. *)
Definition sanityCheck (user password : string)
    (verifyFn : string -> string -> outcome bool)
    (users : object string) (maxUsers : js_number)
  : outcome (option js_error) :=
  if negb (truthy user) || negb (truthy password) then Ret (Some required)
  else
    let hash := obj_read users user in
    if truthy_hash hash then
      auth <- verify_hash verifyFn password hash ;;
      if auth : bool then Ret (Some already_registered)
      else Ret (Some unauthorized)
    else if length_ge (length (Object_keys users)) maxUsers then
      Ret (Some maximum_reached)
    else Ret None.

(** [input.split('\n').reduce(..., {})]: one step per line.  The
    assignment [result[groupName] = groupUsers] adds or replaces a key,
    except under the name [__proto__]: there the member array becomes the
    prototype of [result] and no key is added.  The result is kept as its
    own properties, which is all that [Object.keys], [Object.assign],
    [serializeHTgroups] and [getGroupsForUser] look at; what a read of a
    missing name finds through a prototype replaced in this way is not
    tracked. *)
Definition parseHTgroup_line (result : object (list string)) (line : string)
  : object (list string) :=
  let args := split line ":" (Some 2) in
  let groupName := nth 0 args "" in
  let groupUsers :=
    if (1 <? length args)%nat then split (nth 1 args "") " " None else [] in
  obj_set result groupName groupUsers.

Definition parseHTgroup (input : string) : object (list string) :=
  fold_left parseHTgroup_line (split input LF None) [].

(** [groupName] ranges over [Object.keys(groupsObj)], so the lookup in the
    loop body always finds the property. *)
Definition serializeHTgroups (groupsObj : object (list string)) : string :=
  fold_left
    (fun body groupName =>
       match obj_get groupsObj groupName with
       | Some groupUsers => body ++ groupName ++ ": " ++ join " " groupUsers
       | None => body
       end)
    (Object_keys groupsObj) "".

Definition undefined_includes : js_error :=
  TypeError "Cannot read property 'includes' of undefined".

Definition includes_not_function : js_error :=
  TypeError "groupUsers.includes is not a function".

(** The body of the [forEach]: the object is mutated in place, so what was
    done before a throw stays done.  Returns the object and the flag.
    A group name that is no property of the object's own reads [undefined],
    or under a name of [Object.prototype] a value without [includes]:
    a [TypeError] either way.  ([groupsObj] has [Object.prototype] for
    prototype, as every object has that the parser built from a file
    without a [__proto__] line.) *)
Fixpoint addUserToHTGroup_loop (groupsObj : object (list string))
    (user : string) (groups : list string) (groupsModified : bool)
  : object (list string) * outcome bool :=
  match groups with
  | [] => (groupsObj, Ret groupsModified)
  | groupName :: rest =>
      match obj_get groupsObj groupName with
      | None =>
          (groupsObj,
           Throw (if inherited groupName then includes_not_function
                  else undefined_includes))
      | Some groupUsers =>
          if negb (includes groupUsers user)
          then addUserToHTGroup_loop
                 (obj_set groupsObj groupName (groupUsers ++ [user])%list)
                 user rest true
          else addUserToHTGroup_loop groupsObj user rest groupsModified
      end
  end.

Definition addUserToHTGroup (groupsObj : object (list string))
    (user : string) (groups : list string)
  : object (list string) * outcome bool :=
  if negb (user =? encodeURIComponent user) then (groupsObj, Throw not_uri_safe)
  else addUserToHTGroup_loop groupsObj user groups false.

(** [userGroups.push(groupName)] for every key whose array includes [user]. *)
Definition getGroupsForUser (groupsObj : object (list string)) (user : string)
  : list string :=
  fold_left
    (fun userGroups groupName =>
       match obj_get groupsObj groupName with
       | Some groupUsers =>
           if includes groupUsers user
           then (userGroups ++ [groupName])%list
           else userGroups
       | None => userGroups
       end)
    (Object_keys groupsObj) [user].

(** What a caller may pass as [groups]. *)
Inductive js_item :=
| IString (s : string)
| IOther.

Inductive groups_arg :=
| GAbsent                         (* undefined, null *)
| GString (s : string)
| GArray (items : list js_item)
| GOther.

Definition sanityCheckGroups (groups : groups_arg) : list string :=
  match groups with
  | GAbsent => []
  | GString s => if truthy s then split s " " None else []
  | GArray items =>
      fold_left
        (fun groupsArr group =>
           match group with
           | IString s => (groupsArr ++ [s])%list
           | IOther => groupsArr
           end)
        items []
  | GOther => []
  end.

End WithHashLib.
End Utils.

(* ================================================================== *)
(** * htpasswd.js: the HTPasswd class *)
(* ================================================================== *)

Module HTPasswd.
Import JS Utils.

(** The fields of an instance that the methods read or write. *)
Record t := {
  users : object string;
  groups : object (list string);
  maxUsers : js_number;
  path : string;
  groupPath : string;
  lastTime : js_value;
  lastTimeGroup : js_value
}.

Definition with_users (self : t) (u : object string) : t :=
  {| users := u; groups := groups self; maxUsers := maxUsers self;
     path := path self; groupPath := groupPath self;
     lastTime := lastTime self; lastTimeGroup := lastTimeGroup self |}.

Definition with_groups (self : t) (g : object (list string)) : t :=
  {| users := users self; groups := g; maxUsers := maxUsers self;
     path := path self; groupPath := groupPath self;
     lastTime := lastTime self; lastTimeGroup := lastTimeGroup self |}.

Definition with_lastTime (self : t) (v : js_value) : t :=
  {| users := users self; groups := groups self; maxUsers := maxUsers self;
     path := path self; groupPath := groupPath self;
     lastTime := v; lastTimeGroup := lastTimeGroup self |}.

Definition with_lastTimeGroup (self : t) (v : js_value) : t :=
  {| users := users self; groups := groups self; maxUsers := maxUsers self;
     path := path self; groupPath := groupPath self;
     lastTime := lastTime self; lastTimeGroup := v |}.

(** ** The constructor *)

Record config := {
  file : string;              (* "" when absent *)
  group_file : string;
  max_users : option Z        (* None when absent *)
}.

(** [resolve] stands for [Path.resolve(Path.dirname(selfPath), _)];
    [users_file] is the host configuration's fallback. *)
Definition new (resolve : string -> string) (users_file : string) (c : config)
  : outcome t :=
  let maxUsers :=
    match max_users c with
    | Some z => if (z =? 0)%Z then Infinity else Fin z
    | None => Infinity
    end in
  let file := if negb (truthy (file c)) then users_file else file c in
  if negb (truthy file) then
    Throw (PlainError ("should specify " ++ quoted "file" ++ " in config"))
  else if negb (truthy (group_file c)) then
    Throw (PlainError ("should specify " ++ quoted "groupFile" ++ " in config"))
  else
    Ret {| users := []; groups := []; maxUsers := maxUsers;
           path := resolve file; groupPath := resolve (group_file c);
           lastTime := JNull; lastTimeGroup := JNull |}.

(** ** The outside world *)

(** What is done to the outside world, and the report made to the caller.
    [LockAndRead name locked]: the locked read of [name], and whether it
    left the lock held. *)
Inductive effect :=
| LockAndRead (name : string) (locked : bool)
| UnlockFile (name : string)
| WriteFile (name body : string) (written : bool)
| Stat (name : string)
| ReadFile (name : string)
| RealCb (err : option js_error) (ok : bool).

Record world := {
  files : list (string * string);   (* name and contents; absent: no such file *)
  log : list effect                 (* oldest first *)
}.

(** How the host answers during one operation: the failures it reports,
    the modification time [fs.stat] hands out, the clock. *)
Record host := {
  lock_error : string -> option js_error;
  lock_held_on_error : string -> bool;
  unlock_error : string -> option js_error;
  write_error : string -> option js_error;
  stat_error : string -> option js_error;
  read_error : string -> option js_error;
  mtime : string -> js_value;
  now : Date
}.

Definition emit (e : effect) (w : world) : world :=
  {| files := files w; log := (log w ++ [e])%list |}.

Fixpoint contents (fs : list (string * string)) (name : string) : option string :=
  match fs with
  | [] => None
  | (n, c) :: rest => if n =? name then Some c else contents rest name
  end.

Fixpoint store (fs : list (string * string)) (name body : string)
  : list (string * string) :=
  match fs with
  | [] => [(name, body)]
  | (n, c) :: rest =>
      if n =? name then (n, body) :: rest else (n, c) :: store rest name body
  end.

Section WithHost.
Variable lib : HashLib.
Variable H : host.

(** [locker.readFile(name, {lock: true}, cb)] locks the file and then reads
    it.  The error it reports may come before the lock is taken (the file
    is not there, the lock is not to be had) or after (the read fails):
    [lock_held_on_error] tells which, and the effect records whether the
    lock is held.  The callers take it to be held exactly when no error is
    reported. *)
Definition lockAndRead (name : string) (w : world) : world * (js_error + string) :=
  match lock_error H name with
  | Some e => (emit (LockAndRead name (lock_held_on_error H name)) w, inl e)
  | None =>
      match contents (files w) name with
      | None => (emit (LockAndRead name false) w, inl ENOENT)
      | Some res => (emit (LockAndRead name true) w, inr res)
      end
  end.

Definition unlockFile (name : string) (w : world) : world * option js_error :=
  (emit (UnlockFile name) w, unlock_error H name).

(** [fs.writeFile]: replaces the whole file; a failed write is taken to
    leave it as it was. *)
Definition writeFile (name body : string) (w : world) : world * option js_error :=
  match write_error H name with
  | Some e => (emit (WriteFile name body false) w, Some e)
  | None =>
      (emit (WriteFile name body true)
         {| files := store (files w) name body; log := log w |}, None)
  end.

Definition stat (name : string) (w : world) : world * (js_error + js_value) :=
  let w := emit (Stat name) w in
  match stat_error H name with
  | Some e => (w, inl e)
  | None =>
      match contents (files w) name with
      | None => (w, inl ENOENT)
      | Some _ => (w, inr (mtime H name))
      end
  end.

Definition readFile (name : string) (w : world) : world * (js_error + string) :=
  let w := emit (ReadFile name) w in
  match read_error H name with
  | Some e => (w, inl e)
  | None =>
      match contents (files w) name with
      | None => (w, inl ENOENT)
      | Some buffer => (w, inr buffer)
      end
  end.

(** ** reload, reloadGroups: the third component is what [callback] gets. *)

Definition reload (self : t) (w : world) : t * world * option js_error :=
  let '(w, st) := stat (path self) w in
  match st with
  | inl err => (self, w, Some err)
  | inr stats_mtime =>
      if strict_eq (lastTime self) stats_mtime then (self, w, None)
      else
        let self := with_lastTime self stats_mtime in
        let '(w, rd) := readFile (path self) w in
        match rd with
        | inl err => (self, w, Some err)
        | inr buffer =>
            (with_users self (Object_assign (users self) (parseHTPasswd buffer)),
             w, None)
        end
  end.

Definition reloadGroups (self : t) (w : world) : t * world * option js_error :=
  let '(w, st) := stat (groupPath self) w in
  match st with
  | inl err => (self, w, Some err)
  | inr stats_mtime =>
      if strict_eq (lastTimeGroup self) stats_mtime then (self, w, None)
      else
        let self := with_lastTimeGroup self stats_mtime in
        let '(w, rd) := readFile (groupPath self) w in
        match rd with
        | inl err => (self, w, Some err)
        | inr buffer =>
            (with_groups self (Object_assign (groups self) (parseHTgroup buffer)),
             w, None)
        end
  end.

(** ** authenticate: what [cb] is called with. *)

Inductive auth_result :=
| AuthError (err : option js_error)     (* cb(err) *)
| AuthFalse                             (* cb(null, false) *)
| AuthGroups (g : list string).         (* cb(null, groups) *)

Definition ENOENT_to_null (err : js_error) : option js_error :=
  if code_is_not_ENOENT err then Some err else None.

Definition authenticate (self : t) (w : world) (user password : string)
  : t * world * outcome auth_result :=
  let '(self, w, err) := reload self w in
  match err with
  | Some err => (self, w, Ret (AuthError (ENOENT_to_null err)))
  | None =>
      let userHash := obj_read (users self) user in
      if negb (truthy_hash userHash) then (self, w, Ret AuthFalse)
      else
        match verify_hash (verifyPassword lib) password userHash with
        | Throw e => (self, w, Throw e)
        | Ret false => (self, w, Ret AuthFalse)
        | Ret true =>
            let '(self, w, err) := reloadGroups self w in
            match err with
            | Some err => (self, w, Ret (AuthError (ENOENT_to_null err)))
            | None =>
                (self, w, Ret (AuthGroups (getGroupsForUser (groups self) user)))
            end
        end
  end.

(** ** adduser, addusergroups *)

(** How a call ends: it returns, or an exception escapes it. *)
Inductive completion :=
| Returned
| Uncaught (e : js_error).

Definition is_null (err : option js_error) : bool :=
  match err with
  | Some _ => false
  | None => true
  end.

(** The callback that cleans up the lock first; what [unlockFile] reports
    is dropped. *)
Definition cb (name : string) (locked : bool) (w : world) (err : option js_error)
  : world :=
  if locked then
    let '(w, _) := unlockFile name w in
    emit (RealCb err (is_null err)) w
  else emit (RealCb err (is_null err)) w.

Definition adduser (self : t) (w : world) (user password : string)
  : t * world * completion :=
  match sanityCheck user password (verifyPassword lib) (users self) (maxUsers self) with
  | Throw e => (self, w, Uncaught e)
  | Ret (Some sanity) => (self, emit (RealCb (Some sanity) false) w, Returned)
  | Ret None =>
      let '(w, r) := lockAndRead (path self) w in
      let locked := match r with inl _ => false | inr _ => true end in
      let fatal := match r with inl err => code_is_not_ENOENT err | inr _ => false end in
      if fatal then
        (self, cb (path self) locked w (match r with inl err => Some err | inr _ => None end),
         Returned)
      else
        let body := match r with inl _ => "" | inr res => res end in
        let self := with_users self (parseHTPasswd body) in
        match sanityCheck user password (verifyPassword lib) (users self) (maxUsers self) with
        | Throw e => (self, w, Uncaught e)
        | Ret (Some sanity) => (self, cb (path self) locked w (Some sanity), Returned)
        | Ret None =>
            match addUserToHTPasswd lib (now H) body user password with
            | Throw err => (self, cb (path self) locked w (Some err), Returned)
            | Ret body =>
                let '(w, werr) := writeFile (path self) body w in
                match werr with
                | Some err => (self, cb (path self) locked w (Some err), Returned)
                | None =>
                    let '(self, w, _) := reload self w in
                    (self, cb (path self) locked w None, Returned)
                end
            end
        end
  end.

Definition addusergroups (self : t) (w : world) (user : string) (groups : groups_arg)
  : t * world * completion :=
  let groupsArr := sanityCheckGroups groups in
  if (length groupsArr =? 0)%nat then (self, w, Returned)
  else
    let '(w, r) := lockAndRead (groupPath self) w in
    let locked := match r with inl _ => false | inr _ => true end in
    let fatal := match r with inl err => code_is_not_ENOENT err | inr _ => false end in
    if fatal then
      (self, cb (groupPath self) locked w
               (match r with inl err => Some err | inr _ => None end),
       Returned)
    else
      let body := match r with inl _ => "" | inr res => res end in
      let '(g, modified) := addUserToHTGroup (parseHTgroup body) user groupsArr in
      let self := with_groups self g in
      match modified with
      | Throw err => (self, cb (groupPath self) locked w (Some err), Returned)
      | Ret true =>
          let body := serializeHTgroups (HTPasswd.groups self) in
          let '(w, werr) := writeFile (groupPath self) body w in
          match werr with
          | Some err => (self, cb (groupPath self) locked w (Some err), Returned)
          | None =>
              let '(self, w, _) := reloadGroups self w in
              (self, cb (groupPath self) locked w None, Returned)
          end
      | Ret false => (self, cb (groupPath self) locked w None, Returned)
      end.

End WithHost.
End HTPasswd.

(* ================================================================== *)
(** * Properties *)
(* ================================================================== *)

Import JS Utils HTPasswd.

(** ** Vocabulary of the statements *)

(** *** Objects and strings *)

(** An object built by assignments has no key twice, and no property of
    its own named [__proto__]. *)
Definition wf {V : Type} (o : object V) : Prop :=
  NoDup (Object_keys o) /\ has_key o "__proto__" = false.

(** [new] is [old] overwritten by [parsed]: a key of [parsed] has the parsed
    value, any other key keeps what it had. *)
Definition merged {V} (old parsed new : object V) : Prop :=
  forall k,
    obj_get new k =
    match obj_get parsed k with
    | Some v => Some v
    | None => obj_get old k
    end.

(** Does the character occur in the string? *)
Fixpoint has_char (c : ascii) (s : string) : bool :=
  match s with
  | EmptyString => false
  | String c' s' => Ascii.eqb c' c || has_char c s'
  end.

(** *** Groups *)

(** Is [user] listed under the key [groupName]? *)
Definition lists_user (groupsObj : object (list string)) (user groupName : string)
  : bool :=
  match obj_get groupsObj groupName with
  | Some groupUsers => includes groupUsers user
  | None => false
  end.

(** [args[0]] of a group line. *)
Definition group_name (line : string) : string :=
  nth 0 (split line ":" (Some 2)) "".

(** *** Hashes *)

(** The scheme of a stored hash as the specification words it: the first
    of these that applies, with what follows the marker. *)
Inductive scheme :=
| Bcrypt
| Plain (rest : string)
| Sha (rest : string)
| Legacy.

Definition scheme_of (hash : string) : scheme :=
  if String.prefix "$2a$" hash || String.prefix "$2b$" hash
     || String.prefix "$2y$" hash then Bcrypt
  else if String.prefix "{PLAIN}" hash then Plain (substr hash 7)
  else if String.prefix "{SHA}" hash then Sha (substr hash 5)
  else Legacy.

(** Verification as the specification words it, [crypt] being the
    [crypt3] function. *)
Definition verify_by_scheme (lib : HashLib)
    (crypt : string -> option string -> string) (passwd hash : string) : bool :=
  match scheme_of hash with
  | Bcrypt => bcrypt_compareSync lib passwd hash
  | Plain rest => passwd =? rest
  | Sha rest => Sha1.sha1_base64 passwd =? rest
  | Legacy =>
      if md5 lib passwd hash =? hash then true
      else crypt passwd (Some hash) =? hash
  end.

(** What [addUserToHTPasswd] stores for a password. *)
Definition stored_hash (lib : HashLib) (passwd : string) : string :=
  match crypt3 lib with
  | Some crypt => crypt passwd None
  | None => "{SHA}" ++ Sha1.sha1_base64 passwd
  end.

(** *** Logs and the steps of adduser *)

Definition is_write (e : effect) : bool :=
  match e with
  | WriteFile _ _ _ => true
  | _ => false
  end.

(** The report to the caller, when it is the last thing in the log. *)
Fixpoint last_report (l : list effect) : option (option js_error * bool) :=
  match l with
  | [] => None
  | [RealCb err ok] => Some (err, ok)
  | _ :: l' => last_report l'
  end.

(** Is the lock held once the locked read has answered? *)
Definition lock_held (H : host) (name : string) (w : world) : bool :=
  match lock_error H name with
  | Some _ => lock_held_on_error H name
  | None =>
      match contents (files w) name with
      | None => false
      | Some _ => true
      end
  end.

(** [body] as [adduser] takes it from the locked read. *)
Definition body_of (r : js_error + string) : string :=
  match r with
  | inl _ => ""
  | inr res => res
  end.

(** [err && err.code !== 'ENOENT'] on the outcome of the locked read. *)
Definition fatal (r : js_error + string) : bool :=
  match r with
  | inl err => code_is_not_ENOENT err
  | inr _ => false
  end.

(** How [adduser] ends once the lock is held on a file that read as [res]:
    [w1] is the world right after the locked read, [w'] the final one. *)
Definition locked_exit (lib : HashLib) (H : host) (self : t)
    (user password res : string) (w1 w' : world) (c : completion) : Prop :=
  match sanityCheck user password (verifyPassword lib)
                    (parseHTPasswd res) (maxUsers self) with
  | Throw e => c = Uncaught e /\ w' = w1
  | Ret (Some sanity) =>
      c = Returned
      /\ log w' = (log w1 ++ [UnlockFile (path self);
                              RealCb (Some sanity) false])%list
  | Ret None =>
      match addUserToHTPasswd lib (now H) res user password with
      | Throw err =>
          c = Returned
          /\ log w' = (log w1 ++ [UnlockFile (path self);
                                  RealCb (Some err) false])%list
      | Ret body =>
          match write_error H (path self) with
          | Some err =>
              c = Returned
              /\ log w' = (log w1 ++ [WriteFile (path self) body false;
                                      UnlockFile (path self);
                                      RealCb (Some err) false])%list
          | None =>
              c = Returned
              /\ exists mid,
                  log w' = (log w1 ++ WriteFile (path self) body true
                              :: mid ++ [UnlockFile (path self);
                                         RealCb None true])%list
                  /\ Forall (fun e => e = Stat (path self)
                                      \/ e = ReadFile (path self)) mid
          end
      end
  end.

(** What [adduser] reports for a user name that is not URI-safe, by the
    step at which it stops; [w'] is the final world. *)
Definition unsafe_name_exit (lib : HashLib) (H : host) (self : t) (w : world)
    (user password : string) (w' : world) (c : completion) : Prop :=
  match sanityCheck user password (verifyPassword lib)
                    (users self) (maxUsers self) with
  | Throw e => c = Uncaught e
  | Ret (Some sanity) =>
      c = Returned /\ last_report (log w') = Some (Some sanity, false)
  | Ret None =>
      let r := snd (lockAndRead H (path self) w) in
      if fatal r then
        c = Returned
        /\ exists err, r = inl err
                       /\ last_report (log w') = Some (Some err, false)
      else
        match sanityCheck user password (verifyPassword lib)
                          (parseHTPasswd (body_of r)) (maxUsers self) with
        | Throw e => c = Uncaught e
        | Ret (Some sanity) =>
            c = Returned /\ last_report (log w') = Some (Some sanity, false)
        | Ret None =>
            c = Returned
            /\ last_report (log w') = Some (Some not_uri_safe, false)
        end
  end.

(** *** Sample libraries, hosts, instances and files, to run the model *)

(** A library in which [crypt3] is unavailable and the two external
    comparisons never match: enough for [{PLAIN}] and [{SHA}] hashes. *)
Definition sha_only : HashLib :=
  {| bcrypt_compareSync := fun _ _ => false;
     md5 := fun _ _ => "";
     crypt3 := None |}.

(** A library whose [crypt3] is a stand-in that tags the key. *)
Definition tagging_lib : HashLib :=
  {| bcrypt_compareSync := fun _ _ => false;
     md5 := fun _ _ => "";
     crypt3 := Some (fun key _ => "$1$" ++ key) |}.

Definition a_date : Date :=
  {| year := 2018; month := 1; day := 14;
     hours := 11; minutes := 17; seconds := 40; milliseconds := 712 |}.

(** A host on which nothing fails. *)
Definition quiet_host : host :=
  {| lock_error := fun _ => None;
     lock_held_on_error := fun _ => false;
     unlock_error := fun _ => None;
     write_error := fun _ => None;
     stat_error := fun _ => None;
     read_error := fun _ => None;
     mtime := fun _ => JDate 1 1515928660712;
     now := a_date |}.

(** A host on which writing fails. *)
Definition read_only_host : host :=
  {| lock_error := fun _ => None;
     lock_held_on_error := fun _ => false;
     unlock_error := fun _ => None;
     write_error := fun _ => Some (SysError "EACCES");
     stat_error := fun _ => None;
     read_error := fun _ => None;
     mtime := fun _ => JDate 1 1515928660712;
     now := a_date |}.

(** A host on which reading fails. *)
Definition unreadable_host : host :=
  {| lock_error := fun _ => None;
     lock_held_on_error := fun _ => false;
     unlock_error := fun _ => None;
     write_error := fun _ => None;
     stat_error := fun _ => None;
     read_error := fun _ => Some (SysError "EIO");
     mtime := fun _ => JDate 1 1515928660712;
     now := a_date |}.

(** The quiet host at its next [fs.stat]: the file has not been touched,
    so the instant is the same, but the [Date] is a new object. *)
Definition next_stat_host : host :=
  {| lock_error := fun _ => None;
     lock_held_on_error := fun _ => false;
     unlock_error := fun _ => None;
     write_error := fun _ => None;
     stat_error := fun _ => None;
     read_error := fun _ => None;
     mtime := fun _ => JDate 2 1515928660712;
     now := a_date |}.

(** A host on which the locked read takes the lock and then fails to read. *)
Definition failed_read_host : host :=
  {| lock_error := fun _ => Some (SysError "EIO");
     lock_held_on_error := fun _ => true;
     unlock_error := fun _ => None;
     write_error := fun _ => None;
     stat_error := fun _ => None;
     read_error := fun _ => None;
     mtime := fun _ => JDate 1 1515928660712;
     now := a_date |}.

(** The same host, reporting [f] when a file is unlocked. *)
Definition with_unlock_error (H : host) (f : string -> option js_error) : host :=
  {| lock_error := lock_error H;
     lock_held_on_error := lock_held_on_error H; unlock_error := f;
     write_error := write_error H; stat_error := stat_error H;
     read_error := read_error H; mtime := mtime H; now := now H |}.

(** A fresh instance, as the constructor leaves it. *)
Definition fresh (max : option Z) : t :=
  {| users := []; groups := []; maxUsers :=
       match max with
       | Some z => if (z =? 0)%Z then Infinity else Fin z
       | None => Infinity
       end;
     path := "htpasswd"; groupPath := "htgroup";
     lastTime := JNull; lastTimeGroup := JNull |}.

(** An instance that knows [alice], whose stored hash is [{PLAIN}pw]. *)
Definition knows_alice : t :=
  with_users (fresh None) [("alice", "{PLAIN}pw")].

Definition no_files : world := {| files := []; log := [] |}.

Definition one_user_file : world :=
  {| files := [("htpasswd", "bob:{PLAIN}hunter2:comment" ++ NL)]; log := [] |}.

(** A user file that holds [alice] under a hash of the legacy kind. *)
Definition legacy_file : world :=
  {| files := [("htpasswd", "alice:rqXexS6ZhobKA" ++ NL)]; log := [] |}.

Definition bob_and_admins : world :=
  {| files := [("htpasswd", "bob:{PLAIN}hunter2:comment" ++ NL);
               ("htgroup", "admins: bob carol")];
     log := [] |}.

(** Three lines of a group file, two of them without a colon. *)
Definition three_lines : string := "staff" ++ NL ++ NL ++ "admins:bob".

(** *** Vocabulary of the further properties *)

(** The record [addUserToHTPasswd] composes, without its line feed. *)
Definition record_of (lib : HashLib) (now : Date) (user passwd : string) : string :=
  user ++ ":" ++ stored_hash lib passwd ++ ":" ++ "autocreated " ++ toJSON now.

(** Is the group among those asked for? *)
Definition requested (groups : list string) (name : string) : bool :=
  existsb (String.eqb name) groups.

(** The members of a group once [user] has been added to the groups asked
    for: [user] goes to the end, unless it is there already. *)
Definition joined (groups : list string) (user name : string)
    (members : list string) : list string :=
  if requested groups name && negb (includes members user)
  then (members ++ [user])%list
  else members.

(** The effects of looking at the two files of an instance. *)
Definition looks_only (self : t) (e : effect) : Prop :=
  e = Stat (path self) \/ e = ReadFile (path self)
  \/ e = Stat (groupPath self) \/ e = ReadFile (groupPath self).

(** [fs.stat] and [fs.readFile] of the file report no error of their own. *)
Definition answers (H : host) (name : string) : Prop :=
  stat_error H name = None /\ read_error H name = None.

Definition is_report (e : effect) : bool :=
  match e with
  | RealCb _ _ => true
  | _ => false
  end.

Definition is_unlock (e : effect) : bool :=
  match e with
  | UnlockFile _ => true
  | _ => false
  end.

(** The [locked] flag of [adduser] and [addusergroups]: [!err] of the locked
    read. *)
Definition locked_by (r : js_error + string) : bool :=
  match r with
  | inl _ => false
  | inr _ => true
  end.


(** No character [c] in a name, nor in any member. *)
Definition entry_free_of (c : ascii) (entry : string * list string) : Prop :=
  has_char c (fst entry) = false
  /\ Forall (fun member => has_char c member = false) (snd entry).

(** [args[0]] and [args[1]] of a line of the user file. *)
Definition record_name (line : string) : string :=
  nth 0 (split line ":" (Some 3)) "".

Definition record_hash (line : string) : string :=
  nth 1 (split line ":" (Some 3)) "".

(** ** Facts and theorems *)

(** ** Objects *)

Section ObjectFacts.
Context {V : Type}.
Implicit Types (o : object V) (k : string) (v : V).

Lemma has_key_In o k : has_key o k = true <-> In k (Object_keys o).
Proof.
  induction o as [|[k0 v0] o IH]; simpl.
  - split; [discriminate | tauto].
  - rewrite orb_true_iff, String.eqb_eq, IH. tauto.
Qed.

Lemma has_key_false o k : has_key o k = false <-> ~ In k (Object_keys o).
Proof.
  rewrite <- has_key_In. destruct (has_key o k); split; congruence.
Qed.

Lemma obj_get_None o k : obj_get o k = None <-> has_key o k = false.
Proof.
  induction o as [|[k0 v0] o IH]; simpl; [tauto|].
  destruct (k0 =? k); simpl; [split; discriminate | exact IH].
Qed.

Lemma obj_get_own_key o k :
  In k (Object_keys o) -> exists v, obj_get o k = Some v.
Proof.
  intros Hin. apply has_key_In in Hin.
  destruct (obj_get o k) as [v|] eqn:E; [eauto|].
  apply obj_get_None in E. congruence.
Qed.

Lemma obj_get_Some_In o k v : obj_get o k = Some v -> In (k, v) o.
Proof.
  induction o as [|[k0 v0] o IH]; simpl; [discriminate|].
  destruct (k0 =? k) eqn:E.
  - apply String.eqb_eq in E. intros [= ->]. subst. now left.
  - intros Hg. right. now apply IH.
Qed.

Lemma NoDup_obj_get o k v :
  NoDup (Object_keys o) -> In (k, v) o -> obj_get o k = Some v.
Proof.
  induction o as [|[k0 v0] o IH]; simpl; [tauto|].
  intros Hnd [Heq | Hin].
  - injection Heq as -> ->. now rewrite String.eqb_refl.
  - inversion Hnd as [|? ? Hnotin Hnd']; subst.
    destruct (k0 =? k) eqn:E.
    + apply String.eqb_eq in E. subst. exfalso. apply Hnotin.
      change k with (fst (k, v)). now apply in_map.
    + now apply IH.
Qed.

Lemma In_obj_get o k v : wf o -> In (k, v) o -> obj_get o k = Some v.
Proof. intros [Hnd _]. now apply NoDup_obj_get. Qed.

Lemma keys_replace_value o k v :
  Object_keys (replace_value o k v) = Object_keys o.
Proof.
  induction o as [|[k0 v0] o IH]; simpl; [reflexivity|].
  destruct (k0 =? k); simpl; [reflexivity | now rewrite IH].
Qed.

Lemma keys_add_key o k v k' :
  In k' (Object_keys (add_key o k v)) <-> k' = k \/ In k' (Object_keys o).
Proof.
  induction o as [|[k0 v0] o IH]; simpl.
  - intuition congruence.
  - destruct (enumerates_before k k0); simpl.
    + intuition congruence.
    + rewrite IH. intuition congruence.
Qed.

Lemma has_key_replace_value o k v k' :
  has_key (replace_value o k v) k' = has_key o k'.
Proof.
  induction o as [|[k0 v0] o IH]; simpl; [reflexivity|].
  destruct (k0 =? k); simpl; [reflexivity | now rewrite IH].
Qed.

Lemma has_key_add_key o k v k' :
  has_key (add_key o k v) k' = (k =? k') || has_key o k'.
Proof.
  induction o as [|[k0 v0] o IH]; simpl; [reflexivity|].
  destruct (enumerates_before k k0); simpl; [reflexivity|].
  rewrite IH. now destruct (k0 =? k'), (k =? k').
Qed.

Lemma NoDup_add_key o k v :
  NoDup (Object_keys o) -> has_key o k = false ->
  NoDup (Object_keys (add_key o k v)).
Proof.
  induction o as [|[k0 v0] o IH]; simpl; intros Hnd Hk.
  - constructor; [simpl; tauto | constructor].
  - apply orb_false_iff in Hk as [Hk0 Hk].
    inversion Hnd as [|? ? Hnotin Hnd']; subst.
    destruct (enumerates_before k k0); simpl.
    + constructor; [|exact Hnd]. simpl. intros [->|Hin].
      * now rewrite String.eqb_refl in Hk0.
      * apply has_key_In in Hin. congruence.
    + constructor; [|now apply IH].
      intros Hin. apply keys_add_key in Hin as [->|Hin]; [|tauto].
      now rewrite String.eqb_refl in Hk0.
Qed.

Lemma wf_add_key o k v :
  wf o -> has_key o k = false -> k <> "__proto__" -> wf (add_key o k v).
Proof.
  intros [Hnd Hp] Hk Hne. split; [now apply NoDup_add_key|].
  rewrite has_key_add_key, Hp. apply String.eqb_neq in Hne. now rewrite Hne.
Qed.

Lemma wf_obj_set o k v : wf o -> wf (obj_set o k v).
Proof.
  intros Hwf. unfold obj_set. destruct (has_key o k) eqn:E.
  - destruct Hwf as [Hnd Hp]. split.
    + now rewrite keys_replace_value.
    + now rewrite has_key_replace_value.
  - destruct (String.eqb_spec k "__proto__") as [_|Hne]; [exact Hwf|].
    now apply wf_add_key.
Qed.

Lemma obj_get_replace_value o k v k' :
  has_key o k = true ->
  obj_get (replace_value o k v) k' = if k =? k' then Some v else obj_get o k'.
Proof.
  induction o as [|[k0 v0] o IH]; simpl; [discriminate|].
  destruct (k0 =? k) eqn:E; simpl.
  - intros _. apply String.eqb_eq in E. subst k0.
    now destruct (k =? k').
  - intros Hk. rewrite IH by exact Hk.
    destruct (k0 =? k') eqn:E'; [|reflexivity].
    apply String.eqb_eq in E'. subst k0. now rewrite String.eqb_sym, E.
Qed.

Lemma obj_get_add_key o k v k' :
  has_key o k = false ->
  obj_get (add_key o k v) k' = if k =? k' then Some v else obj_get o k'.
Proof.
  induction o as [|[k0 v0] o IH]; simpl; [reflexivity|].
  intros Hk. apply orb_false_iff in Hk as [Hk0 Hk].
  destruct (enumerates_before k k0); simpl; [reflexivity|].
  rewrite IH by exact Hk.
  destruct (k0 =? k') eqn:E'; [|reflexivity].
  apply String.eqb_eq in E'. subst k0. now rewrite String.eqb_sym, Hk0.
Qed.

(** An assignment to [__proto__] leaves the properties as they are. *)
Lemma obj_set_proto o v :
  has_key o "__proto__" = false -> obj_set o "__proto__" v = o.
Proof. intros Hp. unfold obj_set. now rewrite Hp. Qed.

(** Reading after [obj[k] = v], for any other name. *)
Lemma obj_get_set o k v k' :
  k <> "__proto__" ->
  obj_get (obj_set o k v) k' = if k =? k' then Some v else obj_get o k'.
Proof.
  intros Hne. unfold obj_set. destruct (has_key o k) eqn:E.
  - now apply obj_get_replace_value.
  - apply String.eqb_neq in Hne. rewrite Hne. now apply obj_get_add_key.
Qed.

(** Reading after an assignment to a property the object has. *)
Lemma obj_get_set_own o k v k' :
  has_key o k = true ->
  obj_get (obj_set o k v) k' = if k =? k' then Some v else obj_get o k'.
Proof.
  intros Hk. unfold obj_set. rewrite Hk. now apply obj_get_replace_value.
Qed.

Lemma has_key_set o k v k' :
  k <> "__proto__" ->
  has_key (obj_set o k v) k' = (k =? k') || has_key o k'.
Proof.
  intros Hne. unfold obj_set. destruct (has_key o k) eqn:E.
  - rewrite has_key_replace_value.
    destruct (String.eqb_spec k k') as [<-|_]; [now rewrite E | reflexivity].
  - apply String.eqb_neq in Hne. rewrite Hne. apply has_key_add_key.
Qed.

Lemma has_key_set_keeps o k v k' :
  has_key o k' = true -> has_key (obj_set o k v) k' = true.
Proof.
  intros Hk. unfold obj_set. destruct (has_key o k).
  - now rewrite has_key_replace_value.
  - destruct (k =? "__proto__"); [exact Hk|].
    rewrite has_key_add_key, Hk. apply orb_true_r.
Qed.

(** No assignment gives an object a property of its own named
    [__proto__]. *)
Lemma has_key_set_proto o k v :
  has_key o "__proto__" = false -> has_key (obj_set o k v) "__proto__" = false.
Proof.
  intros Hp. unfold obj_set. destruct (has_key o k).
  - now rewrite has_key_replace_value.
  - destruct (String.eqb_spec k "__proto__") as [_|Hne]; [exact Hp|].
    rewrite has_key_add_key, Hp. apply String.eqb_neq in Hne. now rewrite Hne.
Qed.

Lemma obj_get_snoc o k v k' :
  obj_get (o ++ [(k, v)])%list k' =
  match obj_get o k' with
  | Some x => Some x
  | None => if k =? k' then Some v else None
  end.
Proof.
  induction o as [|[k0 v0] o IH]; simpl; [reflexivity|].
  destruct (k0 =? k'); [reflexivity | exact IH].
Qed.

(** [Object.assign]: the last assignment to a key wins, the other keys
    stay. *)
Lemma obj_get_assign_rev (source target : object V) k :
  has_key source "__proto__" = false ->
  obj_get (Object_assign target source) k =
  match obj_get (rev source) k with
  | Some v => Some v
  | None => obj_get target k
  end.
Proof.
  unfold Object_assign. revert target.
  induction source as [|[k0 v0] source IH]; intros target Hp; simpl;
    [reflexivity|].
  simpl in Hp. apply orb_false_iff in Hp as [Hk0 Hp].
  apply String.eqb_neq in Hk0.
  rewrite IH by exact Hp. rewrite obj_get_snoc, obj_get_set by exact Hk0.
  destruct (obj_get (rev source) k); [reflexivity|].
  now destruct (k0 =? k).
Qed.

Lemma obj_get_rev o k : wf o -> obj_get (rev o) k = obj_get o k.
Proof.
  intros [Hwf _].
  assert (Hwf' : NoDup (Object_keys (rev o))).
  { unfold Object_keys. rewrite map_rev. now apply NoDup_rev. }
  destruct (obj_get o k) as [v|] eqn:E.
  - apply NoDup_obj_get; [exact Hwf'|]. apply in_rev. rewrite rev_involutive.
    now apply obj_get_Some_In.
  - apply obj_get_None, has_key_false. apply obj_get_None, has_key_false in E.
    unfold Object_keys in *. rewrite map_rev. intros Hin. apply E.
    now apply in_rev.
Qed.

Lemma obj_get_assign (source target : object V) k :
  wf source ->
  obj_get (Object_assign target source) k =
  match obj_get source k with
  | Some v => Some v
  | None => obj_get target k
  end.
Proof.
  intros Hwf. rewrite obj_get_assign_rev by exact (proj2 Hwf).
  now rewrite obj_get_rev.
Qed.

Lemma wf_nil : wf ([] : object V).
Proof. split; [constructor | reflexivity]. Qed.

(** Reading any other name after [obj[k] = v]. *)
Lemma obj_get_set_other o k v k' :
  k <> k' -> obj_get (obj_set o k v) k' = obj_get o k'.
Proof.
  intros Hne. unfold obj_set. destruct (has_key o k) eqn:E.
  - rewrite obj_get_replace_value by exact E.
    apply String.eqb_neq in Hne. now rewrite Hne.
  - destruct (k =? "__proto__"); [reflexivity|].
    rewrite obj_get_add_key by exact E.
    apply String.eqb_neq in Hne. now rewrite Hne.
Qed.

Lemma wf_fold_set {A} (f : object V -> A -> object V) (l : list A) o :
  (forall o a, wf o -> wf (f o a)) -> wf o -> wf (fold_left f l o).
Proof.
  intros Hf. revert o. induction l as [|a l IH]; simpl; auto.
Qed.

End ObjectFacts.

(** ** Strings *)

Lemma has_char_app c a b : has_char c (a ++ b) = has_char c a || has_char c b.
Proof.
  induction a as [|c' a IH]; simpl; [reflexivity|].
  now rewrite IH, orb_assoc.
Qed.

Lemma split_on_not_nil sep s : split_on sep s <> [].
Proof.
  destruct s as [|c s]; simpl; [discriminate|].
  destruct (Ascii.eqb c sep); [discriminate|].
  destruct (split_on sep s); discriminate.
Qed.

(** No separator: one piece, the string itself. *)
Lemma split_on_absent sep s : has_char sep s = false -> split_on sep s = [s].
Proof.
  induction s as [|c s IH]; simpl; [reflexivity|].
  intros Hc. apply orb_false_iff in Hc as [Hc Hs].
  now rewrite Hc, IH.
Qed.

(** The first piece ends at the first separator. *)
Lemma split_on_first sep a b :
  has_char sep a = false ->
  split_on sep (a ++ String sep b) = a :: split_on sep b.
Proof.
  induction a as [|c a IH]; simpl.
  - intros _. now rewrite Ascii.eqb_refl.
  - intros Hc. apply orb_false_iff in Hc as [Hc Ha].
    now rewrite Hc, IH.
Qed.

Lemma indexOf_prefix s pat : (indexOf s pat =? 0)%Z = String.prefix pat s.
Proof.
  unfold indexOf. destruct s as [|c s].
  - now destruct pat.
  - change (String.index 0 pat (String c s))
      with (if String.prefix pat (String c s) then Some 0%nat
            else match String.index 0 pat s with
                 | Some n => Some (S n)
                 | None => None
                 end).
    destruct (String.prefix pat (String c s)); [reflexivity|].
    now destruct (String.index 0 pat s).
Qed.

Lemma prefix_app p s : String.prefix p (p ++ s) = true.
Proof.
  induction p as [|c p IH]; simpl; [now destruct s|].
  destruct (ascii_dec c c); [exact IH | congruence].
Qed.

Lemma prefix_split p s : String.prefix p s = true -> s = p ++ substr s (String.length p).
Proof.
  revert s. induction p as [|c p IH]; intros s; [now destruct s|].
  destruct s as [|c' s]; simpl; [discriminate|].
  destruct (ascii_dec c c') as [->|]; intros Hp; [|discriminate Hp].
  f_equal. now apply IH.
Qed.

Lemma substr_app p s : substr (p ++ s) (String.length p) = s.
Proof.
  induction p as [|c p IH]; simpl; [now destruct s | exact IH].
Qed.

Lemma prefix_cons a p c s :
  String.prefix (String a p) (String c s) = Ascii.eqb a c && String.prefix p s.
Proof.
  simpl. destruct (ascii_dec a c) as [->|Hne].
  - now rewrite Ascii.eqb_refl.
  - apply Ascii.eqb_neq in Hne. now rewrite Hne.
Qed.

Lemma prefix_nil_r a p : String.prefix (String a p) "" = false.
Proof. reflexivity. Qed.

Lemma prefix_nil_l s : String.prefix "" s = true.
Proof. now destruct s. Qed.

Lemma append_assoc (a b c : string) : (a ++ b) ++ c = a ++ (b ++ c).
Proof. induction a as [|x a IH]; simpl; [reflexivity | now rewrite IH]. Qed.

Lemma length_append a b :
  String.length (a ++ b) = (String.length a + String.length b)%nat.
Proof. induction a as [|c a IH]; simpl; [reflexivity | now rewrite IH]. Qed.

Lemma split_on_app_sep sep x y :
  split_on sep (x ++ String sep y) = (split_on sep x ++ split_on sep y)%list.
Proof.
  induction x as [|c x IH]; simpl.
  - now rewrite Ascii.eqb_refl.
  - destruct (Ascii.eqb c sep); [now rewrite IH|].
    rewrite IH. destruct (split_on sep x) as [|piece rest] eqn:E.
    + now apply split_on_not_nil in E.
    + reflexivity.
Qed.

Lemma last_char_LF s : last_char s = Some LF -> exists s0, s = s0 ++ NL.
Proof.
  induction s as [|c s IH]; simpl; [discriminate|].
  destruct s as [|c' s].
  - intros [= ->]. now exists "".
  - intros Hl. destruct (IH Hl) as [s0 ->]. now exists (String c s0).
Qed.

(** ** encodeURIComponent and Date.prototype.toJSON *)

Lemma encodeURIComponent_length s :
  (String.length s <= String.length (encodeURIComponent s))%nat.
Proof.
  induction s as [|c s IH]; simpl; [lia|].
  rewrite length_append. unfold encode_char.
  destruct (uri_unreserved c); [simpl; lia|].
  destruct (char_code c <? 128)%nat; [simpl; lia|].
  rewrite length_append. simpl. lia.
Qed.

Lemma uri_safe_head c s :
  String c s = encodeURIComponent (String c s) ->
  uri_unreserved c = true /\ s = encodeURIComponent s.
Proof.
  simpl. unfold encode_char.
  pose proof (encodeURIComponent_length s) as Hlen.
  destruct (uri_unreserved c).
  - simpl. intros [= Hs]. now split.
  - intros Heq. apply (f_equal String.length) in Heq. exfalso.
    destruct (char_code c <? 128)%nat;
      rewrite ?length_append in Heq; simpl in Heq; lia.
Qed.

(** A URI-safe string holds none of the characters [encodeURIComponent]
    escapes. *)
Lemma uri_safe_no_char c s :
  uri_unreserved c = false -> s = encodeURIComponent s -> has_char c s = false.
Proof.
  intros Hc. induction s as [|c0 s IH]; [reflexivity|].
  intros Hs. apply uri_safe_head in Hs as [Hc0 Hs]. simpl.
  rewrite (IH Hs), orb_false_r.
  destruct (Ascii.eqb_spec c0 c) as [->|]; [congruence | reflexivity].
Qed.

Lemma digit_not_LF n : Ascii.eqb (digit n) LF = false.
Proof.
  unfold digit.
  assert (Hr : (n mod 10 < 10)%N) by (apply N.mod_upper_bound; lia).
  generalize dependent (n mod 10)%N. intros r Hr.
  assert (Hcases : (r = 0 \/ r = 1 \/ r = 2 \/ r = 3 \/ r = 4 \/ r = 5
                    \/ r = 6 \/ r = 7 \/ r = 8 \/ r = 9)%N) by lia.
  destruct Hcases as [->|[->|[->|[->|[->|[->|[->|[->|[->| ->]]]]]]]]];
    reflexivity.
Qed.

Lemma pad_no_LF k n : has_char LF (pad k n) = false.
Proof.
  revert n. induction k as [|k IH]; intros n; simpl; [reflexivity|].
  rewrite has_char_app, IH. simpl. now rewrite digit_not_LF.
Qed.

Lemma toJSON_no_LF d : has_char LF (toJSON d) = false.
Proof.
  unfold toJSON. rewrite !has_char_app, !pad_no_LF.
  destruct (year d <? 10000)%N; [now rewrite pad_no_LF|].
  now rewrite has_char_app, pad_no_LF.
Qed.

(** ** The two file formats *)

Lemma wf_parseHTPasswd input : wf (parseHTPasswd input).
Proof.
  unfold parseHTPasswd. apply wf_fold_set; [|apply wf_nil].
  intros o line Ho. unfold parseHTPasswd_line.
  destruct (1 <? _)%nat; [now apply wf_obj_set | exact Ho].
Qed.

Lemma wf_parseHTgroup input : wf (parseHTgroup input).
Proof.
  unfold parseHTgroup. apply wf_fold_set; [|apply wf_nil].
  intros o line Ho. now apply wf_obj_set.
Qed.

Lemma parseHTgroup_line_key result line :
  group_name line <> "__proto__" ->
  has_key (parseHTgroup_line result line) (group_name line) = true.
Proof.
  intros Hne. unfold parseHTgroup_line. fold (group_name line).
  rewrite has_key_set by exact Hne.
  now rewrite String.eqb_refl.
Qed.

Lemma parseHTgroup_line_keeps result line k :
  has_key result k = true -> has_key (parseHTgroup_line result line) k = true.
Proof.
  intros Hk. unfold parseHTgroup_line. now apply has_key_set_keeps.
Qed.

Lemma parseHTgroup_fold_keeps lines result k :
  has_key result k = true ->
  has_key (fold_left parseHTgroup_line lines result) k = true.
Proof.
  revert result. induction lines as [|l lines IH]; intros result Hk; simpl.
  - exact Hk.
  - now apply IH, parseHTgroup_line_keeps.
Qed.

Lemma parseHTgroup_fold_key lines result line :
  In line lines -> group_name line <> "__proto__" ->
  has_key (fold_left parseHTgroup_line lines result) (group_name line) = true.
Proof.
  revert result. induction lines as [|l lines IH]; intros result; simpl; [tauto|].
  intros [-> | Hin] Hne.
  - now apply parseHTgroup_fold_keeps, parseHTgroup_line_key.
  - now apply IH.
Qed.

Lemma parseHTgroup_fold_other lines result k :
  (forall l, In l lines -> group_name l <> k) ->
  obj_get (fold_left parseHTgroup_line lines result) k = obj_get result k.
Proof.
  revert result. induction lines as [|l lines IH]; intros result Hne; simpl.
  - reflexivity.
  - rewrite IH by (intros l' Hl'; apply Hne; now right).
    unfold parseHTgroup_line. fold (group_name l).
    apply obj_get_set_other. apply Hne. now left.
Qed.

Lemma parseHTgroup_line_no_colon result line :
  has_char ":" line = false ->
  parseHTgroup_line result line = obj_set result line [].
Proof.
  intros Hc. unfold parseHTgroup_line, split.
  now rewrite (split_on_absent _ _ Hc).
Qed.

Lemma parseHTPasswd_line_no_colon result line :
  has_char ":" line = false -> parseHTPasswd_line result line = result.
Proof.
  intros Hc. unfold parseHTPasswd_line, split.
  now rewrite (split_on_absent _ _ Hc).
Qed.

Lemma parseHTPasswd_line_record acc user hash comment :
  has_char ":" user = false -> has_char ":" hash = false ->
  parseHTPasswd_line acc (user ++ ":" ++ hash ++ ":" ++ comment)
  = obj_set acc user hash.
Proof.
  intros Hu Hh. unfold parseHTPasswd_line, split.
  change (user ++ ":" ++ hash ++ ":" ++ comment)
    with (user ++ String ":" (hash ++ String ":" comment)).
  rewrite (split_on_first ":" user _ Hu), (split_on_first ":" hash _ Hh).
  simpl. destruct (split_on ":" comment); reflexivity.
Qed.

(** One record, terminated by a line feed, parses to one binding. *)
Lemma parseHTPasswd_record user hash comment :
  user <> "__proto__" ->
  has_char ":" user = false -> has_char LF user = false ->
  has_char ":" hash = false -> has_char LF hash = false ->
  has_char LF comment = false ->
  parseHTPasswd (user ++ ":" ++ hash ++ ":" ++ comment ++ NL) = [(user, hash)].
Proof.
  intros Hne Hu Hul Hh Hhl Hcl. apply String.eqb_neq in Hne.
  unfold parseHTPasswd, split.
  replace (user ++ ":" ++ hash ++ ":" ++ comment ++ NL)
    with ((user ++ ":" ++ hash ++ ":" ++ comment) ++ String LF "")
    by (unfold NL; now rewrite !append_assoc).
  rewrite split_on_first.
  2:{ rewrite !has_char_app, Hul, Hhl, Hcl. reflexivity. }
  simpl. unfold parseHTPasswd_line at 2. unfold split.
  change (split_on ":" "") with [""]. simpl.
  unfold parseHTPasswd_line, split.
  rewrite (split_on_first ":" user _ Hu), (split_on_first ":" hash _ Hh).
  simpl. unfold obj_set. simpl. rewrite Hne.
  destruct (split_on ":" comment); reflexivity.
Qed.

(** The lines of a body to which [addUserToHTPasswd] has appended a
    record end with that record and an empty line. *)
Lemma appended_record_lines body record :
  has_char LF record = false ->
  exists lines,
    split_on LF
      (body ++ (if negb (String.length body =? 0)%nat
                   && negb (match last_char body with
                            | Some c => Ascii.eqb c LF
                            | None => false
                            end)
                then NL ++ record ++ NL
                else record ++ NL))
    = (lines ++ [record; ""])%list.
Proof.
  intros Hr.
  assert (Hrec : split_on LF (record ++ NL) = [record; ""]).
  { unfold NL. now rewrite split_on_first. }
  destruct body as [|c body].
  - exists []. exact Hrec.
  - change (negb (String.length (String c body) =? 0)%nat) with true.
    destruct (last_char (String c body)) as [l|] eqn:Hl.
    + destruct (Ascii.eqb_spec l LF) as [->|Hne]; simpl negb; simpl andb; cbv iota.
      * destruct (last_char_LF _ Hl) as [s0 ->].
        exists (split_on LF s0). rewrite append_assoc.
        change (NL ++ record ++ NL) with (String LF (record ++ NL)).
        now rewrite split_on_app_sep, Hrec.
      * exists (split_on LF (String c body)).
        change (NL ++ record ++ NL) with (String LF (record ++ NL)).
        now rewrite split_on_app_sep, Hrec.
    + exists (split_on LF (String c body)). simpl negb. simpl andb. cbv iota.
      change (NL ++ record ++ NL) with (String LF (record ++ NL)).
      now rewrite split_on_app_sep, Hrec.
Qed.

(** ** Hashing *)

Lemma bcrypt_marker_prefix hash :
  bcrypt_marker hash
  = String.prefix "$2a$" hash || String.prefix "$2b$" hash
    || String.prefix "$2y$" hash.
Proof.
  destruct hash as [|c1 [|c2 [|c3 [|c4 hash]]]]; unfold bcrypt_marker;
    rewrite ?prefix_cons, ?prefix_nil_r, ?prefix_nil_l,
      ?andb_false_r, ?andb_true_r;
    try reflexivity.
  rewrite (Ascii.eqb_sym c1), (Ascii.eqb_sym c2), (Ascii.eqb_sym c4),
    !(Ascii.eqb_sym c3).
  destruct (Ascii.eqb "$" c1), (Ascii.eqb "2" c2), (Ascii.eqb "$" c4),
    (Ascii.eqb "a" c3), (Ascii.eqb "b" c3), (Ascii.eqb "y" c3); reflexivity.
Qed.

Lemma addUserToHTPasswd_unsafe lib now body user passwd :
  user <> encodeURIComponent user ->
  addUserToHTPasswd lib now body user passwd = Throw not_uri_safe.
Proof.
  intros Hne. unfold addUserToHTPasswd.
  apply String.eqb_neq in Hne. now rewrite Hne.
Qed.

(** After [addUserToHTPasswd] the file binds the user to the stored hash. *)
Lemma addUserToHTPasswd_binds lib now body user passwd body' :
  user <> "__proto__" ->
  has_char ":" (stored_hash lib passwd) = false ->
  has_char LF (stored_hash lib passwd) = false ->
  addUserToHTPasswd lib now body user passwd = Ret body' ->
  obj_get (parseHTPasswd body') user = Some (stored_hash lib passwd).
Proof.
  intros Hplain Hc Hl Hadd. unfold addUserToHTPasswd in Hadd.
  destruct (user =? encodeURIComponent user) eqn:Hsafe; [|discriminate].
  apply String.eqb_eq in Hsafe. simpl negb in Hadd. cbv iota in Hadd.
  assert (Hst : match crypt3 lib with
                | Some _ => call_crypt3 lib passwd None
                | None => Ret ("{SHA}" ++ Sha1.sha1_base64 passwd)
                end = Ret (stored_hash lib passwd)).
  { unfold stored_hash, call_crypt3. now destruct (crypt3 lib). }
  rewrite Hst in Hadd. unfold bind in Hadd. cbv beta iota zeta in Hadd.
  set (h := stored_hash lib passwd) in *.
  set (comment := "autocreated " ++ toJSON now) in *.
  set (record := user ++ ":" ++ h ++ ":" ++ comment).
  assert (Hrl : has_char LF record = false).
  { unfold record. rewrite !has_char_app, Hl. unfold comment.
    rewrite has_char_app, toJSON_no_LF.
    rewrite (uri_safe_no_char LF user eq_refl Hsafe). reflexivity. }
  destruct (appended_record_lines body record Hrl) as [lines Hlines].
  assert (Hb : body' =
               body ++ (if negb (String.length body =? 0)%nat
                           && negb (match last_char body with
                                    | Some c => Ascii.eqb c LF
                                    | None => false
                                    end)
                        then NL ++ record ++ NL
                        else record ++ NL)).
  { injection Hadd as <-. f_equal.
    match goal with |- context [if ?b then _ else _] => destruct b end;
      unfold record; now rewrite !append_assoc. }
  rewrite Hb. unfold parseHTPasswd, split.
  rewrite Hlines, fold_left_app. simpl.
  unfold record at 1.
  rewrite parseHTPasswd_line_record;
    [|exact (uri_safe_no_char ":" user eq_refl Hsafe) | exact Hc].
  unfold parseHTPasswd_line at 1. simpl.
  now rewrite obj_get_set, String.eqb_refl by exact Hplain.
Qed.

(** ** sanityCheck *)

Lemma truthy_nonempty s : truthy s = true <-> s <> "".
Proof. destruct s; simpl; split; congruence. Qed.

Lemma sanityCheck_required user password verifyFn usrs maxU :
  user = "" \/ password = "" ->
  sanityCheck user password verifyFn usrs maxU = Ret (Some required).
Proof.
  intros [-> | ->]; unfold sanityCheck; simpl; [reflexivity|].
  now rewrite orb_true_r.
Qed.

Lemma obj_read_own {V} (o : object V) k v :
  obj_get o k = Some v -> obj_read o k = Own v.
Proof. intros Hg. unfold obj_read. now rewrite Hg. Qed.

Lemma inherited_proto : inherited "__proto__" = true.
Proof. reflexivity. Qed.

Lemma not_inherited_not_proto k : inherited k = false -> k <> "__proto__".
Proof. intros Hk ->. discriminate. Qed.

Lemma sanityCheck_existing user password verifyFn usrs maxU hash auth :
  user <> "" -> password <> "" ->
  obj_get usrs user = Some hash -> hash <> "" ->
  verifyFn password hash = Ret auth ->
  sanityCheck user password verifyFn usrs maxU
  = Ret (Some (if auth then already_registered else unauthorized)).
Proof.
  intros Hu Hp Hget Hh Hv. unfold sanityCheck.
  apply truthy_nonempty in Hu, Hp, Hh.
  rewrite Hu, Hp, (obj_read_own _ _ _ Hget). simpl.
  rewrite Hh, Hv. simpl. now destruct auth.
Qed.

Lemma sanityCheck_known user password verifyFn usrs maxU hash :
  obj_get usrs user = Some hash -> hash <> "" ->
  sanityCheck user password verifyFn usrs maxU <> Ret None.
Proof.
  intros Hget Hh. apply truthy_nonempty in Hh. unfold sanityCheck.
  destruct (negb (truthy user) || negb (truthy password)); [discriminate|].
  rewrite (obj_read_own _ _ _ Hget). simpl. rewrite Hh.
  destruct (verifyFn password hash) as [[|]|]; simpl; discriminate.
Qed.

(** Who passes the check: the name and the password are there, the name
    reads [undefined] or an empty hash, and the limit is not reached. *)
Lemma sanityCheck_null user password verifyFn usrs maxU :
  sanityCheck user password verifyFn usrs maxU = Ret None ->
  user <> "" /\ password <> ""
  /\ (obj_read usrs user = Undefined \/ obj_read usrs user = Own "")
  /\ length_ge (length (Object_keys usrs)) maxU = false.
Proof.
  unfold sanityCheck.
  destruct user as [|c user]; [discriminate|].
  destruct password as [|d password]; [discriminate|]. simpl negb. simpl orb.
  cbv iota zeta.
  destruct (obj_read usrs (String c user)) as [[|h0 h]| |]; simpl.
  - destruct (length_ge _ _); [discriminate|]. intros _.
    repeat split; try discriminate; auto.
  - destruct (verifyFn _ _) as [[|]|]; discriminate.
  - discriminate.
  - destruct (length_ge _ _); [discriminate|]. intros _.
    repeat split; try discriminate; auto.
Qed.

Lemma sanityCheck_passes user password verifyFn usrs maxU :
  user <> "" -> password <> "" ->
  obj_read usrs user = Undefined \/ obj_read usrs user = Own "" ->
  length_ge (length (Object_keys usrs)) maxU = false ->
  sanityCheck user password verifyFn usrs maxU = Ret None.
Proof.
  intros Hu Hp Hget Hlen. apply truthy_nonempty in Hu, Hp.
  unfold sanityCheck. rewrite Hu, Hp. simpl.
  destruct Hget as [-> | ->]; simpl; now rewrite Hlen.
Qed.

(** A name that passes the check against a map built by assignments is not
    [__proto__]. *)
Lemma sanityCheck_null_plain user password verifyFn usrs maxU :
  wf usrs ->
  sanityCheck user password verifyFn usrs maxU = Ret None ->
  user <> "__proto__".
Proof.
  intros [_ Hp] Hs ->. apply sanityCheck_null in Hs as [_ [_ [Hr _]]].
  unfold obj_read in Hr. apply obj_get_None in Hp. rewrite Hp in Hr.
  simpl in Hr. destruct Hr; discriminate.
Qed.

(** ** The log of an operation *)

Lemma last_report_snoc l err ok :
  last_report (l ++ [RealCb err ok])%list = Some (err, ok).
Proof.
  induction l as [|e l IH]; simpl; [reflexivity|].
  rewrite IH. destruct (l ++ [RealCb err ok])%list eqn:E.
  - now destruct l.
  - now destruct e.
Qed.

Lemma lockAndRead_world H name w :
  fst (lockAndRead H name w) = emit (LockAndRead name (lock_held H name w)) w.
Proof.
  unfold lockAndRead, lock_held. destruct (lock_error H name); [reflexivity|].
  now destruct (contents (files w) name).
Qed.

(** A locked read that reports no error holds the lock. *)
Lemma lock_held_inr H name w res :
  snd (lockAndRead H name w) = inr res -> lock_held H name w = true.
Proof.
  unfold lockAndRead, lock_held. destruct (lock_error H name); [discriminate|].
  now destruct (contents (files w) name).
Qed.

Lemma cb_world H name locked w err :
  cb H name locked w err
  = emit (RealCb err (is_null err))
         (if locked then emit (UnlockFile name) w else w).
Proof. unfold cb. now destruct locked. Qed.

Lemma contents_store fs name body : contents (store fs name body) name = Some body.
Proof.
  induction fs as [|[n c] fs IH]; simpl.
  - now rewrite String.eqb_refl.
  - destruct (n =? name) eqn:E; simpl; rewrite E; [reflexivity | exact IH].
Qed.

Lemma reload_log H self w :
  exists mid,
    log (snd (fst (reload H self w))) = (log w ++ mid)%list
    /\ Forall (fun e => e = Stat (path self) \/ e = ReadFile (path self)) mid.
Proof.
  unfold reload, stat, readFile.
  destruct (stat_error H (path self)).
  { exists [Stat (path self)]. simpl. split; [reflexivity|]. repeat constructor. }
  simpl. destruct (contents (files w) (path self)).
  2:{ exists [Stat (path self)]. simpl. split; [reflexivity|]. repeat constructor. }
  destruct (strict_eq (lastTime self) (mtime H (path self))).
  { exists [Stat (path self)]. simpl. split; [reflexivity|]. repeat constructor. }
  simpl. exists [Stat (path self); ReadFile (path self)].
  split; [|repeat constructor; tauto].
  destruct (read_error H (path self)); simpl; [now rewrite <- app_assoc|].
  destruct (contents (files w) (path self)); simpl; now rewrite <- app_assoc.
Qed.

Lemma reload_frame H self w :
  files (snd (fst (reload H self w))) = files w
  /\ path (fst (fst (reload H self w))) = path self
  /\ maxUsers (fst (fst (reload H self w))) = maxUsers self.
Proof.
  unfold reload, stat, readFile.
  destruct (stat_error H (path self)); [now simpl|].
  simpl. destruct (contents (files w) (path self)); [|now simpl].
  destruct (strict_eq (lastTime self) (mtime H (path self))); [now simpl|].
  simpl. destruct (read_error H (path self)); [now simpl|].
  destruct (contents (files w) (path self)); now simpl.
Qed.

Lemma has_key_assign {V} (target source : object V) k :
  has_key target k = true -> has_key (Object_assign target source) k = true.
Proof.
  unfold Object_assign. revert target.
  induction source as [|[k0 v0] source IH]; intros target Hk; simpl;
    [exact Hk|].
  apply IH. now apply has_key_set_keeps.
Qed.

Lemma merged_assign {V} (old parsed : object V) :
  wf parsed -> merged old parsed (Object_assign old parsed).
Proof.
  intros Hwf k. now apply obj_get_assign.
Qed.

(** ** The ways through adduser *)

Lemma adduser_locked_exit lib H self w user password w1 res self' w' c :
  sanityCheck user password (verifyPassword lib) (users self) (maxUsers self)
  = Ret None ->
  lockAndRead H (path self) w = (w1, inr res) ->
  adduser lib H self w user password = (self', w', c) ->
  locked_exit lib H self user password res w1 w' c.
Proof.
  intros Hs1 Hlr Hadd. unfold locked_exit.
  unfold adduser in Hadd. rewrite Hs1, Hlr in Hadd. simpl in Hadd.
  destruct (sanityCheck user password (verifyPassword lib)
              (parseHTPasswd res) (maxUsers self)) as [[sanity|]|e].
  - injection Hadd as <- <- <-. split; [reflexivity|]. simpl.
    now rewrite <- app_assoc.
  - destruct (addUserToHTPasswd lib (now H) res user password) as [body|err].
    + unfold writeFile in Hadd.
      destruct (write_error H (path self)) as [err|].
      * injection Hadd as <- <- <-. split; [reflexivity|]. simpl.
        now rewrite <- !app_assoc.
      * pose proof (reload_log H (with_users self (parseHTPasswd res))
                      (emit (WriteFile (path self) body true)
                         {| files := store (files w1) (path self) body;
                            log := log w1 |})) as [mid [Hmid Hall]].
        simpl in Hadd.
        destruct (reload H (with_users self (parseHTPasswd res)) _)
          as [[self2 w2] err2] eqn:Hrl.
        simpl in Hmid. injection Hadd as <- <- <-.
        split; [reflexivity|]. exists mid. split; [|exact Hall].
        unfold cb, unlockFile, emit. simpl.
        assert (Hp : path self2 = path self).
        { revert Hrl. unfold reload.
          destruct (stat H _ _) as [w3 [err3|mt]]; [now intros [= <- _ _]|].
          destruct (strict_eq _ mt); [now intros [= <- _ _]|].
          destruct (readFile H _ w3) as [w4 [err4|buf]];
            now intros [= <- _ _]. }
        rewrite Hp, Hmid. simpl. now rewrite <- !app_assoc.
    + injection Hadd as <- <- <-. split; [reflexivity|]. simpl.
      now rewrite <- app_assoc.
  - injection Hadd as <- <- <-. now split.
Qed.

(** What a successful [adduser] leaves behind: the file holds the body that
    [addUserToHTPasswd] composed from what was read. *)
Lemma adduser_success lib H self w user password self1 w1 :
  adduser lib H self w user password = (self1, w1, Returned) ->
  last_report (log w1) = Some (None, true) ->
  exists r body',
    addUserToHTPasswd lib (now H) (body_of r) user password = Ret body'
    /\ files w1 = store (files w) (path self) body'
    /\ path self1 = path self
    /\ maxUsers self1 = maxUsers self
    /\ user <> "__proto__".
Proof.
  intros Hadd Hok. unfold adduser in Hadd.
  destruct (sanityCheck user password (verifyPassword lib) (users self) (maxUsers self))
    as [[sanity|]|e]; [| |discriminate].
  { injection Hadd as <- <-. simpl in Hok.
    rewrite last_report_snoc in Hok. discriminate. }
  destruct (lockAndRead H (path self) w) as [w0 r] eqn:Hlr.
  pose proof (lockAndRead_world H (path self) w) as Hw0.
  rewrite Hlr in Hw0. simpl in Hw0.
  fold (fatal r) in Hadd. fold (body_of r) in Hadd.
  destruct (fatal r) eqn:Hfatal.
  { injection Hadd as <- <-. rewrite cb_world in Hok. simpl in Hok.
    rewrite last_report_snoc in Hok. destruct r; discriminate. }
  simpl in Hadd.
  destruct (sanityCheck user password (verifyPassword lib)
              (parseHTPasswd (body_of r)) (maxUsers self)) as [[sanity|]|e]
    eqn:Hchecked; [| |discriminate].
  { injection Hadd as <- <-. rewrite cb_world in Hok. simpl in Hok.
    rewrite last_report_snoc in Hok. discriminate. }
  apply sanityCheck_null_plain in Hchecked; [|apply wf_parseHTPasswd].
  destruct (addUserToHTPasswd lib (now H) (body_of r) user password)
    as [body'|err] eqn:Hbody.
  2:{ injection Hadd as <- <-. rewrite cb_world in Hok. simpl in Hok.
      rewrite last_report_snoc in Hok. discriminate. }
  unfold writeFile in Hadd.
  destruct (write_error H (path self)) as [err|].
  { injection Hadd as <- <-. rewrite cb_world in Hok. simpl in Hok.
    rewrite last_report_snoc in Hok. discriminate. }
  exists r, body'. split; [exact Hbody|].
  match type of Hadd with
  | context [reload H ?s ?w'] =>
      pose proof (reload_frame H s w') as [Hf [Hp Hm]];
      destruct (reload H s w') as [[self2 w2] err2]
  end.
  simpl in Hf, Hp, Hm. injection Hadd as <- <-.
  rewrite cb_world. simpl.
  split; [|split; [exact Hp | split; [exact Hm | exact Hchecked]]].
  subst w0. destruct r; simpl; rewrite Hf; reflexivity.
Qed.

(** Once a name has been registered, registering it again fails: the
    second call finds it, in the map or in the file it reads back. *)
Lemma adduser_second_call_fails lib H H' self w user p1 p2 self1 w1 self2 w2 c2 :
  adduser lib H self w user p1 = (self1, w1, Returned) ->
  last_report (log w1) = Some (None, true) ->
  stored_hash lib p1 <> "" ->
  has_char ":" (stored_hash lib p1) = false ->
  has_char LF (stored_hash lib p1) = false ->
  (forall e, lock_error H' (path self) = Some e -> code_is_not_ENOENT e = true) ->
  adduser lib H' self1 {| files := files w1; log := [] |} user p2
  = (self2, w2, c2) ->
  ~ In (RealCb None true) (log w2).
Proof.
  intros Hfirst Hok Hne Hc Hl Hlock Hsecond.
  destruct (adduser_success _ _ _ _ _ _ _ _ Hfirst Hok)
    as [r [body' [Hbody [Hfiles [Hpath [Hmax Hplain]]]]]].
  pose proof (addUserToHTPasswd_binds _ _ _ _ _ _ Hplain Hc Hl Hbody) as Hbound.
  unfold adduser in Hsecond.
  destruct (sanityCheck user p2 (verifyPassword lib) (users self1) (maxUsers self1))
    as [[sanity|]|e].
  - injection Hsecond as <- <- <-. simpl. intros [[=]|[]].
  - unfold lockAndRead in Hsecond. simpl in Hsecond.
    rewrite Hpath in Hsecond.
    destruct (lock_error H' (path self)) as [e|] eqn:Hle.
    + simpl in Hsecond. rewrite (Hlock e eq_refl) in Hsecond.
      injection Hsecond as <- <- <-. simpl. intros [[=]|[[=]|[]]].
    + rewrite Hfiles, contents_store in Hsecond. simpl in Hsecond.
      pose proof (sanityCheck_known user p2 (verifyPassword lib)
                    (parseHTPasswd body') (maxUsers self1) _ Hbound Hne) as Hs.
      destruct (sanityCheck user p2 (verifyPassword lib)
                  (parseHTPasswd body') (maxUsers self1)) as [[sanity|]|e].
      * injection Hsecond as <- <- <-. simpl. intros [[=]|[[=]|[[=]|[]]]].
      * congruence.
      * injection Hsecond as <- <- <-. simpl. intros [[=]|[]].
  - injection Hsecond as <- <- <-. simpl. tauto.
Qed.

(** ** C1: adding a user that is already there *)

(** C1, as the code has it.  When the user map binds a non-empty name to a
    non-empty hash and the password is not empty, [adduser] reports 409
    [username is already registered] if the password verifies against that
    hash and 401 [unauthorized access] if it does not, without locking,
    reading or writing anything and without changing the instance.  With
    an empty name or an empty password it reports 400 [username and
    password is required], whatever the map holds.  And after a call that
    registered a name (under a stored hash that is not empty and holds no
    colon or line feed), a second call for that name never reports
    success, whatever the password and whether or not the first call's
    reload brought the name into the map. *)
Theorem adduser_existing_user_fails :
  (forall lib H self w user password hash auth,
      user <> "" -> password <> "" ->
      obj_get (users self) user = Some hash -> hash <> "" ->
      verifyPassword lib password hash = Ret auth ->
      adduser lib H self w user password
      = (self,
         emit (RealCb (Some (if auth then already_registered else unauthorized))
                      false) w,
         Returned))
  /\ (forall lib H self w user password,
        user = "" \/ password = "" ->
        adduser lib H self w user password
        = (self, emit (RealCb (Some required) false) w, Returned))
  /\ (forall lib H H' self w user p1 p2 self1 w1 self2 w2 c2,
        adduser lib H self w user p1 = (self1, w1, Returned) ->
        last_report (log w1) = Some (None, true) ->
        stored_hash lib p1 <> "" ->
        has_char ":" (stored_hash lib p1) = false ->
        has_char LF (stored_hash lib p1) = false ->
        (forall e, lock_error H' (path self) = Some e ->
                   code_is_not_ENOENT e = true) ->
        adduser lib H' self1 {| files := files w1; log := [] |} user p2
        = (self2, w2, c2) ->
        ~ In (RealCb None true) (log w2)).
Proof.
  split; [|split].
  - intros lib H self w user password hash auth Hu Hp Hget Hh Hv.
    unfold adduser.
    now rewrite (sanityCheck_existing _ _ _ _ _ hash auth Hu Hp Hget Hh Hv).
  - intros lib H self w user password Hempty. unfold adduser.
    now rewrite (sanityCheck_required _ _ _ _ _ Hempty).
  - intros lib H H' self w user p1 p2 self1 w1 self2 w2 c2.
    apply adduser_second_call_fails.
Qed.

Lemma adduser_existing_user_fails_witness :
  adduser sha_only quiet_host knows_alice no_files "alice" "pw"
  = (knows_alice, emit (RealCb (Some already_registered) false) no_files, Returned)
  /\ adduser sha_only quiet_host knows_alice no_files "alice" "other"
     = (knows_alice, emit (RealCb (Some unauthorized) false) no_files, Returned)
  /\ ~ In (RealCb None true)
          (log (snd (fst
             (adduser sha_only quiet_host
                (fst (fst (adduser sha_only quiet_host (fresh None) no_files
                                   "alice" "pw")))
                {| files :=
                     files (snd (fst (adduser sha_only quiet_host (fresh None)
                                              no_files "alice" "pw")));
                   log := [] |}
                "alice" "pw")))).
Proof.
  split; [|split].
  - apply (proj1 adduser_existing_user_fails sha_only quiet_host knows_alice
             no_files "alice" "pw" "{PLAIN}pw" true);
      try discriminate; reflexivity.
  - apply (proj1 adduser_existing_user_fails sha_only quiet_host knows_alice
             no_files "alice" "other" "{PLAIN}pw" false);
      try discriminate; reflexivity.
  - apply (proj2 (proj2 adduser_existing_user_fails)
             sha_only quiet_host quiet_host (fresh None) no_files
             "alice" "pw" "pw"
             (fst (fst (adduser sha_only quiet_host (fresh None) no_files
                                "alice" "pw")))
             (snd (fst (adduser sha_only quiet_host (fresh None) no_files
                                "alice" "pw")))
             (fst (fst
                (adduser sha_only quiet_host
                   (fst (fst (adduser sha_only quiet_host (fresh None) no_files
                                      "alice" "pw")))
                   {| files :=
                        files (snd (fst (adduser sha_only quiet_host (fresh None)
                                                 no_files "alice" "pw")));
                      log := [] |}
                   "alice" "pw")))
             _
             Returned);
      try (vm_compute; reflexivity); try (vm_compute; discriminate).
Defined.

(** C1 as stated fails on an empty password: [alice] is in the map, the
    empty password does not verify against her hash, and the error is 400,
    neither 401 nor 409. *)
Lemma adduser_empty_password_is_400 :
  obj_get (users knows_alice) "alice" = Some "{PLAIN}pw"
  /\ verifyPassword sha_only "" "{PLAIN}pw" = Ret false
  /\ adduser sha_only quiet_host knows_alice no_files "alice" ""
     = (knows_alice,
        {| files := [];
           log := [RealCb (Some (HttpError 400 "username and password is required"))
                          false] |},
        Returned).
Proof. repeat split. Qed.

(** A name bound to an empty hash counts as absent: the second check
    passes and the record is appended once more. *)
Example adduser_over_empty_hash :
  adduser sha_only quiet_host (fresh None)
          {| files := [("htpasswd", "bob::left blank" ++ NL)]; log := [] |}
          "bob" "pw"
  = (with_lastTime
       (with_users (fresh None)
          [("bob", "{SHA}" ++ Sha1.sha1_base64 "pw")])
       (JDate 1 1515928660712),
     {| files :=
          [("htpasswd",
            "bob::left blank" ++ NL ++ "bob:{SHA}" ++ Sha1.sha1_base64 "pw"
            ++ ":autocreated 2018-01-14T11:17:40.712Z" ++ NL)];
        log :=
          [LockAndRead "htpasswd" true;
           WriteFile "htpasswd"
             ("bob::left blank" ++ NL ++ "bob:{SHA}" ++ Sha1.sha1_base64 "pw"
              ++ ":autocreated 2018-01-14T11:17:40.712Z" ++ NL) true;
           Stat "htpasswd"; ReadFile "htpasswd";
           UnlockFile "htpasswd"; RealCb None true] |},
     Returned).
Proof. vm_compute. reflexivity. Qed.

(** ** C2: adding a user to a group the map does not hold *)

Lemma addUserToHTGroup_loop_missing groups :
  forall g user name modified,
    In name groups -> obj_get g name = None ->
    exists e, snd (addUserToHTGroup_loop g user groups modified) = Throw e.
Proof.
  induction groups as [|n groups IH]; intros g user name modified; simpl; [tauto|].
  intros Hin Hmiss.
  destruct (obj_get g n) as [members|] eqn:Hn; [|simpl; eauto].
  assert (Hne : n <> name) by congruence.
  destruct Hin as [->|Hin]; [congruence|].
  destruct (negb (includes members user)).
  - apply (IH _ _ name); [exact Hin|].
    now rewrite obj_get_set_other.
  - now apply (IH _ _ name).
Qed.

(** Whenever a requested group is no property of the map's own, the call
    throws: the [TypeError] of reading [includes] from [undefined], unless
    a name of [Object.prototype] is among the groups asked for. *)
Lemma addUserToHTGroup_loop_undefined groups :
  forall g user name modified,
    In name groups -> obj_get g name = None ->
    (forall n, In n groups -> inherited n = false) ->
    snd (addUserToHTGroup_loop g user groups modified) = Throw undefined_includes.
Proof.
  induction groups as [|n groups IH]; intros g user name modified; simpl; [tauto|].
  intros Hin Hmiss Hplain.
  destruct (obj_get g n) as [members|] eqn:Hn.
  2:{ now rewrite (Hplain n (or_introl eq_refl)). }
  assert (Hne : n <> name) by congruence.
  destruct Hin as [->|Hin]; [congruence|].
  destruct (negb (includes members user)).
  - apply (IH _ _ name); [exact Hin| |auto].
    now rewrite obj_get_set_other.
  - apply (IH _ _ name); auto.
Qed.

Lemma addUserToHTGroup_missing_group g user groups name :
  user = encodeURIComponent user ->
  In name groups -> obj_get g name = None ->
  (forall n, In n groups -> inherited n = false) ->
  snd (addUserToHTGroup g user groups) = Throw undefined_includes.
Proof.
  intros Hsafe Hin Hmiss Hplain. unfold addUserToHTGroup.
  rewrite <- Hsafe, String.eqb_refl. simpl.
  now apply (addUserToHTGroup_loop_undefined groups g user name).
Qed.

(** C2.  Asked to add [bob] to the group [admins] when the map has no such
    key, [addUserToHTGroup] reads [undefined.includes] and throws a
    [TypeError]; no member array is created.  Through [addusergroups], with
    no group file yet: the error is reported to the caller and nothing is
    written. *)
Theorem addUserToHTGroup_throws_on_new_group :
  encodeURIComponent "bob" = "bob"
  /\ addUserToHTGroup [] "bob" ["admins"] = ([], Throw undefined_includes)
  /\ addUserToHTGroup (parseHTgroup "devs: carol") "bob" ["admins"]
     = ([("devs", [""; "carol"])], Throw undefined_includes)
  /\ addusergroups quiet_host (fresh None) no_files "bob" (GString "admins")
     = (with_groups (fresh None) [("", [])],
        {| files := [];
           log := [LockAndRead "htgroup" false;
                   RealCb (Some undefined_includes) false] |},
        Returned).
Proof.
  repeat split; reflexivity.
Qed.

(** ** C3: which scheme verifies a password *)

(** C3.  [verifyPassword] picks the scheme by the look of the stored hash
    alone, in this order: a bcrypt marker [$2a$], [$2b$] or [$2y$] gives the
    bcrypt comparison; else [{PLAIN}] compares the password with what
    follows the marker; else [{SHA}] compares the base64 SHA-1 digest of
    the password with what follows the marker; else the MD5 crypt with the
    stored hash as salt and, if that is not the stored hash, [crypt3] with
    the same salt.  The first three need no [crypt3]. *)
Theorem verifyPassword_by_scheme :
  (forall lib crypt passwd hash,
      crypt3 lib = Some crypt ->
      verifyPassword lib passwd hash = Ret (verify_by_scheme lib crypt passwd hash))
  /\ (forall lib passwd hash,
        scheme_of hash = Bcrypt ->
        verifyPassword lib passwd hash = Ret (bcrypt_compareSync lib passwd hash))
  /\ (forall lib passwd rest,
        scheme_of ("{PLAIN}" ++ rest) = Plain rest
        /\ verifyPassword lib passwd ("{PLAIN}" ++ rest) = Ret (passwd =? rest))
  /\ (forall lib passwd rest,
        scheme_of ("{SHA}" ++ rest) = Sha rest
        /\ verifyPassword lib passwd ("{SHA}" ++ rest)
           = Ret (Sha1.sha1_base64 passwd =? rest))
  /\ (forall lib passwd hash,
        scheme_of hash = Legacy ->
        md5 lib passwd hash = hash ->
        verifyPassword lib passwd hash = Ret true)
  /\ (forall lib,
        Sha1.sha1_base64 "secret" = "5en6G6MezRroT3XKqkdPOmY/BfQ="
        /\ verifyPassword lib "secret" ("{SHA}" ++ Sha1.sha1_base64 "secret")
           = Ret true).
Proof.
  assert (Hgen : forall lib passwd hash,
             verifyPassword lib passwd hash =
             match scheme_of hash with
             | Bcrypt => Ret (bcrypt_compareSync lib passwd hash)
             | Plain rest => Ret (passwd =? rest)
             | Sha rest => Ret (Sha1.sha1_base64 passwd =? rest)
             | Legacy =>
                 if md5 lib passwd hash =? hash then Ret true
                 else c <- call_crypt3 lib passwd (Some hash) ;; Ret (c =? hash)
             end).
  { intros lib passwd hash. unfold verifyPassword, scheme_of.
    rewrite bcrypt_marker_prefix, !indexOf_prefix.
    destruct (String.prefix "$2a$" hash || String.prefix "$2b$" hash
              || String.prefix "$2y$" hash); [reflexivity|].
    destruct (String.prefix "{PLAIN}" hash); [reflexivity|].
    now destruct (String.prefix "{SHA}" hash). }
  assert (Hplain : forall rest, scheme_of ("{PLAIN}" ++ rest) = Plain rest).
  { intros rest. unfold scheme_of.
    change (String.prefix "$2a$" ("{PLAIN}" ++ rest)) with false.
    change (String.prefix "$2b$" ("{PLAIN}" ++ rest)) with false.
    change (String.prefix "$2y$" ("{PLAIN}" ++ rest)) with false.
    rewrite prefix_app. simpl orb. cbv iota.
    exact (f_equal Plain (substr_app "{PLAIN}" rest)). }
  assert (Hsha : forall rest, scheme_of ("{SHA}" ++ rest) = Sha rest).
  { intros rest. unfold scheme_of.
    change (String.prefix "$2a$" ("{SHA}" ++ rest)) with false.
    change (String.prefix "$2b$" ("{SHA}" ++ rest)) with false.
    change (String.prefix "$2y$" ("{SHA}" ++ rest)) with false.
    change (String.prefix "{PLAIN}" ("{SHA}" ++ rest)) with false.
    rewrite prefix_app. simpl orb. cbv iota.
    exact (f_equal Sha (substr_app "{SHA}" rest)). }
  split; [|split; [|split; [|split; [|split]]]].
  - intros lib crypt passwd hash Hc. rewrite Hgen. unfold verify_by_scheme.
    destruct (scheme_of hash); try reflexivity.
    unfold call_crypt3. rewrite Hc. simpl.
    now destruct (md5 lib passwd hash =? hash).
  - intros lib passwd hash Hs. now rewrite Hgen, Hs.
  - intros lib passwd rest. split; [apply Hplain|]. now rewrite Hgen, Hplain.
  - intros lib passwd rest. split; [apply Hsha|]. now rewrite Hgen, Hsha.
  - intros lib passwd hash Hs Hmd5. rewrite Hgen, Hs, Hmd5.
    now rewrite String.eqb_refl.
  - intros lib. split; [vm_compute; reflexivity|].
    rewrite Hgen, Hsha. now rewrite String.eqb_refl.
Qed.

Lemma verifyPassword_by_scheme_witness :
  verifyPassword tagging_lib "pw" "$1$pw" = Ret true
  /\ verifyPassword tagging_lib "pw" "$1$other" = Ret false.
Proof.
  split.
  - exact (proj1 verifyPassword_by_scheme tagging_lib
             (fun key _ => "$1$" ++ key) "pw" "$1$pw" eq_refl).
  - exact (proj1 verifyPassword_by_scheme tagging_lib
             (fun key _ => "$1$" ++ key) "pw" "$1$other" eq_refl).
Defined.

(** Without [crypt3], a legacy hash that the MD5 crypt does not reproduce
    makes [verifyPassword] throw. *)
Example verifyPassword_without_crypt3 :
  verifyPassword sha_only "pw" "rqXexS6ZhobKA"
  = Throw (TypeError "crypt3 is not a function").
Proof. reflexivity. Qed.

(** ** C4: a user name that is not URI-safe *)

(** C4, as the code has it.  When the user name differs from its
    percent-encoding, [adduser] never writes: the files are as they were and
    the log gains no write; if the call returns, what it reports is an
    error.  That error is the 409 raised for the name when the call gets
    as far as composing the record: the first check passes, the locked
    read succeeds or finds no file, and the check on the file just read
    passes too.  When an earlier step fails, its error is the one
    reported: that of either check, or that of the locked read. *)
Theorem adduser_unsafe_name_never_writes :
  forall lib H self w user password self' w' c,
    user <> encodeURIComponent user ->
    adduser lib H self w user password = (self', w', c) ->
    files w' = files w
    /\ filter is_write (log w') = filter is_write (log w)
    /\ (c = Returned -> exists err, last_report (log w') = Some (Some err, false))
    /\ unsafe_name_exit lib H self w user password w' c.
Proof.
  intros lib H self w user password self' w' c Hunsafe Hadd.
  unfold unsafe_name_exit. unfold adduser in Hadd.
  destruct (sanityCheck user password (verifyPassword lib) (users self) (maxUsers self))
    as [[sanity|]|e].
  - injection Hadd as <- <- <-. simpl. split; [reflexivity|].
    split; [now rewrite filter_app, app_nil_r|].
    split; [intros _; exists sanity; apply last_report_snoc|].
    split; [reflexivity | apply last_report_snoc].
  - pose proof (lockAndRead_world H (path self) w) as Hw1.
    destruct (lockAndRead H (path self) w) as [w1 r]. simpl in Hw1.
    fold (fatal r) in Hadd. fold (body_of r) in Hadd.
    rewrite (addUserToHTPasswd_unsafe _ _ _ _ _ Hunsafe) in Hadd.
    rewrite !cb_world in Hadd. simpl in Hadd. subst w1. cbv zeta. simpl snd.
    destruct (fatal r) eqn:Hfatal.
    + destruct r as [err|res]; [|discriminate].
      injection Hadd as <- <- <-. simpl.
      split; [reflexivity|].
      split; [now rewrite !filter_app, !app_nil_r|].
      split; [intros _; exists err; apply last_report_snoc|].
      split; [reflexivity|]. exists err.
      split; [reflexivity | apply last_report_snoc].
    + destruct (sanityCheck user password (verifyPassword lib)
                  (parseHTPasswd (body_of r)) (maxUsers self))
        as [[sanity|]|e];
        injection Hadd as <- <- <-; rewrite ?cb_world; simpl.
      * split; [now destruct r|].
        split; [destruct r; simpl; now rewrite !filter_app, !app_nil_r|].
        split; [intros _; exists sanity; apply last_report_snoc|].
        split; [reflexivity | apply last_report_snoc].
      * split; [now destruct r|].
        split; [destruct r; simpl; now rewrite !filter_app, !app_nil_r|].
        split; [intros _; exists not_uri_safe; apply last_report_snoc|].
        split; [reflexivity | apply last_report_snoc].
      * split; [now destruct r|].
        split; [destruct r; simpl; now rewrite !filter_app, !app_nil_r|].
        split; [discriminate | reflexivity].
  - injection Hadd as <- <- <-.
    split; [reflexivity|]. split; [reflexivity|]. split; [discriminate|].
    reflexivity.
Qed.

Lemma weird_name_is_unsafe : "weird name" <> encodeURIComponent "weird name".
Proof. intros E. vm_compute in E. discriminate E. Qed.

Lemma adduser_unsafe_name_never_writes_witness :
  files {| files := files one_user_file;
           log := [LockAndRead "htpasswd" true; UnlockFile "htpasswd";
                   RealCb (Some not_uri_safe) false] |}
  = files one_user_file
  /\ filter is_write [LockAndRead "htpasswd" true; UnlockFile "htpasswd";
                      RealCb (Some not_uri_safe) false]
     = filter is_write (log one_user_file)
  /\ last_report [LockAndRead "htpasswd" true; UnlockFile "htpasswd";
                  RealCb (Some not_uri_safe) false]
     = Some (Some not_uri_safe, false).
Proof.
  pose proof (adduser_unsafe_name_never_writes
                sha_only quiet_host (fresh None) one_user_file
                "weird name" "secret"
                (with_users (fresh None) [("bob", "{PLAIN}hunter2")])
                {| files := files one_user_file;
                   log := [LockAndRead "htpasswd" true; UnlockFile "htpasswd";
                           RealCb (Some not_uri_safe) false] |}
                Returned weird_name_is_unsafe eq_refl) as [Hf [Hw [_ Hv]]].
  split; [exact Hf|]. split; [exact Hw|].
  exact (proj2 Hv).
Defined.

(** C4 as stated fails: with an empty password the error is 400
    [username and password is required], and on an instance configured
    with [max_users: -1] it is 403 [maximum amount of users reached];
    neither is the 409 raised for the user name. *)
Lemma adduser_unsafe_name_other_errors :
  encodeURIComponent "weird name" = "weird%20name"
  /\ adduser sha_only quiet_host (fresh None) one_user_file "weird name" ""
     = (fresh None,
        {| files := files one_user_file;
           log := [RealCb (Some (HttpError 400 "username and password is required"))
                          false] |},
        Returned)
  /\ adduser sha_only quiet_host (fresh (Some (-1)%Z)) one_user_file
             "weird name" "secret"
     = (fresh (Some (-1)%Z),
        {| files := files one_user_file;
           log := [RealCb (Some (HttpError 403 "maximum amount of users reached"))
                          false] |},
        Returned).
Proof. repeat split. Qed.

(** ** C5: the lock after the locked read *)

(** The exits of [adduser] through [cb] after a locked read that reported
    no error: each unlocks, then reports. *)
Lemma adduser_unlocks_then_reports lib H self w user password w1 res self' w' c :
  sanityCheck user password (verifyPassword lib) (users self) (maxUsers self)
  = Ret None ->
  lockAndRead H (path self) w = (w1, inr res) ->
  adduser lib H self w user password = (self', w', c) ->
  log w1 = (log w ++ [LockAndRead (path self) true])%list
  /\ locked_exit lib H self user password res w1 w' c
  /\ (c = Returned ->
      exists before err,
        log w' = (before ++ [UnlockFile (path self);
                             RealCb err (is_null err)])%list).
Proof.
  intros Hs1 Hlr Hadd.
  pose proof (lockAndRead_world H (path self) w) as Hw1.
  rewrite (lock_held_inr H (path self) w res) in Hw1 by now rewrite Hlr.
  rewrite Hlr in Hw1. simpl in Hw1.
  pose proof (adduser_locked_exit _ _ _ _ _ _ _ _ _ _ _ Hs1 Hlr Hadd) as Hpaths.
  split; [now rewrite Hw1|]. split; [exact Hpaths|].
  unfold locked_exit in Hpaths.
  intros Hc.
  destruct (sanityCheck user password (verifyPassword lib)
              (parseHTPasswd res) (maxUsers self)) as [[sanity|]|e].
  - destruct Hpaths as [_ ->]. exists (log w1), (Some sanity). reflexivity.
  - destruct (addUserToHTPasswd lib (now H) res user password) as [body|err].
    + destruct (write_error H (path self)) as [err|].
      * destruct Hpaths as [_ ->].
        exists (log w1 ++ [WriteFile (path self) body false])%list, (Some err).
        now rewrite <- app_assoc.
      * destruct Hpaths as [_ [mid [-> _]]].
        exists (log w1 ++ WriteFile (path self) body true :: mid)%list, None.
        now rewrite <- app_assoc.
    + destruct Hpaths as [_ ->]. exists (log w1), (Some err). reflexivity.
  - destruct Hpaths as [Hc' _]. congruence.
Qed.

(** C5.  Where [adduser] releases the lock and where it does not.  After a
    locked read that reported no error, every exit through [cb] (the
    check on the file just read fails, composing the record throws, the
    write fails, the write succeeds) unlocks and then reports
    [realCb(err, !err)], whatever the unlock answers.  Two exits leave the
    lock held.  An exception in the check on the file just read escapes
    the callback: nothing is unlocked and nothing reported; so with the
    file holding [alice] under a legacy hash and no [crypt3].  And [cb]
    unlocks only when the locked read reported no error: when the read
    fails after the lock was taken, the error is reported and the lock
    stays. *)
Theorem adduser_can_leave_the_lock_held :
  (forall lib H self w user password w1 res self' w' c,
      sanityCheck user password (verifyPassword lib) (users self) (maxUsers self)
      = Ret None ->
      lockAndRead H (path self) w = (w1, inr res) ->
      adduser lib H self w user password = (self', w', c) ->
      log w1 = (log w ++ [LockAndRead (path self) true])%list
      /\ locked_exit lib H self user password res w1 w' c
      /\ (c = Returned ->
          exists before err,
            log w' = (before ++ [UnlockFile (path self);
                                 RealCb err (is_null err)])%list)
      /\ (forall f,
            adduser lib (with_unlock_error H f) self w user password
            = adduser lib H self w user password))
  /\ adduser sha_only quiet_host (fresh None) legacy_file "alice" "pw"
     = (with_users (fresh None) [("alice", "rqXexS6ZhobKA")],
        {| files := files legacy_file;
           log := [LockAndRead "htpasswd" true] |},
        Uncaught (TypeError "crypt3 is not a function"))
  /\ (forall lib H self w user password e,
        sanityCheck user password (verifyPassword lib) (users self)
          (maxUsers self) = Ret None ->
        lock_error H (path self) = Some e ->
        lock_held_on_error H (path self) = true ->
        code_is_not_ENOENT e = true ->
        adduser lib H self w user password
        = (self,
           {| files := files w;
              log := (log w ++ [LockAndRead (path self) true;
                                RealCb (Some e) false])%list |},
           Returned))
  /\ adduser sha_only failed_read_host (fresh None) one_user_file "alice" "pw"
     = (fresh None,
        {| files := files one_user_file;
           log := [LockAndRead "htpasswd" true;
                   RealCb (Some (SysError "EIO")) false] |},
        Returned).
Proof.
  split; [|split; [|split]].
  - intros lib H self w user password w1 res self' w' c Hs1 Hlr Hadd.
    destruct (adduser_unlocks_then_reports _ _ _ _ _ _ _ _ _ _ _ Hs1 Hlr Hadd)
      as [Hlog [Hexit Hlast]].
    repeat (split; [assumption|]). intros f. reflexivity.
  - vm_compute. reflexivity.
  - intros lib H self w user password e Hs1 Hle Hheld Hfatal.
    unfold adduser, lockAndRead. rewrite Hs1, Hle, Hheld, Hfatal.
    unfold cb, emit. simpl. now rewrite <- app_assoc.
  - vm_compute. reflexivity.
Qed.

Lemma adduser_can_leave_the_lock_held_witness :
  exists before err,
    [LockAndRead "htpasswd" true; UnlockFile "htpasswd";
     RealCb (Some not_uri_safe) false]
    = (before ++ [UnlockFile "htpasswd"; RealCb err (is_null err)])%list.
Proof.
  pose proof (proj1 adduser_can_leave_the_lock_held
                sha_only quiet_host (fresh None) one_user_file
                "weird name" "secret"
                {| files := files one_user_file;
                   log := [LockAndRead "htpasswd" true] |}
                ("bob:{PLAIN}hunter2:comment" ++ NL)
                (with_users (fresh None) [("bob", "{PLAIN}hunter2")])
                {| files := files one_user_file;
                   log := [LockAndRead "htpasswd" true; UnlockFile "htpasswd";
                           RealCb (Some not_uri_safe) false] |}
                Returned eq_refl eq_refl eq_refl) as [_ [_ [Hlast _]]].
  exact (Hlast eq_refl).
Defined.

(** The exits after the lock, run: the user is found in the file just
    read; the write fails; the unlock fails. *)
Example adduser_exits_after_lock :
  log (snd (fst (adduser sha_only quiet_host (fresh None) one_user_file
                         "bob" "hunter2")))
  = [LockAndRead "htpasswd" true; UnlockFile "htpasswd";
     RealCb (Some already_registered) false]
  /\ log (snd (fst (adduser sha_only read_only_host (fresh None) one_user_file
                            "alice" "pw")))
     = [LockAndRead "htpasswd" true;
        WriteFile "htpasswd"
          ("bob:{PLAIN}hunter2:comment" ++ NL
           ++ "alice:{SHA}" ++ Sha1.sha1_base64 "pw"
           ++ ":autocreated 2018-01-14T11:17:40.712Z" ++ NL) false;
        UnlockFile "htpasswd"; RealCb (Some (SysError "EACCES")) false]
  /\ log (snd (fst (adduser sha_only
                            (with_unlock_error quiet_host
                               (fun _ => Some (SysError "EIO")))
                            (fresh None) one_user_file "weird name" "secret")))
     = [LockAndRead "htpasswd" true; UnlockFile "htpasswd";
        RealCb (Some not_uri_safe) false].
Proof. repeat split; vm_compute; reflexivity. Qed.

(** ** C6: the groups of a user *)

Section GroupsForUser.
Variable groupsObj : object (list string).
Variable user : string.

Lemma getGroupsForUser_loop (keys acc : list string) :
  fold_left
    (fun userGroups groupName =>
       match obj_get groupsObj groupName with
       | Some groupUsers =>
           if includes groupUsers user
           then (userGroups ++ [groupName])%list
           else userGroups
       | None => userGroups
       end) keys acc
  = (acc ++ filter (lists_user groupsObj user) keys)%list.
Proof.
  revert acc. induction keys as [|k keys IH]; intros acc; simpl.
  - now rewrite app_nil_r.
  - rewrite IH. unfold lists_user at 2.
    destruct (obj_get groupsObj k) as [us|]; [|reflexivity].
    destruct (includes us user); [|reflexivity].
    now rewrite <- app_assoc.
Qed.
End GroupsForUser.

Lemma includes_In arr x : includes arr x = true <-> In x arr.
Proof.
  induction arr as [|y arr IH]; simpl.
  - split; [discriminate | tauto].
  - rewrite orb_true_iff, String.eqb_eq, IH. tauto.
Qed.

(** C6.  [getGroupsForUser g u] is [u] followed by the keys of [g], in the
    order [Object.keys] gives them, under which the member array includes
    [u]; so it is never empty and always begins with the user's own name.
    A key is listed exactly when [u] is among the members stored under it. *)
Theorem getGroupsForUser_self_then_groups :
  forall (g : object (list string)) (u : string),
    getGroupsForUser g u = u :: filter (lists_user g u) (Object_keys g)
    /\ getGroupsForUser g u <> []
    /\ hd_error (getGroupsForUser g u) = Some u
    /\ (forall name,
          In name (tl (getGroupsForUser g u)) <->
          In name (Object_keys g) /\
          exists members, obj_get g name = Some members /\ In u members).
Proof.
  intros g u.
  assert (E : getGroupsForUser g u = u :: filter (lists_user g u) (Object_keys g)).
  { unfold getGroupsForUser. now rewrite getGroupsForUser_loop. }
  rewrite E. split; [reflexivity|]. split; [discriminate|].
  split; [reflexivity|]. intros name. simpl.
  rewrite filter_In. unfold lists_user. split.
  - intros [Hk Hl]. split; [exact Hk|].
    destruct (obj_get g name) as [members|]; [|discriminate].
    exists members. split; [reflexivity | now apply includes_In].
  - intros [Hk [members [Hg Hu]]]. split; [exact Hk|].
    rewrite Hg. now apply includes_In.
Qed.

(** ** C7: what a serialized group file parses back to *)

(** C7.  The group map [{g: ["a","b"]}] is written as ["g: a b"]; read back,
    the field after the colon is [" a b"], and splitting it on single
    spaces gives a first member that is the empty string: the result binds
    [g] to [["", "a", "b"]], not to [["a", "b"]]. *)
Theorem serialized_group_parses_with_empty_member :
  serializeHTgroups [("g", ["a"; "b"])] = "g: a b"
  /\ split "g: a b" ":" (Some 2) = ["g"; " a b"]
  /\ split " a b" " " None = [""; "a"; "b"]
  /\ parseHTgroup (serializeHTgroups [("g", ["a"; "b"])]) = [("g", [""; "a"; "b"])]
  /\ obj_get (parseHTgroup (serializeHTgroups [("g", ["a"; "b"])])) "g"
     <> Some ["a"; "b"].
Proof.
  repeat split; try reflexivity. discriminate.
Qed.

(** Two groups are written with nothing between them, so they read back as
    one. *)
Example serialized_groups_run_together :
  serializeHTgroups [("g", ["a"]); ("h", ["b"])] = "g: ah: b"
  /\ parseHTgroup (serializeHTgroups [("g", ["a"]); ("h", ["b"])])
     = [("g", [""; "ah"])].
Proof. split; reflexivity. Qed.

(** Adding a member rewrites the line with one more space after the
    colon, and so one more empty member the next time it is read. *)
Example addusergroups_adds_a_space :
  files (snd (fst (addusergroups quiet_host (fresh None)
                     {| files := [("htgroup", "g: a b")]; log := [] |}
                     "carol" (GString "g"))))
  = [("htgroup", "g:  a b carol")]
  /\ parseHTgroup "g:  a b carol" = [("g", [""; ""; "a"; "b"; "carol"])].
Proof. split; reflexivity. Qed.

(** ** C8: what a new htpasswd record parses back to *)

(** C8, as the code has it.  The third argument is a password, and what is
    stored is its hash: [addUserToHTPasswd("", "alice", "hash")] is the line
    [alice:<stored hash>:autocreated <date>], and parsing it binds [alice]
    to that stored hash (given that the hash holds neither a colon nor a
    line feed, as every [crypt] and [{SHA}] hash does).  Without [crypt3]
    the stored hash of ["hash"] is [{SHA}I0atJ9dWi6mJbxt9prWZElHevfI=].
    So [alice] is bound to the string ["hash"] exactly when the stored hash
    of ["hash"] is ["hash"] itself, which needs a [crypt3] that returns its
    argument: without [crypt3] it never is. *)
Theorem new_record_parses_to_stored_hash :
  forall lib now,
    has_char ":" (stored_hash lib "hash") = false ->
    has_char LF (stored_hash lib "hash") = false ->
    addUserToHTPasswd lib now "" "alice" "hash"
    = Ret ("alice:" ++ stored_hash lib "hash"
             ++ ":autocreated " ++ toJSON now ++ NL)
    /\ parseHTPasswd ("alice:" ++ stored_hash lib "hash"
                        ++ ":autocreated " ++ toJSON now ++ NL)
       = [("alice", stored_hash lib "hash")]
    /\ (crypt3 lib = None ->
        stored_hash lib "hash" = "{SHA}I0atJ9dWi6mJbxt9prWZElHevfI=")
    /\ (obj_get (parseHTPasswd ("alice:" ++ stored_hash lib "hash"
                                  ++ ":autocreated " ++ toJSON now ++ NL))
          "alice" = Some "hash"
        <-> stored_hash lib "hash" = "hash")
    /\ (stored_hash lib "hash" = "hash" ->
        exists crypt, crypt3 lib = Some crypt /\ crypt "hash" None = "hash").
Proof.
  intros lib now Hc Hl.
  assert (Hparse : parseHTPasswd ("alice:" ++ stored_hash lib "hash"
                                    ++ ":autocreated " ++ toJSON now ++ NL)
                   = [("alice", stored_hash lib "hash")]).
  { apply (parseHTPasswd_record "alice" (stored_hash lib "hash")
             ("autocreated " ++ toJSON now)); try reflexivity; try assumption;
      [discriminate|].
    rewrite has_char_app, toJSON_no_LF. reflexivity. }
  split; [|split; [exact Hparse|split; [|split]]].
  - unfold addUserToHTPasswd, stored_hash, call_crypt3.
    change ("alice" =? encodeURIComponent "alice") with true. simpl negb.
    cbv iota. destruct (crypt3 lib); reflexivity.
  - intros Hnone. unfold stored_hash. rewrite Hnone. vm_compute. reflexivity.
  - rewrite Hparse. simpl. split; [now intros [= ->] | now intros ->].
  - unfold stored_hash. destruct (crypt3 lib) as [crypt|]; [eauto|].
    intros E. vm_compute in E. discriminate E.
Qed.

Lemma new_record_parses_to_stored_hash_witness :
  addUserToHTPasswd sha_only a_date "" "alice" "hash"
  = Ret ("alice:" ++ stored_hash sha_only "hash"
           ++ ":autocreated " ++ toJSON a_date ++ NL)
  /\ parseHTPasswd ("alice:" ++ stored_hash sha_only "hash"
                      ++ ":autocreated " ++ toJSON a_date ++ NL)
     = [("alice", stored_hash sha_only "hash")]
  /\ (crypt3 sha_only = None ->
      stored_hash sha_only "hash" = "{SHA}I0atJ9dWi6mJbxt9prWZElHevfI=")
  /\ (obj_get (parseHTPasswd ("alice:" ++ stored_hash sha_only "hash"
                                ++ ":autocreated " ++ toJSON a_date ++ NL))
        "alice" = Some "hash"
      <-> stored_hash sha_only "hash" = "hash")
  /\ (stored_hash sha_only "hash" = "hash" ->
      exists crypt, crypt3 sha_only = Some crypt /\ crypt "hash" None = "hash").
Proof.
  apply (new_record_parses_to_stored_hash sha_only a_date);
    vm_compute; reflexivity.
Defined.

(** C8 as stated fails: the record written for [("alice", "hash")] holds the
    hash of ["hash"], and that is what [alice] is bound to after parsing:
    the SHA-1 form without [crypt3], and with a [crypt3] what it returns,
    here the key behind a tag. *)
Lemma new_record_does_not_keep_the_password :
  addUserToHTPasswd sha_only a_date "" "alice" "hash"
  = Ret ("alice:{SHA}I0atJ9dWi6mJbxt9prWZElHevfI=:autocreated 2018-01-14T11:17:40.712Z"
         ++ NL)
  /\ parseHTPasswd
       ("alice:{SHA}I0atJ9dWi6mJbxt9prWZElHevfI=:autocreated 2018-01-14T11:17:40.712Z"
        ++ NL)
     = [("alice", "{SHA}I0atJ9dWi6mJbxt9prWZElHevfI=")]
  /\ obj_get
       (parseHTPasswd
          ("alice:{SHA}I0atJ9dWi6mJbxt9prWZElHevfI=:autocreated 2018-01-14T11:17:40.712Z"
           ++ NL)) "alice"
     <> Some "hash"
  /\ addUserToHTPasswd tagging_lib a_date "" "alice" "hash"
     = Ret ("alice:$1$hash:autocreated 2018-01-14T11:17:40.712Z" ++ NL)
  /\ parseHTPasswd ("alice:$1$hash:autocreated 2018-01-14T11:17:40.712Z" ++ NL)
     = [("alice", "$1$hash")]
  /\ obj_get
       (parseHTPasswd
          ("alice:$1$hash:autocreated 2018-01-14T11:17:40.712Z" ++ NL)) "alice"
     <> Some "hash".
Proof.
  split; [vm_compute; reflexivity|]. split; [vm_compute; reflexivity|].
  split; [vm_compute; discriminate|].
  split; [vm_compute; reflexivity|]. split; [vm_compute; reflexivity|].
  vm_compute. discriminate.
Qed.

(** ** C9: reload and reloadGroups *)

(** [reload] leaves the instance as it is when [lastTime === stats.mtime];
    otherwise, once the file is read, the users become
    [Object.assign(users, parsed)]: parsed values overwrite, every other
    key keeps its value; whatever happens no key of the user map is lost.
    [reloadGroups] does the same with the group map. *)
Lemma reload_skips_or_merges :
  forall (H : host) (self : t) (w : world),
    ((forall w1 stats_mtime,
        stat H (path self) w = (w1, inr stats_mtime) ->
        (strict_eq (lastTime self) stats_mtime = true ->
         reload H self w = (self, w1, None))
        /\ (strict_eq (lastTime self) stats_mtime = false ->
            forall w2 buffer,
              readFile H (path self) w1 = (w2, inr buffer) ->
              exists self',
                reload H self w = (self', w2, None)
                /\ users self' = Object_assign (users self) (parseHTPasswd buffer)
                /\ merged (users self) (parseHTPasswd buffer) (users self')))
     /\ (forall k, has_key (users self) k = true ->
                   has_key (users (fst (fst (reload H self w)))) k = true))
    /\
    ((forall w1 stats_mtime,
        stat H (groupPath self) w = (w1, inr stats_mtime) ->
        (strict_eq (lastTimeGroup self) stats_mtime = true ->
         reloadGroups H self w = (self, w1, None))
        /\ (strict_eq (lastTimeGroup self) stats_mtime = false ->
            forall w2 buffer,
              readFile H (groupPath self) w1 = (w2, inr buffer) ->
              exists self',
                reloadGroups H self w = (self', w2, None)
                /\ groups self' = Object_assign (groups self) (parseHTgroup buffer)
                /\ merged (groups self) (parseHTgroup buffer) (groups self')))
     /\ (forall k, has_key (groups self) k = true ->
                   has_key (groups (fst (fst (reloadGroups H self w)))) k = true)).
Proof.
  intros H self w. split; split.
  - intros w1 mt Hst. unfold reload. rewrite Hst. split; intros Heq; rewrite Heq.
    + reflexivity.
    + intros w2 buffer Hrd. simpl. rewrite Hrd. eexists. split; [reflexivity|].
      simpl. split; [reflexivity|]. apply merged_assign, wf_parseHTPasswd.
  - intros k Hk. unfold reload.
    destruct (stat H (path self) w) as [w1 [err|mt]]; [exact Hk|].
    destruct (strict_eq (lastTime self) mt); [exact Hk|]. simpl.
    destruct (readFile H (path self) w1) as [w2 [err|buffer]]; [exact Hk|].
    simpl. now apply has_key_assign.
  - intros w1 mt Hst. unfold reloadGroups. rewrite Hst.
    split; intros Heq; rewrite Heq.
    + reflexivity.
    + intros w2 buffer Hrd. simpl. rewrite Hrd. eexists. split; [reflexivity|].
      simpl. split; [reflexivity|]. apply merged_assign, wf_parseHTgroup.
  - intros k Hk. unfold reloadGroups.
    destruct (stat H (groupPath self) w) as [w1 [err|mt]]; [exact Hk|].
    destruct (strict_eq (lastTimeGroup self) mt); [exact Hk|]. simpl.
    destruct (readFile H (groupPath self) w1) as [w2 [err|buffer]]; [exact Hk|].
    simpl. now apply has_key_assign.
Qed.

(** Both branches, run: a merge from a fresh [lastTime], and the early
    return when [fs.stat] hands back the very object [lastTime] holds. *)
Lemma reload_skips_or_merges_run :
  (exists self',
      reload quiet_host knows_alice one_user_file
      = (self', emit (ReadFile "htpasswd") (emit (Stat "htpasswd") one_user_file),
         None)
      /\ users self'
         = Object_assign (users knows_alice)
             (parseHTPasswd ("bob:{PLAIN}hunter2:comment" ++ NL))
      /\ merged (users knows_alice)
           (parseHTPasswd ("bob:{PLAIN}hunter2:comment" ++ NL)) (users self'))
  /\ reload quiet_host (with_lastTime knows_alice (JDate 1 1515928660712)) one_user_file
     = (with_lastTime knows_alice (JDate 1 1515928660712),
        emit (Stat "htpasswd") one_user_file, None).
Proof.
  split.
  - destruct (reload_skips_or_merges quiet_host knows_alice one_user_file)
      as [[Husers _] _].
    destruct (Husers (emit (Stat "htpasswd") one_user_file)
                     (JDate 1 1515928660712) eq_refl) as [_ Hmerge].
    exact (Hmerge eq_refl _ _ eq_refl).
  - destruct (reload_skips_or_merges quiet_host
                (with_lastTime knows_alice (JDate 1 1515928660712)) one_user_file)
      as [[Husers _] _].
    destruct (Husers (emit (Stat "htpasswd") one_user_file)
                     (JDate 1 1515928660712) eq_refl) as [Hskip _].
    exact (Hskip eq_refl).
Defined.

(** The merge keeps [alice], whom the file does not mention, and adds
    [bob]. *)
Example reload_keeps_and_adds :
  users (fst (fst (reload quiet_host knows_alice one_user_file)))
  = [("alice", "{PLAIN}pw"); ("bob", "{PLAIN}hunter2")].
Proof. reflexivity. Qed.

(** Two [Date] objects are never [===], whatever instants they hold;
    [null === null], and a [Date] is [===] to itself. *)
Remark strict_eq_compares_references r r' time time' :
  strict_eq (JDate r time) (JDate r' time') = Nat.eqb r r'
  /\ strict_eq JNull JNull = true
  /\ strict_eq JNull (JDate r time) = false.
Proof. repeat split. Qed.

(** C9.  [reload] is not skipped when the modification time is the one last
    seen.  [lastTime] holds the [Date] of an earlier [fs.stat]; the next
    [fs.stat] of the untouched file hands out a new [Date] for the same
    instant, and [===] on the two objects is false.  So, after a reload
    whose read failed (which had already set [lastTime]), the next reload
    reads the file and the user map changes from empty to holding [bob];
    and with the map up to date the file is still read and parsed again.
    [reloadGroups] compares in the same way. *)
Theorem reload_rereads_when_mtime_is_unchanged :
  reload unreadable_host (fresh None) one_user_file
  = (with_lastTime (fresh None) (JDate 1 1515928660712),
     emit (ReadFile "htpasswd") (emit (Stat "htpasswd") one_user_file),
     Some (SysError "EIO"))
  /\ strict_eq (JDate 1 1515928660712) (JDate 2 1515928660712) = false
  /\ reload next_stat_host
            (with_lastTime (fresh None) (JDate 1 1515928660712)) one_user_file
     = (with_users (with_lastTime (fresh None) (JDate 2 1515928660712))
                   [("bob", "{PLAIN}hunter2")],
        emit (ReadFile "htpasswd") (emit (Stat "htpasswd") one_user_file),
        None)
  /\ reload next_stat_host
            (with_users (with_lastTime (fresh None) (JDate 1 1515928660712))
                        [("bob", "{PLAIN}hunter2")])
            one_user_file
     = (with_users (with_lastTime (fresh None) (JDate 2 1515928660712))
                   [("bob", "{PLAIN}hunter2")],
        emit (ReadFile "htpasswd") (emit (Stat "htpasswd") one_user_file),
        None)
  /\ reloadGroups next_stat_host
                  (with_lastTimeGroup (fresh None) (JDate 1 1515928660712))
                  bob_and_admins
     = (with_groups (with_lastTimeGroup (fresh None) (JDate 2 1515928660712))
                    [("admins", [""; "bob"; "carol"])],
        emit (ReadFile "htgroup") (emit (Stat "htgroup") bob_and_admins),
        None).
Proof. repeat split. Qed.

(** ** C10: the lines parseHTgroup keeps *)

(** C10, as the code has it.  [parseHTgroup] assigns for every line: a
    line whose group name (what precedes its first colon) is not
    [__proto__] leaves that name as a key of the result.  A line without a
    colon, other than [__proto__], is stored whole as a key with an empty
    member array, and that is what the result holds for it unless a later
    line assigns the same key again.  [parseHTgroup("")] is [{"": []}].
    [parseHTPasswd] passes over a colon-less line, so [parseHTPasswd("")]
    is [{}]. *)
Theorem parseHTgroup_keeps_each_named_line :
  (forall result line,
      has_char ":" line = false -> line <> "__proto__" ->
      parseHTgroup_line result line = obj_set result line []
      /\ obj_get (parseHTgroup_line result line) line = Some [])
  /\ (forall input line,
        In line (split input LF None) ->
        group_name line <> "__proto__" ->
        has_key (parseHTgroup input) (group_name line) = true)
  /\ (forall input before line after,
        split input LF None = (before ++ line :: after)%list ->
        has_char ":" line = false -> line <> "__proto__" ->
        (forall l, In l after -> group_name l <> line) ->
        obj_get (parseHTgroup input) line = Some [])
  /\ parseHTgroup "" = [("", [])]
  /\ (forall result line,
        has_char ":" line = false -> parseHTPasswd_line result line = result)
  /\ parseHTPasswd "" = [].
Proof.
  assert (Hstep : forall result line,
             has_char ":" line = false -> line <> "__proto__" ->
             parseHTgroup_line result line = obj_set result line []
             /\ obj_get (parseHTgroup_line result line) line = Some []).
  { intros result line Hc Hne. rewrite (parseHTgroup_line_no_colon _ _ Hc).
    split; [reflexivity|]. now rewrite obj_get_set, String.eqb_refl. }
  split; [exact Hstep|]. split; [|split; [|split; [|split]]].
  - intros input line Hin Hne. unfold parseHTgroup.
    now apply parseHTgroup_fold_key.
  - intros input before line after Hsplit Hc Hne Hlater.
    unfold parseHTgroup. rewrite Hsplit, fold_left_app. simpl.
    rewrite parseHTgroup_fold_other by exact Hlater.
    now apply Hstep.
  - reflexivity.
  - exact parseHTPasswd_line_no_colon.
  - reflexivity.
Qed.

(** C10 as stated fails.  The line [__proto__] has no colon and leaves no
    entry: its assignment goes to the prototype.  And the line [staff],
    followed by [staff:bob], ends bound to [["bob"]], not to an empty
    member list. *)
Lemma parseHTgroup_skips_and_rebinds :
  has_char ":" "__proto__" = false
  /\ parseHTgroup "__proto__" = []
  /\ parseHTgroup ("staff" ++ NL ++ "__proto__" ++ NL ++ "admins:bob")
     = [("staff", []); ("admins", ["bob"])]
  /\ parseHTgroup ("staff" ++ NL ++ "staff:bob") = [("staff", ["bob"])]
  /\ obj_get (parseHTgroup ("staff" ++ NL ++ "staff:bob")) "staff" <> Some [].
Proof.
  split; [reflexivity|]. split; [reflexivity|]. split; [reflexivity|].
  split; [reflexivity|]. discriminate.
Qed.

Lemma parseHTgroup_keeps_each_named_line_witness :
  obj_get (parseHTgroup three_lines) "staff" = Some []
  /\ has_key (parseHTgroup three_lines) "" = true.
Proof.
  destruct parseHTgroup_keeps_each_named_line as [_ [Hkey [Hlast _]]].
  split.
  - apply (Hlast three_lines [] "staff" [""; "admins:bob"]);
      [reflexivity | reflexivity | discriminate |].
    intros l [<-|[<-|[]]]; discriminate.
  - apply (Hkey three_lines ""); [right; now left | discriminate].
Defined.

(** Three lines, two of them without a colon, one of them empty. *)
Example parseHTgroup_three_lines :
  parseHTgroup ("staff" ++ NL ++ NL ++ "admins:bob")
  = [("staff", []); ("", []); ("admins", ["bob"])]
  /\ parseHTPasswd ("staff" ++ NL ++ NL ++ "admins:bob") = [("admins", "bob")].
Proof. split; reflexivity. Qed.

(** ** Further checks against the specification's scenarios *)

(** SHA-1 with base64, on the standard test messages of one and two
    blocks. *)
Example sha1_base64_test_vectors :
  Sha1.sha1_base64 "" = "2jmj7l5rSw0yVb/vlWAYkK/YBwk="
  /\ Sha1.sha1_base64 "abc" = "qZk+NkcGgWq6PiVxeFDCbJzQ2J0="
  /\ Sha1.sha1_base64 "abcdbcdecdefdefgefghfghighijhijkijkljklmklmnlmnomnopnopq"
     = "hJg+RBw70m66rkqh+VEp5eVGcPE=".
Proof. repeat split; vm_compute; reflexivity. Qed.

(** [encodeURIComponent] on reserved and unreserved characters. *)
Example encodeURIComponent_samples :
  encodeURIComponent "a b/c?d=e&f#g%h+i~j'k(l)m*n!o.p_q-r:s@t"
  = "a%20b%2Fc%3Fd%3De%26f%23g%25h%2Bi~j'k(l)m*n!o.p_q-r%3As%40t"
  /\ encodeURIComponent "alice" = "alice".
Proof. split; vm_compute; reflexivity. Qed.

Example fresh_is_new max :
  new (fun name => name) ""
      {| file := "htpasswd"; group_file := "htgroup"; max_users := max |}
  = Ret (fresh max).
Proof. reflexivity. Qed.

(** [bob] signs in and gets his own name and the group that lists him; a
    wrong password gets [false]. *)
Example authenticate_bob :
  snd (authenticate sha_only quiet_host (fresh None) bob_and_admins
                    "bob" "hunter2")
  = Ret (AuthGroups ["bob"; "admins"])
  /\ snd (authenticate sha_only quiet_host (fresh None) one_user_file
                       "bob" "hunter2")
     = Ret (AuthError None)
  /\ snd (authenticate sha_only quiet_host (fresh None) bob_and_admins
                       "bob" "wrong")
     = Ret AuthFalse.
Proof. repeat split. Qed.

(** A string or an array of the same names give the same groups. *)
Example sanityCheckGroups_string_or_array :
  sanityCheckGroups (GString "a b c")
  = sanityCheckGroups (GArray [IString "a"; IString "b"; IString "c"])
  /\ sanityCheckGroups (GArray [IString "a"; IOther; IString "c"]) = ["a"; "c"]
  /\ sanityCheckGroups GAbsent = [].
Proof. repeat split. Qed.

(** A user already listed in the group: nothing is written. *)
Example addusergroups_already_member :
  log (snd (fst (addusergroups quiet_host (fresh None) bob_and_admins
                               "bob" (GString "admins"))))
  = [LockAndRead "htgroup" true; UnlockFile "htgroup"; RealCb None true].
Proof. reflexivity. Qed.


(* ================================================================== *)
(** * Further properties of the code *)
(* ================================================================== *)

(** ** User names *)

Lemma addUserToHTPasswd_safe lib now body user passwd :
  user = encodeURIComponent user ->
  addUserToHTPasswd lib now body user passwd
  = Ret (body ++ (if negb (String.length body =? 0)%nat
                     && negb (match last_char body with
                              | Some c => Ascii.eqb c LF
                              | None => false
                              end)
                  then NL ++ record_of lib now user passwd ++ NL
                  else record_of lib now user passwd ++ NL)).
Proof.
  intros Hsafe. unfold addUserToHTPasswd, record_of, stored_hash, call_crypt3.
  rewrite <- Hsafe, String.eqb_refl. simpl negb. cbv iota.
  destruct (crypt3 lib); unfold bind; cbv beta iota zeta; f_equal; f_equal;
    match goal with |- context [if ?b then _ else _] => destruct b end;
    now rewrite !append_assoc.
Qed.

(** X1.  A user name that equals its percent-encoding holds none of the
    characters [encodeURIComponent] escapes: no colon, no line feed and no
    space, the separators of the two file formats.  So the name field of
    the record composed for it reads back as the name, whatever the hash.
    For a name that differs from its percent-encoding [addUserToHTGroup]
    throws the 409 and leaves the group map as it was. *)
Theorem accepted_names_hold_no_separator :
  (forall user,
      user = encodeURIComponent user ->
      (forall c, uri_unreserved c = false -> has_char c user = false)
      /\ has_char ":" user = false
      /\ has_char LF user = false
      /\ has_char " " user = false
      /\ (forall lib now passwd,
            record_name (record_of lib now user passwd) = user))
  /\ (forall user g groups,
        user <> encodeURIComponent user ->
        addUserToHTGroup g user groups = (g, Throw not_uri_safe)).
Proof.
  split.
  - intros user Hsafe.
    assert (Hnone : forall c, uri_unreserved c = false -> has_char c user = false).
    { intros c Hc. now apply uri_safe_no_char. }
    split; [exact Hnone|].
    split; [now apply Hnone|]. split; [now apply Hnone|].
    split; [now apply Hnone|].
    intros lib now passwd. unfold record_name, record_of, split.
    change (user ++ ":" ++ stored_hash lib passwd ++ ":" ++ "autocreated "
              ++ toJSON now)
      with (user ++ String ":" (stored_hash lib passwd ++ ":" ++ "autocreated "
                                  ++ toJSON now)).
    rewrite split_on_first by now apply Hnone.
    reflexivity.
  - intros user g groups Hne. unfold addUserToHTGroup.
    apply String.eqb_neq in Hne. now rewrite Hne.
Qed.

Lemma accepted_names_hold_no_separator_run :
  (forall c, uri_unreserved c = false -> has_char c "alice" = false)
  /\ has_char ":" "alice" = false
  /\ has_char LF "alice" = false
  /\ has_char " " "alice" = false
  /\ (forall lib now passwd,
        record_name (record_of lib now "alice" passwd) = "alice").
Proof.
  apply (proj1 accepted_names_hold_no_separator "alice"). reflexivity.
Defined.

(** ** Appending a record to the user file *)

Lemma last_char_app_NL s : last_char (s ++ NL) = Some LF.
Proof.
  induction s as [|c s IH]; [reflexivity|].
  simpl. rewrite IH. now destruct (s ++ NL).
Qed.

(** X2.  For an accepted user name [addUserToHTPasswd] always returns, and
    what it returns is the old body with the new record appended, ending
    in a line feed: nothing already in the file is rewritten.  A line feed
    is put before the record only when the old body is not empty and lacks
    its final line feed. *)
Theorem addUserToHTPasswd_only_appends :
  forall lib now body user passwd,
    user = encodeURIComponent user ->
    exists suffix,
      addUserToHTPasswd lib now body user passwd = Ret (body ++ suffix)
      /\ String.prefix body (body ++ suffix) = true
      /\ last_char (body ++ suffix) = Some LF
      /\ (suffix = record_of lib now user passwd ++ NL
          \/ (suffix = NL ++ record_of lib now user passwd ++ NL
              /\ body <> "" /\ last_char body <> Some LF)).
Proof.
  intros lib now body user passwd Hsafe.
  rewrite (addUserToHTPasswd_safe _ _ _ _ _ Hsafe).
  eexists. split; [reflexivity|]. split; [apply prefix_app|].
  destruct body as [|c body].
  - split; [apply last_char_app_NL | now left].
  - change (negb (String.length (String c body) =? 0)%nat) with true.
    destruct (last_char (String c body)) as [l|] eqn:Hl.
    + destruct (Ascii.eqb_spec l LF) as [->|Hne]; simpl negb; simpl andb;
        cbv iota.
      * split; [|now left].
        rewrite <- append_assoc. apply last_char_app_NL.
      * split.
        -- rewrite <- !append_assoc. apply last_char_app_NL.
        -- right. split; [reflexivity|]. split; [discriminate | congruence].
    + simpl negb. simpl andb. cbv iota. split.
      * rewrite <- !append_assoc. apply last_char_app_NL.
      * right. split; [reflexivity|]. split; discriminate.
Qed.

Lemma addUserToHTPasswd_only_appends_run :
  exists suffix,
    addUserToHTPasswd sha_only a_date "bob:x" "alice" "pw" = Ret ("bob:x" ++ suffix)
    /\ String.prefix "bob:x" ("bob:x" ++ suffix) = true
    /\ last_char ("bob:x" ++ suffix) = Some LF
    /\ (suffix = record_of sha_only a_date "alice" "pw" ++ NL
        \/ (suffix = NL ++ record_of sha_only a_date "alice" "pw" ++ NL
            /\ "bob:x" <> "" /\ last_char "bob:x" <> Some LF)).
Proof.
  apply (addUserToHTPasswd_only_appends sha_only a_date "bob:x" "alice" "pw").
  reflexivity.
Defined.

(** The lines of the new body, against those of the old one: for the
    parser they are the old lines and then the record. *)
Lemma appended_record_parse body record acc :
  has_char LF record = false ->
  fold_left parseHTPasswd_line
    (split_on LF
       (body ++ (if negb (String.length body =? 0)%nat
                    && negb (match last_char body with
                             | Some c => Ascii.eqb c LF
                             | None => false
                             end)
                 then NL ++ record ++ NL
                 else record ++ NL))) acc
  = parseHTPasswd_line
      (fold_left parseHTPasswd_line (split_on LF body) acc) record.
Proof.
  intros Hr.
  assert (Hrec : split_on LF (record ++ NL) = [record; ""]).
  { unfold NL. now rewrite split_on_first. }
  assert (Hempty : forall o, parseHTPasswd_line o "" = o) by reflexivity.
  destruct body as [|c body].
  - simpl append. rewrite Hrec. reflexivity.
  - change (negb (String.length (String c body) =? 0)%nat) with true.
    destruct (last_char (String c body)) as [l|] eqn:Hl.
    + destruct (Ascii.eqb_spec l LF) as [->|Hne]; simpl negb; simpl andb;
        cbv iota.
      * destruct (last_char_LF _ Hl) as [s0 Hs0]. rewrite Hs0.
        rewrite append_assoc.
        change (NL ++ record ++ NL) with (String LF (record ++ NL)).
        unfold NL at 2.
        rewrite !split_on_app_sep, Hrec, !fold_left_app. simpl.
        now rewrite !Hempty.
      * change (NL ++ record ++ NL) with (String LF (record ++ NL)).
        rewrite split_on_app_sep, Hrec, fold_left_app. simpl.
        now rewrite Hempty.
    + simpl negb. simpl andb. cbv iota.
      change (NL ++ record ++ NL) with (String LF (record ++ NL)).
      rewrite split_on_app_sep, Hrec, fold_left_app. simpl.
      now rewrite Hempty.
Qed.

(** What the record appended by [addUserToHTPasswd] does to the parsed
    map: the assignment [map[user] = hash]. *)
Lemma appended_record_assigns lib now body user passwd body' :
  has_char ":" (stored_hash lib passwd) = false ->
  has_char LF (stored_hash lib passwd) = false ->
  addUserToHTPasswd lib now body user passwd = Ret body' ->
  parseHTPasswd body'
  = obj_set (parseHTPasswd body) user (stored_hash lib passwd).
Proof.
  intros Hc Hl Hadd.
  assert (Hsafe : user = encodeURIComponent user).
  { destruct (String.eqb_spec user (encodeURIComponent user)) as [E|E];
      [exact E|].
    rewrite (addUserToHTPasswd_unsafe _ _ _ _ _ E) in Hadd. discriminate. }
  rewrite (addUserToHTPasswd_safe _ _ _ _ _ Hsafe) in Hadd.
  assert (Hb : body ++ (if negb (String.length body =? 0)%nat
                           && negb (match last_char body with
                                    | Some c => Ascii.eqb c LF
                                    | None => false
                                    end)
                        then NL ++ record_of lib now user passwd ++ NL
                        else record_of lib now user passwd ++ NL) = body')
    by congruence.
  rewrite <- Hb. clear Hb Hadd.
  assert (Hrl : has_char LF (record_of lib now user passwd) = false).
  { unfold record_of. rewrite !has_char_app, Hl, toJSON_no_LF.
    rewrite (uri_safe_no_char LF user eq_refl Hsafe). reflexivity. }
  unfold parseHTPasswd, split.
  rewrite (appended_record_parse body _ [] Hrl).
  unfold record_of.
  change (user ++ ":" ++ stored_hash lib passwd ++ ":" ++ "autocreated " ++ toJSON now)
    with (user ++ ":" ++ stored_hash lib passwd ++ ":"
          ++ ("autocreated " ++ toJSON now)).
  apply parseHTPasswd_line_record;
    [exact (uri_safe_no_char ":" user eq_refl Hsafe) | exact Hc].
Qed.

(** X3.  Appending a record with [addUserToHTPasswd] is, for the parser,
    the assignment [map[user] = hash] on the old body's map, whatever the
    old body held (other users, an earlier record of the same user, a
    missing final line feed).  For every name but [__proto__] the user is
    then bound to the stored hash and every other name reads as before;
    the record of the name [__proto__] binds nothing and the map is as it
    was.  The stored hash must hold no colon and no line feed. *)
Theorem appended_record_is_an_assignment :
  forall lib now body user passwd body',
    has_char ":" (stored_hash lib passwd) = false ->
    has_char LF (stored_hash lib passwd) = false ->
    addUserToHTPasswd lib now body user passwd = Ret body' ->
    parseHTPasswd body'
    = obj_set (parseHTPasswd body) user (stored_hash lib passwd)
    /\ (user <> "__proto__" ->
        obj_get (parseHTPasswd body') user = Some (stored_hash lib passwd)
        /\ forall k, k <> user ->
                     obj_get (parseHTPasswd body') k
                     = obj_get (parseHTPasswd body) k)
    /\ (user = "__proto__" -> parseHTPasswd body' = parseHTPasswd body).
Proof.
  intros lib now body user passwd body' Hc Hl Hadd.
  pose proof (appended_record_assigns _ _ _ _ _ _ Hc Hl Hadd) as Hset.
  split; [exact Hset|]. rewrite Hset. split.
  - intros Hne. split.
    + now rewrite obj_get_set, String.eqb_refl.
    + intros k Hk. apply obj_get_set_other. congruence.
  - intros ->. apply obj_set_proto. exact (proj2 (wf_parseHTPasswd body)).
Qed.

Lemma appended_record_is_an_assignment_run :
  parseHTPasswd
    ("bob:x" ++ NL ++ record_of sha_only a_date "alice" "pw" ++ NL)
  = obj_set (parseHTPasswd "bob:x") "alice" (stored_hash sha_only "pw")
  /\ ("alice" <> "__proto__" ->
      obj_get (parseHTPasswd
                 ("bob:x" ++ NL ++ record_of sha_only a_date "alice" "pw" ++ NL))
        "alice" = Some (stored_hash sha_only "pw")
      /\ forall k, k <> "alice" ->
                   obj_get (parseHTPasswd
                              ("bob:x" ++ NL
                               ++ record_of sha_only a_date "alice" "pw" ++ NL)) k
                   = obj_get (parseHTPasswd "bob:x") k)
  /\ ("alice" = "__proto__" ->
      parseHTPasswd
        ("bob:x" ++ NL ++ record_of sha_only a_date "alice" "pw" ++ NL)
      = parseHTPasswd "bob:x").
Proof.
  apply (appended_record_is_an_assignment sha_only a_date "bob:x" "alice" "pw");
    vm_compute; reflexivity.
Defined.

(** The record of [__proto__] leaves the parsed map as it was. *)
Example appended_proto_record_binds_nothing :
  parseHTPasswd
    ("bob:x" ++ NL ++ record_of sha_only a_date "__proto__" "pw" ++ NL)
  = [("bob", "x")].
Proof. vm_compute. reflexivity. Qed.

(** ** Who may register *)

(** X4.  An instance whose [maxUsers] is zero or negative registers nobody:
    [adduser] then stops at its first check, so it neither locks, reads nor
    writes, leaves the instance as it was, and either reports an error or
    lets the exception of the password check escape.  The constructor
    yields such an instance for a negative [max_users] (the documented
    [-1]); a [max_users] of zero is falsy and yields [Infinity] instead. *)
Theorem nonpositive_maxUsers_registers_nobody :
  (forall lib H self w user password z,
      maxUsers self = Fin z -> (z <= 0)%Z ->
      (exists err,
          adduser lib H self w user password
          = (self, emit (RealCb (Some err) false) w, Returned))
      \/ (exists e,
             adduser lib H self w user password = (self, w, Uncaught e)))
  /\ (forall resolve users_file c z self,
        max_users c = Some z ->
        new resolve users_file c = Ret self ->
        maxUsers self = if (z =? 0)%Z then Infinity else Fin z).
Proof.
  split.
  - intros lib H self w user password z Hmax Hz. unfold adduser.
    destruct (sanityCheck user password (verifyPassword lib) (users self)
                (maxUsers self)) as [[sanity|]|e] eqn:Hs.
    + left. now exists sanity.
    + apply sanityCheck_null in Hs as [_ [_ [_ Hlen]]].
      rewrite Hmax in Hlen. simpl in Hlen.
      apply Z.leb_gt in Hlen. lia.
    + right. now exists e.
  - intros resolve users_file c z self Hmax Hnew. unfold new in Hnew.
    rewrite Hmax in Hnew.
    destruct (negb (truthy (if negb (truthy (file c)) then users_file else file c)));
      [discriminate|].
    destruct (negb (truthy (group_file c))); [discriminate|].
    injection Hnew as <-. reflexivity.
Qed.

Lemma nonpositive_maxUsers_registers_nobody_run :
  (exists err,
      adduser sha_only quiet_host (fresh (Some (-1)%Z)) one_user_file "alice" "pw"
      = (fresh (Some (-1)%Z),
         emit (RealCb (Some err) false) one_user_file, Returned))
  \/ (exists e,
         adduser sha_only quiet_host (fresh (Some (-1)%Z)) one_user_file "alice" "pw"
         = (fresh (Some (-1)%Z), one_user_file, Uncaught e)).
Proof.
  apply (proj1 nonpositive_maxUsers_registers_nobody sha_only quiet_host
           (fresh (Some (-1)%Z)) one_user_file "alice" "pw" (-1)%Z);
    [reflexivity | lia].
Defined.

(** ** What adduser does when it goes through *)

Lemma reload_keeps_fields H self w :
  groupPath (fst (fst (reload H self w))) = groupPath self
  /\ groups (fst (fst (reload H self w))) = groups self
  /\ lastTimeGroup (fst (fst (reload H self w))) = lastTimeGroup self.
Proof.
  unfold reload, stat, readFile.
  destruct (stat_error H (path self)); [now simpl|].
  simpl. destruct (contents (files w) (path self)); [|now simpl].
  destruct (strict_eq (lastTime self) (mtime H (path self))); [now simpl|].
  simpl. destruct (read_error H (path self)); [now simpl|].
  destruct (contents (files w) (path self)); now simpl.
Qed.

(** X5.  When [adduser] goes through.  Name and password are not empty,
    the name is URI-safe, the name reads [undefined] or an empty hash both
    in the map in memory and in the map of the file (so it is not a name
    that a map without it inherits from [Object.prototype]), both maps
    hold fewer users than [maxUsers], the locked read succeeds or finds no
    file, and the write succeeds: then [adduser] reports [(null, true)],
    the file holds what [addUserToHTPasswd] made of the body read, and
    that write is the only one. *)
Theorem adduser_goes_through :
  forall lib H self w user password w1 r,
    user <> "" -> password <> "" ->
    user = encodeURIComponent user ->
    (obj_read (users self) user = Undefined
     \/ obj_read (users self) user = Own "") ->
    length_ge (length (Object_keys (users self))) (maxUsers self) = false ->
    lockAndRead H (path self) w = (w1, r) ->
    fatal r = false ->
    (obj_read (parseHTPasswd (body_of r)) user = Undefined
     \/ obj_read (parseHTPasswd (body_of r)) user = Own "") ->
    length_ge (length (Object_keys (parseHTPasswd (body_of r)))) (maxUsers self)
    = false ->
    write_error H (path self) = None ->
    exists self' w' body',
      adduser lib H self w user password = (self', w', Returned)
      /\ addUserToHTPasswd lib (now H) (body_of r) user password = Ret body'
      /\ files w' = store (files w) (path self) body'
      /\ last_report (log w') = Some (None, true)
      /\ filter is_write (log w')
         = (filter is_write (log w) ++ [WriteFile (path self) body' true])%list.
Proof.
  intros lib H self w user password w1 r Hu Hp Hsafe Hmem Hlen Hlr Hfatal
         Hfile Hflen Hwrite.
  pose proof (lockAndRead_world H (path self) w) as Hw1.
  rewrite Hlr in Hw1. simpl in Hw1.
  pose proof (addUserToHTPasswd_safe lib (now H) (body_of r) user password Hsafe)
    as Hbody.
  set (body' := body_of r ++ _) in Hbody.
  unfold adduser.
  rewrite (sanityCheck_passes _ _ _ _ _ Hu Hp Hmem Hlen), Hlr.
  fold (fatal r). fold (body_of r). rewrite Hfatal. simpl.
  rewrite (sanityCheck_passes _ _ _ _ _ Hu Hp Hfile Hflen), Hbody.
  unfold writeFile. rewrite Hwrite.
  match goal with
  | |- context [reload H ?s ?w0] =>
      pose proof (reload_frame H s w0) as [Hf [Hpath _]];
      pose proof (reload_log H s w0) as [mid [Hmid Hall]];
      destruct (reload H s w0) as [[self2 w2] err2]
  end.
  simpl in Hf, Hmid, Hpath. rewrite Hpath. exists self2, (cb H (path self)
                                      match r with inl _ => false | inr _ => true end
                                      w2 None), body'.
  split; [reflexivity|]. split; [reflexivity|]. rewrite cb_world. simpl.
  split; [|split].
  - subst w1. destruct r; simpl; rewrite Hf; reflexivity.
  - apply last_report_snoc.
  - assert (Hnw : filter is_write mid = []).
    { clear Hmid. induction Hall as [|e l [-> | ->] _ IH]; simpl; auto. }
    subst w1.
    destruct r; simpl; rewrite Hmid; simpl;
      repeat (rewrite filter_app; simpl); rewrite Hnw; simpl.
    all: now rewrite !app_nil_r.
Qed.

Lemma adduser_goes_through_run :
  exists self' w' body',
    adduser sha_only quiet_host (fresh None) one_user_file "alice" "pw"
    = (self', w', Returned)
    /\ addUserToHTPasswd sha_only a_date
         (body_of (inr ("bob:{PLAIN}hunter2:comment" ++ NL))) "alice" "pw"
       = Ret body'
    /\ files w' = store (files one_user_file) "htpasswd" body'
    /\ last_report (log w') = Some (None, true)
    /\ filter is_write (log w')
       = (filter is_write (log one_user_file)
            ++ [WriteFile "htpasswd" body' true])%list.
Proof.
  apply (adduser_goes_through sha_only quiet_host (fresh None) one_user_file
           "alice" "pw" (emit (LockAndRead "htpasswd" true) one_user_file)
           (inr ("bob:{PLAIN}hunter2:comment" ++ NL)));
    try discriminate; try reflexivity; left; reflexivity.
Defined.

(** ** The user limit *)

Lemma length_keys_add_key {V} (o : object V) k v :
  length (Object_keys (add_key o k v)) = S (length (Object_keys o)).
Proof.
  induction o as [|[k0 v0] o IH]; simpl; [reflexivity|].
  destruct (enumerates_before k k0); simpl; [reflexivity | now rewrite IH].
Qed.

Lemma length_keys_obj_set {V} (o : object V) k v :
  (length (Object_keys (obj_set o k v)) <= S (length (Object_keys o)))%nat.
Proof.
  unfold obj_set. destruct (has_key o k).
  - rewrite keys_replace_value. lia.
  - destruct (k =? "__proto__"); [lia|].
    rewrite length_keys_add_key. lia.
Qed.

Lemma parseHTPasswd_line_one_more o line :
  (length (Object_keys (parseHTPasswd_line o line))
   <= S (length (Object_keys o)))%nat.
Proof.
  unfold parseHTPasswd_line. destruct (1 <? _)%nat; [|lia].
  apply length_keys_obj_set.
Qed.

(** What a call of [adduser] that reported success went through. *)
Lemma adduser_success_checks lib H self w user password self1 w1 :
  adduser lib H self w user password = (self1, w1, Returned) ->
  last_report (log w1) = Some (None, true) ->
  exists r body',
    sanityCheck user password (verifyPassword lib) (users self) (maxUsers self)
    = Ret None
    /\ snd (lockAndRead H (path self) w) = r
    /\ fatal r = false
    /\ sanityCheck user password (verifyPassword lib)
         (parseHTPasswd (body_of r)) (maxUsers self) = Ret None
    /\ addUserToHTPasswd lib (now H) (body_of r) user password = Ret body'
    /\ write_error H (path self) = None
    /\ files w1 = store (files w) (path self) body'.
Proof.
  intros Hadd Hok. unfold adduser in Hadd.
  destruct (sanityCheck user password (verifyPassword lib) (users self) (maxUsers self))
    as [[sanity|]|e]; [| |discriminate].
  { injection Hadd as <- <-. simpl in Hok.
    rewrite last_report_snoc in Hok. discriminate. }
  destruct (lockAndRead H (path self) w) as [w0 r] eqn:Hlr.
  pose proof (lockAndRead_world H (path self) w) as Hw0.
  rewrite Hlr in Hw0. simpl in Hw0.
  fold (fatal r) in Hadd. fold (body_of r) in Hadd.
  destruct (fatal r) eqn:Hfatal.
  { injection Hadd as <- <-. rewrite cb_world in Hok. simpl in Hok.
    rewrite last_report_snoc in Hok. destruct r; discriminate. }
  simpl in Hadd.
  destruct (sanityCheck user password (verifyPassword lib)
              (parseHTPasswd (body_of r)) (maxUsers self)) as [[sanity|]|e]
    eqn:Hsecond; [| |discriminate].
  { injection Hadd as <- <-. rewrite cb_world in Hok. simpl in Hok.
    rewrite last_report_snoc in Hok. discriminate. }
  destruct (addUserToHTPasswd lib (now H) (body_of r) user password)
    as [body'|err] eqn:Hbody.
  2:{ injection Hadd as <- <-. rewrite cb_world in Hok. simpl in Hok.
      rewrite last_report_snoc in Hok. discriminate. }
  unfold writeFile in Hadd.
  destruct (write_error H (path self)) as [err|].
  { injection Hadd as <- <-. rewrite cb_world in Hok. simpl in Hok.
    rewrite last_report_snoc in Hok. discriminate. }
  exists r, body'.
  split; [reflexivity|]. split; [reflexivity|]. split; [exact Hfatal|].
  split; [exact Hsecond|]. split; [exact Hbody|]. split; [reflexivity|].
  match type of Hadd with
  | context [reload H ?s ?w'] =>
      pose proof (reload_frame H s w') as [Hf _];
      destruct (reload H s w') as [[self2 w2] err2]
  end.
  simpl in Hf. injection Hadd as <- <-.
  rewrite cb_world. simpl.
  subst w0. destruct r; simpl; rewrite Hf; reflexivity.
Qed.

(** X6.  [adduser] keeps the file within [maxUsers].  After a call that
    reported success on an instance limited to [z] users, the user file
    holds at most [z] distinct names (the stored hash is assumed to hold
    no line feed, as the hashes of the supported schemes do). *)
Theorem adduser_respects_maxUsers :
  forall lib H self w user password self1 w1 z,
    adduser lib H self w user password = (self1, w1, Returned) ->
    last_report (log w1) = Some (None, true) ->
    maxUsers self = Fin z ->
    has_char LF (stored_hash lib password) = false ->
    exists body',
      contents (files w1) (path self) = Some body'
      /\ (Z.of_nat (length (Object_keys (parseHTPasswd body'))) <= z)%Z.
Proof.
  intros lib H self w user password self1 w1 z Hadd Hok Hmax Hl.
  destruct (adduser_success_checks _ _ _ _ _ _ _ _ Hadd Hok)
    as [r [body' [_ [_ [_ [Hsanity [Hbody [_ Hfiles]]]]]]]].
  exists body'. split; [rewrite Hfiles; apply contents_store|].
  apply sanityCheck_null in Hsanity as [_ [_ [_ Hlen]]].
  rewrite Hmax in Hlen. simpl in Hlen. apply Z.leb_gt in Hlen.
  assert (Hsafe : user = encodeURIComponent user).
  { destruct (String.eqb_spec user (encodeURIComponent user)) as [Heq|Hne];
      [exact Heq|].
    rewrite (addUserToHTPasswd_unsafe _ _ _ _ _ Hne) in Hbody. discriminate. }
  rewrite (addUserToHTPasswd_safe _ _ _ _ _ Hsafe) in Hbody.
  match type of Hbody with
  | Ret ?x = _ => assert (Hb : x = body') by congruence
  end.
  rewrite <- Hb. clear Hb Hbody Hfiles.
  assert (Hrl : has_char LF (record_of lib (now H) user password) = false).
  { unfold record_of. rewrite !has_char_app, Hl, toJSON_no_LF.
    rewrite (uri_safe_no_char LF user eq_refl Hsafe). reflexivity. }
  unfold parseHTPasswd, split.
  rewrite (appended_record_parse (body_of r) _ [] Hrl).
  pose proof (parseHTPasswd_line_one_more
                (fold_left parseHTPasswd_line (split_on LF (body_of r)) [])
                (record_of lib (now H) user password)) as Hone.
  unfold parseHTPasswd, split in Hlen. lia.
Qed.

Lemma adduser_respects_maxUsers_run :
  exists body',
    contents
      (files (snd (fst (adduser sha_only quiet_host (fresh (Some 2%Z))
                          one_user_file "alice" "pw"))))
      "htpasswd" = Some body'
    /\ (Z.of_nat (length (Object_keys (parseHTPasswd body'))) <= 2)%Z.
Proof.
  apply (adduser_respects_maxUsers sha_only quiet_host (fresh (Some 2%Z))
           one_user_file "alice" "pw"
           (fst (fst (adduser sha_only quiet_host (fresh (Some 2%Z))
                        one_user_file "alice" "pw"))));
    vm_compute; reflexivity.
Defined.

(** X7.  Once [adduser] has read the file, the map the instance held is
    gone: it is replaced by the file's, not merged with it.  Two instances
    that differ only in their user maps, and both pass the first check,
    behave alike from there on (same instance afterwards, same effects,
    same report); and unless the call reports success, the map afterwards
    is exactly the parse of what was read. *)
Theorem adduser_forgets_the_old_map :
  forall lib H self w user password users1 users2,
    sanityCheck user password (verifyPassword lib) users1 (maxUsers self)
    = Ret None ->
    sanityCheck user password (verifyPassword lib) users2 (maxUsers self)
    = Ret None ->
    fatal (snd (lockAndRead H (path self) w)) = false ->
    adduser lib H (with_users self users1) w user password
    = adduser lib H (with_users self users2) w user password
    /\ (last_report
          (log (snd (fst (adduser lib H (with_users self users1) w
                            user password))))
        <> Some (None, true) ->
        users (fst (fst (adduser lib H (with_users self users1) w
                           user password)))
        = parseHTPasswd (body_of (snd (lockAndRead H (path self) w)))).
Proof.
  intros lib H self w user password users1 users2 H1 H2 Hfatal.
  unfold adduser.
  change (users (with_users self users1)) with users1.
  change (users (with_users self users2)) with users2.
  change (maxUsers (with_users self users1)) with (maxUsers self).
  change (maxUsers (with_users self users2)) with (maxUsers self).
  change (path (with_users self users1)) with (path self).
  change (path (with_users self users2)) with (path self).
  rewrite H1, H2.
  destruct (lockAndRead H (path self) w) as [w0 r].
  simpl snd in *. fold (fatal r). fold (body_of r). rewrite Hfatal.
  split; [reflexivity|].
  cbv zeta.
  change (users (with_users (with_users self users1) (parseHTPasswd (body_of r))))
    with (parseHTPasswd (body_of r)).
  destruct (sanityCheck user password (verifyPassword lib)
              (parseHTPasswd (body_of r)) _) as [[sanity|]|e];
    [reflexivity| |reflexivity].
  destruct (addUserToHTPasswd lib (now H) (body_of r) user password)
    as [body'|err]; [|reflexivity].
  unfold writeFile.
  destruct (write_error H _) as [err|]; [reflexivity|].
  match goal with
  | |- context [reload H ?s ?w'] =>
      destruct (reload H s w') as [[self2 w2] err2]
  end.
  rewrite cb_world. simpl. rewrite last_report_snoc.
  intros Hno. now contradiction Hno.
Qed.

Lemma adduser_forgets_the_old_map_run :
  adduser sha_only quiet_host (with_users (fresh None) []) one_user_file
    "alice" "pw"
  = adduser sha_only quiet_host (with_users (fresh None) [("carol", "x")])
      one_user_file "alice" "pw"
  /\ (last_report
        (log (snd (fst (adduser sha_only quiet_host (with_users (fresh None) [])
                          one_user_file "alice" "pw"))))
      <> Some (None, true) ->
      users (fst (fst (adduser sha_only quiet_host (with_users (fresh None) [])
                         one_user_file "alice" "pw")))
      = parseHTPasswd
          (body_of (snd (lockAndRead quiet_host (path (fresh None))
                           one_user_file)))).
Proof.
  apply (adduser_forgets_the_old_map sha_only quiet_host (fresh None)
           one_user_file "alice" "pw" [] [("carol", "x")]);
    vm_compute; reflexivity.
Defined.

(** ** authenticate *)

Lemma reloadGroups_log H self w :
  exists mid,
    log (snd (fst (reloadGroups H self w))) = (log w ++ mid)%list
    /\ Forall (fun e => e = Stat (groupPath self) \/ e = ReadFile (groupPath self))
         mid.
Proof.
  unfold reloadGroups, stat, readFile.
  destruct (stat_error H (groupPath self)).
  { exists [Stat (groupPath self)]. simpl. split; [reflexivity|]. repeat constructor. }
  simpl. destruct (contents (files w) (groupPath self)).
  2:{ exists [Stat (groupPath self)]. simpl. split; [reflexivity|].
      repeat constructor. }
  destruct (strict_eq (lastTimeGroup self) (mtime H (groupPath self))).
  { exists [Stat (groupPath self)]. simpl. split; [reflexivity|].
    repeat constructor. }
  simpl.
  exists [Stat (groupPath self); ReadFile (groupPath self)].
  split; [|repeat constructor; tauto].
  destruct (read_error H (groupPath self)); simpl; [now rewrite <- app_assoc|].
  destruct (contents (files w) (groupPath self)); simpl;
    now rewrite <- app_assoc.
Qed.

Lemma reloadGroups_frame H self w :
  files (snd (fst (reloadGroups H self w))) = files w
  /\ path (fst (fst (reloadGroups H self w))) = path self
  /\ groupPath (fst (fst (reloadGroups H self w))) = groupPath self
  /\ maxUsers (fst (fst (reloadGroups H self w))) = maxUsers self
  /\ users (fst (fst (reloadGroups H self w))) = users self.
Proof.
  unfold reloadGroups, stat, readFile.
  destruct (stat_error H (groupPath self)); [now simpl|].
  simpl. destruct (contents (files w) (groupPath self)); [|now simpl].
  destruct (strict_eq (lastTimeGroup self) (mtime H (groupPath self)));
    [now simpl|].
  simpl. destruct (read_error H (groupPath self)); [now simpl|].
  destruct (contents (files w) (groupPath self)); now simpl.
Qed.

Lemma reload_users_grow H self w k :
  has_key (users self) k = true ->
  has_key (users (fst (fst (reload H self w)))) k = true.
Proof.
  intros Hk. unfold reload, stat, readFile.
  destruct (stat_error H (path self)); [exact Hk|].
  simpl. destruct (contents (files w) (path self)); [|exact Hk].
  destruct (strict_eq (lastTime self) (mtime H (path self))); [exact Hk|].
  simpl. destruct (read_error H (path self)); [exact Hk|].
  destruct (contents (files w) (path self)); simpl; [|exact Hk].
  now apply has_key_assign.
Qed.

Lemma Forall_looks_user self mid :
  Forall (fun e => e = Stat (path self) \/ e = ReadFile (path self)) mid ->
  Forall (looks_only self) mid.
Proof.
  apply Forall_impl. intros e [-> | ->]; unfold looks_only; auto.
Qed.

Lemma Forall_looks_group self mid :
  Forall (fun e => e = Stat (groupPath self) \/ e = ReadFile (groupPath self)) mid ->
  Forall (looks_only self) mid.
Proof.
  apply Forall_impl. intros e [-> | ->]; unfold looks_only; auto.
Qed.

(** X8.  [authenticate] only looks.  Whatever it answers, the files are as
    before; what it adds to the log are [fs.stat] and [fs.readFile] calls on
    the user file and the group file (no lock, no write, no unlock); the
    paths and the user limit of the instance stay; and no user known before
    is forgotten. *)
Theorem authenticate_only_looks :
  forall lib H self w user password self' w' res,
    authenticate lib H self w user password = (self', w', res) ->
    files w' = files w
    /\ (exists evs, log w' = (log w ++ evs)%list /\ Forall (looks_only self) evs)
    /\ path self' = path self
    /\ groupPath self' = groupPath self
    /\ maxUsers self' = maxUsers self
    /\ (forall k, has_key (users self) k = true -> has_key (users self') k = true).
Proof.
  intros lib H self w user password self' w' res Hauth.
  unfold authenticate in Hauth.
  pose proof (reload_frame H self w) as [Hf [Hp Hm]].
  pose proof (reload_keeps_fields H self w) as [Hgp _].
  pose proof (reload_log H self w) as [mid [Hmid Hall]].
  pose proof (reload_users_grow H self w) as Hgrow.
  apply Forall_looks_user in Hall.
  destruct (reload H self w) as [[self1 w1] err1]. simpl in *.
  assert (Hstop : forall r, (self1, w1, r) = (self', w', res) ->
            files w' = files w
            /\ (exists evs, log w' = (log w ++ evs)%list
                            /\ Forall (looks_only self) evs)
            /\ path self' = path self
            /\ groupPath self' = groupPath self
            /\ maxUsers self' = maxUsers self
            /\ (forall k, has_key (users self) k = true ->
                          has_key (users self') k = true)).
  { intros r Hr. injection Hr as <- <- _.
    repeat (split; [assumption|]).
    split; [exists mid; auto|]. auto. }
  destruct err1 as [err|]; [now apply Hstop in Hauth|].
  cbv zeta in Hauth.
  destruct (negb (truthy_hash (obj_read (users self1) user)));
    [now apply Hstop in Hauth|].
  destruct (verify_hash (verifyPassword lib) password
              (obj_read (users self1) user)) as [[|]|e];
    [|now apply Hstop in Hauth|now apply Hstop in Hauth].
  clear Hstop.
  pose proof (reloadGroups_frame H self1 w1) as [Hf2 [Hp2 [Hgp2 [Hm2 Hu2]]]].
  pose proof (reloadGroups_log H self1 w1) as [mid2 [Hmid2 Hall2]].
  rewrite Hgp in Hall2. apply Forall_looks_group in Hall2.
  destruct (reloadGroups H self1 w1) as [[self2 w2] err2]. simpl in *.
  assert (self2 = self' /\ w2 = w') as [<- <-].
  { destruct err2; injection Hauth as <- <- _; auto. }
  split; [congruence|]. split.
  { exists (mid ++ mid2)%list. split.
    - rewrite Hmid2, Hmid. now rewrite app_assoc.
    - apply Forall_app. auto. }
  split; [congruence|]. split; [congruence|]. split; [congruence|].
  intros k Hk. rewrite Hu2. auto.
Qed.

Lemma authenticate_only_looks_run :
  files (snd (fst (authenticate sha_only quiet_host (fresh None) bob_and_admins
                     "bob" "hunter2")))
  = files bob_and_admins
  /\ (exists evs,
         log (snd (fst (authenticate sha_only quiet_host (fresh None)
                          bob_and_admins "bob" "hunter2")))
         = (log bob_and_admins ++ evs)%list
         /\ Forall (looks_only (fresh None)) evs)
  /\ path (fst (fst (authenticate sha_only quiet_host (fresh None)
                       bob_and_admins "bob" "hunter2")))
     = path (fresh None)
  /\ groupPath (fst (fst (authenticate sha_only quiet_host (fresh None)
                            bob_and_admins "bob" "hunter2")))
     = groupPath (fresh None)
  /\ maxUsers (fst (fst (authenticate sha_only quiet_host (fresh None)
                           bob_and_admins "bob" "hunter2")))
     = maxUsers (fresh None)
  /\ (forall k,
         has_key (users (fresh None)) k = true ->
         has_key (users (fst (fst (authenticate sha_only quiet_host (fresh None)
                                     bob_and_admins "bob" "hunter2")))) k
         = true).
Proof.
  apply (authenticate_only_looks sha_only quiet_host (fresh None) bob_and_admins
           "bob" "hunter2" _ _
           (snd (authenticate sha_only quiet_host (fresh None) bob_and_admins
                   "bob" "hunter2"))).
  vm_compute. reflexivity.
Defined.

(** X9.  How [authenticate] says no.  A user file that is not there is no
    error: the callback gets [null] and nothing else.  A user whose name
    reads [undefined] in the map, one whose stored hash is empty and a
    wrong password all get the same [false], with the instance and the
    effects of the reload alone: the group file is not consulted.  A name
    that the map does not hold but inherits from [Object.prototype]
    ([toString], [constructor], [__proto__]) gets no answer at all:
    [verifyPassword] throws on what is read and the callback is never
    called. *)
Theorem authenticate_refusals :
  (forall lib H self w user password,
      stat_error H (path self) = None ->
      contents (files w) (path self) = None ->
      authenticate lib H self w user password
      = (self, emit (Stat (path self)) w, Ret (AuthError None)))
  /\ (forall lib H self w user password self1 w1,
         reload H self w = (self1, w1, None) ->
         obj_read (users self1) user = Undefined
         \/ obj_read (users self1) user = Own ""
         \/ (exists userHash,
                obj_read (users self1) user = Own userHash
                /\ verifyPassword lib password userHash = Ret false) ->
         authenticate lib H self w user password = (self1, w1, Ret AuthFalse))
  /\ (forall lib H self w user password self1 w1,
         reload H self w = (self1, w1, None) ->
         obj_read (users self1) user = Inherited ->
         authenticate lib H self w user password
         = (self1, w1, Throw no_match_method)).
Proof.
  split; [|split].
  - intros lib H self w user password Hstat Hmissing.
    unfold authenticate, reload, stat. rewrite Hstat. simpl.
    rewrite Hmissing. reflexivity.
  - intros lib H self w user password self1 w1 Hreload Hno.
    unfold authenticate. rewrite Hreload. cbv zeta.
    destruct Hno as [-> | [-> | [userHash [-> Hverify]]]];
      [reflexivity | reflexivity |].
    simpl. destruct (negb (truthy userHash)); [reflexivity|].
    now rewrite Hverify.
  - intros lib H self w user password self1 w1 Hreload Hproto.
    unfold authenticate. rewrite Hreload. cbv zeta. now rewrite Hproto.
Qed.

Lemma authenticate_refusals_run :
  authenticate sha_only quiet_host (fresh None) no_files "bob" "hunter2"
  = (fresh None, emit (Stat (path (fresh None))) no_files, Ret (AuthError None))
  /\ authenticate sha_only quiet_host (fresh None) bob_and_admins "bob" "guess"
     = (fst (fst (reload quiet_host (fresh None) bob_and_admins)),
        snd (fst (reload quiet_host (fresh None) bob_and_admins)),
        Ret AuthFalse)
  /\ authenticate sha_only quiet_host (fresh None) bob_and_admins
       "toString" "guess"
     = (fst (fst (reload quiet_host (fresh None) bob_and_admins)),
        snd (fst (reload quiet_host (fresh None) bob_and_admins)),
        Throw no_match_method).
Proof.
  split; [|split].
  - apply (proj1 authenticate_refusals sha_only quiet_host (fresh None) no_files
             "bob" "hunter2"); reflexivity.
  - apply (proj1 (proj2 authenticate_refusals) sha_only quiet_host (fresh None)
             bob_and_admins "bob" "guess"); [reflexivity|].
    right. right. exists "{PLAIN}hunter2". split; reflexivity.
  - apply (proj2 (proj2 authenticate_refusals) sha_only quiet_host (fresh None)
             bob_and_admins "toString" "guess"); reflexivity.
Defined.

(** ** The stored hash and the password *)

(** X10.  What [addUserToHTPasswd] stores for a password verifies that
    password.  Without [crypt3] the stored hash is the SHA-1 form and
    [verifyPassword] accepts it outright.  With [crypt3] it holds as soon
    as the hash it returns carries none of the other markers and [crypt3],
    given that hash as salt, reproduces it. *)
Theorem stored_hash_verifies :
  forall lib passwd,
    (crypt3 lib = None ->
     verifyPassword lib passwd (stored_hash lib passwd) = Ret true)
    /\ (forall crypt,
           crypt3 lib = Some crypt ->
           scheme_of (crypt passwd None) = Legacy ->
           crypt passwd (Some (crypt passwd None)) = crypt passwd None ->
           verifyPassword lib passwd (stored_hash lib passwd) = Ret true).
Proof.
  intros lib passwd. unfold stored_hash. split.
  - intros Hnone. rewrite Hnone. unfold verifyPassword.
    change (bcrypt_marker ("{SHA}" ++ Sha1.sha1_base64 passwd)) with false.
    rewrite !indexOf_prefix. cbv iota.
    change (String.prefix "{PLAIN}" ("{SHA}" ++ Sha1.sha1_base64 passwd))
      with false.
    cbv iota.
    rewrite prefix_app. cbv iota.
    pose proof (substr_app "{SHA}" (Sha1.sha1_base64 passwd)) as Hrest.
    change (String.length "{SHA}") with 5%nat in Hrest.
    rewrite Hrest. now rewrite String.eqb_refl.
  - intros crypt Hsome Hlegacy Hsalt. rewrite Hsome.
    unfold verifyPassword, call_crypt3. rewrite Hsome.
    unfold scheme_of in Hlegacy.
    rewrite bcrypt_marker_prefix, !indexOf_prefix.
    destruct (String.prefix "$2a$" _ || String.prefix "$2b$" _
              || String.prefix "$2y$" _); [discriminate|].
    destruct (String.prefix "{PLAIN}" _); [discriminate|].
    destruct (String.prefix "{SHA}" _); [discriminate|].
    destruct (md5 lib passwd (crypt passwd None) =? crypt passwd None);
      [reflexivity|].
    simpl. now rewrite Hsalt, String.eqb_refl.
Qed.

Lemma stored_hash_verifies_run :
  verifyPassword sha_only "pw" (stored_hash sha_only "pw") = Ret true
  /\ verifyPassword tagging_lib "pw" (stored_hash tagging_lib "pw") = Ret true.
Proof.
  split.
  - apply (proj1 (stored_hash_verifies sha_only "pw")). reflexivity.
  - apply (proj2 (stored_hash_verifies tagging_lib "pw")
             (fun key _ => "$1$" ++ key)); reflexivity.
Defined.

(** ** Registering, then logging in *)

Lemma contents_store_other fs name body other :
  contents fs other <> None -> contents (store fs name body) other <> None.
Proof.
  induction fs as [|[n c] fs IH]; simpl; [congruence|].
  destruct (n =? name) eqn:En; simpl.
  - destruct (n =? other); [discriminate | auto].
  - destruct (n =? other); [discriminate | auto].
Qed.

Lemma reload_lastTime H self w :
  lastTime (fst (fst (reload H self w))) = lastTime self
  \/ lastTime (fst (fst (reload H self w))) = mtime H (path self).
Proof.
  unfold reload, stat, readFile.
  destruct (stat_error H (path self)); [now left|].
  simpl. destruct (contents (files w) (path self)); [|now left].
  destruct (strict_eq (lastTime self) (mtime H (path self))); [now left|].
  simpl. destruct (read_error H (path self)); [now right|].
  destruct (contents (files w) (path self)); now right.
Qed.

Lemma adduser_lastTime lib H self w user password :
  lastTime (fst (fst (adduser lib H self w user password))) = lastTime self
  \/ lastTime (fst (fst (adduser lib H self w user password)))
     = mtime H (path self).
Proof.
  unfold adduser.
  destruct (sanityCheck _ _ _ (users self) _) as [[sanity|]|e];
    [now left| |now left].
  destruct (lockAndRead H (path self) w) as [w0 r].
  destruct (match r with inl err => code_is_not_ENOENT err | inr _ => false end);
    [now left|].
  cbv zeta.
  destruct (sanityCheck _ _ _ _ _) as [[sanity|]|e]; [now left| |now left].
  destruct (addUserToHTPasswd _ _ _ _ _) as [body'|err]; [|now left].
  destruct (writeFile H _ _ _) as [w2 [err|]]; [now left|].
  match goal with
  | |- context [reload H ?s ?w'] =>
      pose proof (reload_lastTime H s w') as Hlast;
      destruct (reload H s w') as [[self2 w3] err2]
  end.
  exact Hlast.
Qed.

(** X11.  A user who has just been registered can log in.  After an
    [adduser] that reported success, [authenticate] with the same name and
    password answers with the user's groups, headed by the user's own
    name.  This rests on: the stored hash is not empty, holds no colon and
    no line feed, and verifies the password; the later [fs.stat] and
    [fs.readFile] of both files answer; the group file exists; and the
    later [fs.stat] hands out a [Date] object of its own, as [fs.stat]
    does. *)
Theorem registered_user_can_log_in :
  forall lib H H' self w user password self1 w1,
    adduser lib H self w user password = (self1, w1, Returned) ->
    last_report (log w1) = Some (None, true) ->
    stored_hash lib password <> "" ->
    has_char ":" (stored_hash lib password) = false ->
    has_char LF (stored_hash lib password) = false ->
    verifyPassword lib password (stored_hash lib password) = Ret true ->
    answers H' (path self) -> answers H' (groupPath self) ->
    contents (files w) (groupPath self) <> None ->
    strict_eq (lastTime self) (mtime H' (path self)) = false ->
    strict_eq (mtime H (path self)) (mtime H' (path self)) = false ->
    exists rest,
      snd (authenticate lib H' self1 w1 user password)
      = Ret (AuthGroups (user :: rest)).
Proof.
  intros lib H H' self w user password self1 w1 Hadd Hok Hne Hc Hl Hverify
         [Hstat Hread] [Hgstat Hgread] Hgfile Hfresh1 Hfresh2.
  destruct (adduser_success _ _ _ _ _ _ _ _ Hadd Hok)
    as [r [body' [Hbody [Hfiles [Hpath [_ Hplain]]]]]].
  pose proof (addUserToHTPasswd_binds _ _ _ _ _ _ Hplain Hc Hl Hbody) as Hbound.
  assert (Hgp : groupPath self1 = groupPath self).
  { clear Hok Hfiles Hpath. unfold adduser in Hadd.
    destruct (sanityCheck _ _ _ (users self) _) as [[sanity|]|e];
      [now injection Hadd as <- _ | |discriminate].
    destruct (lockAndRead H (path self) w) as [w0 r0].
    destruct (match r0 with inl err => code_is_not_ENOENT err | inr _ => false end);
      [now injection Hadd as <- _|].
    cbv zeta in Hadd.
    destruct (sanityCheck _ _ _ _ _) as [[sanity|]|e];
      [now injection Hadd as <- _| |discriminate].
    destruct (addUserToHTPasswd _ _ _ _ _) as [b|err];
      [|now injection Hadd as <- _].
    destruct (writeFile H _ _ _) as [w2 [err|]]; [now injection Hadd as <- _|].
    match type of Hadd with
    | context [reload H ?s ?w'] =>
        pose proof (reload_keeps_fields H s w') as [Hk _];
        destruct (reload H s w') as [[self2 w3] err2]
    end.
    injection Hadd as <- _. exact Hk. }
  assert (Hlast : strict_eq (lastTime self1) (mtime H' (path self)) = false).
  { pose proof (adduser_lastTime lib H self w user password) as Hlt.
    rewrite Hadd in Hlt. simpl in Hlt. destruct Hlt as [-> | ->]; assumption. }
  assert (Hfile : contents (files w1) (path self) = Some body').
  { rewrite Hfiles. apply contents_store. }
  assert (Hgroup : contents (files w1) (groupPath self) <> None).
  { rewrite Hfiles. now apply contents_store_other. }
  unfold authenticate, reload, stat, readFile.
  rewrite Hpath, Hstat. simpl. rewrite Hfile, Hlast. simpl.
  rewrite ?Hpath, Hread, Hfile. simpl.
  unfold obj_read.
  rewrite (obj_get_assign _ _ _ (wf_parseHTPasswd body')), Hbound.
  apply truthy_nonempty in Hne. simpl. rewrite Hne, Hverify. simpl.
  unfold reloadGroups, stat, readFile. simpl.
  rewrite ?Hgp, Hgstat. simpl.
  destruct (contents (files w1) (groupPath self)) as [gbody|] eqn:Hgb;
    [|congruence].
  destruct (strict_eq (lastTimeGroup self1) (mtime H' (groupPath self))); simpl.
  - unfold getGroupsForUser. rewrite getGroupsForUser_loop. simpl. eauto.
  - rewrite ?Hgp, Hgread. simpl. rewrite Hgb. simpl.
    unfold getGroupsForUser. rewrite getGroupsForUser_loop. simpl. eauto.
Qed.

Lemma registered_user_can_log_in_run :
  exists rest,
    snd (authenticate sha_only next_stat_host
           (fst (fst (adduser sha_only quiet_host (fresh None) bob_and_admins
                        "alice" "pw")))
           (snd (fst (adduser sha_only quiet_host (fresh None) bob_and_admins
                        "alice" "pw")))
           "alice" "pw")
    = Ret (AuthGroups ("alice" :: rest)).
Proof.
  apply (registered_user_can_log_in sha_only quiet_host next_stat_host
           (fresh None) bob_and_admins "alice" "pw");
    try (vm_compute; reflexivity); try discriminate;
    split; reflexivity.
Defined.

(** ** addUserToHTGroup *)

Lemma includes_snoc arr x : includes (arr ++ [x])%list x = true.
Proof. apply includes_In, in_or_app. right. now left. Qed.

(** The loop, when every group asked for is there. *)
Lemma addUserToHTGroup_loop_spec groups :
  forall g user modified,
    (forall name, In name groups -> has_key g name = true) ->
    exists g',
      addUserToHTGroup_loop g user groups modified
      = (g', Ret (modified
                  || existsb (fun name => negb (lists_user g user name)) groups))
      /\ Object_keys g' = Object_keys g
      /\ forall name,
          obj_get g' name = option_map (joined groups user name) (obj_get g name).
Proof.
  induction groups as [|n groups IH]; intros g user modified Hkeys.
  - exists g. simpl. rewrite orb_false_r. split; [reflexivity|].
    split; [reflexivity|]. intros name. unfold joined. simpl.
    now destruct (obj_get g name).
  - simpl. unfold lists_user at 1.
    destruct (obj_get g n) as [members|] eqn:Hn.
    2:{ apply obj_get_None in Hn. rewrite Hkeys in Hn by now left.
        discriminate. }
    destruct (includes members user) eqn:Hinc; simpl.
    + destruct (IH g user modified) as [g' [Hrun [Hk Hget]]].
      { intros name Hin. apply Hkeys. now right. }
      exists g'. split; [exact Hrun|]. split; [exact Hk|].
      intros name. rewrite Hget. unfold joined. simpl.
      destruct (String.eqb_spec name n) as [->|Hne]; [|reflexivity].
      rewrite Hn. simpl. rewrite Hinc. simpl. now rewrite andb_false_r.
    + destruct (IH (obj_set g n (members ++ [user])%list) user true)
        as [g' [Hrun [Hk Hget]]].
      { intros name Hin. apply has_key_set_keeps, Hkeys. now right. }
      exists g'. split; [|split].
      * rewrite Hrun. simpl. now rewrite orb_true_r.
      * rewrite Hk. unfold obj_set. rewrite Hkeys by now left.
        apply keys_replace_value.
      * intros name. rewrite Hget, obj_get_set_own by (apply Hkeys; now left).
        unfold joined. simpl.
        destruct (String.eqb_spec n name) as [->|Hne].
        -- rewrite Hn. simpl. rewrite String.eqb_refl, Hinc, includes_snoc.
           simpl. now rewrite andb_false_r.
        -- destruct (String.eqb_spec name n) as [->|_]; [congruence|].
           reflexivity.
Qed.

(** The loop changes nothing when the user is in every group asked for. *)
Lemma addUserToHTGroup_loop_member groups :
  forall g user modified,
    (forall name, In name groups -> lists_user g user name = true) ->
    addUserToHTGroup_loop g user groups modified = (g, Ret modified).
Proof.
  induction groups as [|n groups IH]; intros g user modified Hall; simpl;
    [reflexivity|].
  pose proof (Hall n (or_introl eq_refl)) as Hn. unfold lists_user in Hn.
  destruct (obj_get g n) as [members|]; [|discriminate].
  rewrite Hn. simpl. apply IH. intros name Hin. apply Hall. now right.
Qed.

(** A loop that returns found every group it was asked for. *)
Lemma addUserToHTGroup_loop_returns groups :
  forall g user modified g' b,
    addUserToHTGroup_loop g user groups modified = (g', Ret b) ->
    forall name, In name groups -> has_key g name = true.
Proof.
  intros g user modified g' b Hrun name Hin.
  destruct (has_key g name) eqn:Hk; [reflexivity|].
  apply obj_get_None in Hk.
  destruct (addUserToHTGroup_loop_missing groups g user name modified Hin Hk)
    as [e Hthrow].
  rewrite Hrun in Hthrow. discriminate.
Qed.

(** X12.  What [addUserToHTGroup] does when the name is URI-safe and every
    group asked for is in the map.  It returns; the groups and their order
    stay; in each group asked for that lacks the user, the user is added at
    the end, once, however often the group is named; every other member
    array is as before; and the flag tells whether some group asked for
    lacked the user. *)
Theorem addUserToHTGroup_adds_the_user_once :
  forall g user groups,
    user = encodeURIComponent user ->
    (forall name, In name groups -> has_key g name = true) ->
    exists g',
      addUserToHTGroup g user groups
      = (g', Ret (existsb (fun name => negb (lists_user g user name)) groups))
      /\ Object_keys g' = Object_keys g
      /\ forall name,
          obj_get g' name = option_map (joined groups user name) (obj_get g name).
Proof.
  intros g user groups Hsafe Hkeys. unfold addUserToHTGroup.
  rewrite <- Hsafe, String.eqb_refl. simpl.
  destruct (addUserToHTGroup_loop_spec groups g user false Hkeys)
    as [g' [Hrun Hrest]].
  exists g'. split; [exact Hrun | exact Hrest].
Qed.

Lemma addUserToHTGroup_adds_the_user_once_run :
  exists g',
    addUserToHTGroup [("admins", ["bob"]); ("staff", ["carol"])] "carol"
      ["admins"; "staff"; "admins"]
    = (g', Ret (existsb
                  (fun name =>
                     negb (lists_user [("admins", ["bob"]); ("staff", ["carol"])]
                             "carol" name))
                  ["admins"; "staff"; "admins"]))
    /\ Object_keys g' = Object_keys [("admins", ["bob"]); ("staff", ["carol"])]
    /\ forall name,
        obj_get g' name
        = option_map (joined ["admins"; "staff"; "admins"] "carol" name)
            (obj_get [("admins", ["bob"]); ("staff", ["carol"])] name).
Proof.
  apply (addUserToHTGroup_adds_the_user_once
           [("admins", ["bob"]); ("staff", ["carol"])] "carol"
           ["admins"; "staff"; "admins"]).
  - reflexivity.
  - intros name [<- | [<- | [<- | []]]]; reflexivity.
Defined.

(** X13.  [addUserToHTGroup] is idempotent.  If a call returns, the same
    call on the map it left returns [false] and leaves that map as it is;
    and a call that returns [false] has changed nothing. *)
Theorem addUserToHTGroup_twice :
  forall g user groups g' modified,
    addUserToHTGroup g user groups = (g', Ret modified) ->
    addUserToHTGroup g' user groups = (g', Ret false)
    /\ (modified = false -> g' = g).
Proof.
  intros g user groups g' modified Hrun. unfold addUserToHTGroup in *.
  destruct (negb (user =? encodeURIComponent user)); [discriminate|].
  pose proof (addUserToHTGroup_loop_returns _ _ _ _ _ _ Hrun) as Hkeys.
  destruct (addUserToHTGroup_loop_spec groups g user false Hkeys)
    as [g1 [Hspec [_ Hget]]].
  rewrite Hspec in Hrun. injection Hrun as <- <-. split.
  - apply addUserToHTGroup_loop_member. intros name Hin.
    unfold lists_user. rewrite Hget.
    destruct (obj_get g name) as [members|] eqn:Hn.
    2:{ apply obj_get_None in Hn. rewrite Hkeys in Hn by exact Hin.
        discriminate. }
    simpl. unfold joined.
    assert (Hreq : requested groups name = true).
    { unfold requested. apply existsb_exists. exists name.
      split; [exact Hin | apply String.eqb_refl]. }
    rewrite Hreq. simpl.
    destruct (includes members user) eqn:Hinc; simpl;
      [exact Hinc | apply includes_snoc].
  - simpl. intros Hnone.
    assert (Hall : forall name, In name groups -> lists_user g user name = true).
    { intros name Hin.
      destruct (lists_user g user name) eqn:Hl; [reflexivity|].
      assert (Hex : existsb (fun name => negb (lists_user g user name)) groups
                    = true).
      { apply existsb_exists. exists name. now rewrite Hl. }
      congruence. }
    pose proof (addUserToHTGroup_loop_member groups g user false Hall) as Hsame.
    congruence.
Qed.

Lemma addUserToHTGroup_twice_run :
  addUserToHTGroup [("admins", ["bob"; "carol"])] "carol" ["admins"]
  = ([("admins", ["bob"; "carol"])], Ret false)
  /\ (true = false -> [("admins", ["bob"; "carol"])] = [("admins", ["bob"])]).
Proof.
  apply (addUserToHTGroup_twice [("admins", ["bob"])] "carol" ["admins"]).
  reflexivity.
Defined.

(** ** sanityCheckGroups *)

Lemma join_split_on sep s : join (String sep "") (split_on sep s) = s.
Proof.
  induction s as [|c s IH]; [reflexivity|].
  simpl split_on. destruct (Ascii.eqb_spec c sep) as [->|Hne].
  - destruct (split_on sep s) as [|piece rest] eqn:E.
    + now apply split_on_not_nil in E.
    + change (join (String sep "") ("" :: piece :: rest))
        with (String sep (join (String sep "") (piece :: rest))).
      now rewrite IH.
  - destruct (split_on sep s) as [|piece rest] eqn:E.
    + now apply split_on_not_nil in E.
    + rewrite <- IH. destruct rest; reflexivity.
Qed.

Lemma split_on_join sep names :
  names <> [] ->
  Forall (fun name => has_char sep name = false) names ->
  split_on sep (join (String sep "") names) = names.
Proof.
  induction names as [|x names IH]; [congruence|].
  intros _ Hall. inversion Hall as [|? ? Hx Hrest]; subst.
  destruct names as [|y names].
  - simpl. now apply split_on_absent.
  - change (join (String sep "") (x :: y :: names))
      with (x ++ String sep (join (String sep "") (y :: names))).
    rewrite (split_on_first sep x _ Hx), IH; [reflexivity|discriminate|exact Hrest].
Qed.

Lemma split_on_pieces sep s :
  Forall (fun piece => has_char sep piece = false) (split_on sep s).
Proof.
  induction s as [|c s IH]; simpl; [repeat constructor|].
  destruct (Ascii.eqb c sep) eqn:E.
  - constructor; [reflexivity | exact IH].
  - destruct (split_on sep s) as [|piece rest]; [repeat constructor; simpl; now rewrite E|].
    inversion IH as [|? ? Hp Hr]; subst.
    constructor; [simpl; now rewrite E, Hp | exact Hr].
Qed.

Lemma strings_only items :
  forall acc,
    fold_left
      (fun groupsArr group =>
         match group with
         | IString s => (groupsArr ++ [s])%list
         | IOther => groupsArr
         end) items acc
    = (acc ++ flat_map (fun group => match group with
                                      | IString s => [s]
                                      | IOther => []
                                      end) items)%list.
Proof.
  induction items as [|i items IH]; intros acc; simpl.
  - now rewrite app_nil_r.
  - rewrite IH. destruct i; simpl; [now rewrite <- app_assoc | reflexivity].
Qed.

(** X14.  The two ways of naming groups agree.  A non-empty string is
    taken as the names between its single spaces, so joining what
    [sanityCheckGroups] returns with spaces gives the string back, and no
    name returned holds a space.  A list of names without spaces, given as
    an array or joined into a non-empty string, gives the same names. *)
Theorem sanityCheckGroups_string_is_array :
  (forall s,
      s <> "" ->
      join " " (sanityCheckGroups (GString s)) = s
      /\ Forall (fun name => has_char " " name = false)
           (sanityCheckGroups (GString s)))
  /\ (forall names,
         Forall (fun name => has_char " " name = false) names ->
         sanityCheckGroups (GArray (map IString names)) = names
         /\ (join " " names <> "" ->
             sanityCheckGroups (GString (join " " names)) = names)).
Proof.
  split.
  - intros s Hs. apply truthy_nonempty in Hs.
    unfold sanityCheckGroups, split. rewrite Hs.
    split; [apply join_split_on | apply split_on_pieces].
  - intros names Hall. split.
    + unfold sanityCheckGroups. rewrite strings_only. simpl.
      clear Hall. induction names as [|x names IH]; simpl; [reflexivity|].
      now rewrite IH.
    + intros Hne. unfold sanityCheckGroups, split.
      apply truthy_nonempty in Hne. rewrite Hne.
      apply split_on_join; [|exact Hall].
      intros ->. discriminate.
Qed.

(** X15.  When [addusergroups] has nothing to do.  [sanityCheckGroups]
    returns no name exactly for a missing value, a value that is neither
    string nor array, the empty string, and an array holding no string.
    [addusergroups] then returns at once: no lock, no read, no write, and
    the caller's callback is never called. *)
Theorem addusergroups_without_groups_is_silent :
  forall H self w user groups,
    (sanityCheckGroups groups = []
     <-> groups = GAbsent \/ groups = GOther \/ groups = GString ""
         \/ exists items,
             groups = GArray items /\ Forall (fun item => item = IOther) items)
    /\ (sanityCheckGroups groups = [] ->
        addusergroups H self w user groups = (self, w, Returned)).
Proof.
  intros H self w user groups. split.
  - split.
    + destruct groups as [|s|items|]; [auto| | |auto].
      * destruct s as [|c s]; [auto|].
        change (sanityCheckGroups (GString (String c s)))
          with (split_on " " (String c s)).
        intros Hnil. now apply split_on_not_nil in Hnil.
      * simpl. rewrite strings_only. simpl. intros Hnil. right. right. right.
        exists items. split; [reflexivity|].
        induction items as [|[s|] items IH]; simpl in *;
          [constructor | discriminate | constructor; auto].
    + intros [-> | [-> | [-> | [items [-> Hall]]]]]; try reflexivity.
      simpl. rewrite strings_only. simpl.
      induction Hall as [|i items -> _ IH]; simpl; auto.
  - intros Hnil. unfold addusergroups. now rewrite Hnil.
Qed.

(** ** addusergroups *)

Lemma cb_log H name locked w err :
  log (cb H name locked w err)
  = (log w ++ (if locked then [UnlockFile name] else [])
       ++ [RealCb err (is_null err)])%list.
Proof.
  rewrite cb_world. destruct locked; simpl; [|reflexivity].
  now rewrite <- app_assoc.
Qed.

Lemma looks_are_quiet name mid :
  Forall (fun e => e = Stat name \/ e = ReadFile name) mid ->
  filter is_report mid = [] /\ filter is_unlock mid = []
  /\ filter is_write mid = [].
Proof.
  induction 1 as [|e l [-> | ->] _ [IH1 [IH2 IH3]]]; simpl; auto.
Qed.

(** X16.  [addusergroups] tells the caller once, and last.  Given at least
    one group name, every run returns (no exception escapes, whatever the
    name or the groups are), the callback is called exactly once and is
    the last effect, always as [realCb(err, !err)], and the file is
    unlocked exactly when the locked read reported no error.  A lock that
    was taken before the read failed is therefore never released: the
    error is reported and nothing else happens. *)
Theorem addusergroups_reports_once :
  (forall H self w user groups self' w' c,
      sanityCheckGroups groups <> [] ->
      addusergroups H self w user groups = (self', w', c) ->
      c = Returned
      /\ (exists err,
             last_report (log w') = Some (err, is_null err)
             /\ filter is_report (log w')
                = (filter is_report (log w) ++ [RealCb err (is_null err)])%list)
      /\ filter is_unlock (log w')
         = (filter is_unlock (log w)
              ++ (if locked_by (snd (lockAndRead H (groupPath self) w))
                  then [UnlockFile (groupPath self)] else []))%list)
  /\ (forall H self w user groups e,
         sanityCheckGroups groups <> [] ->
         lock_error H (groupPath self) = Some e ->
         lock_held_on_error H (groupPath self) = true ->
         code_is_not_ENOENT e = true ->
         addusergroups H self w user groups
         = (self,
            {| files := files w;
               log := log w ++ [LockAndRead (groupPath self) true;
                                RealCb (Some e) false] |},
            Returned)).
Proof.
  split.
  - intros H self w user groups self' w' c Hne Hrun.
    unfold addusergroups in Hrun.
    destruct (sanityCheckGroups groups) as [|name names] eqn:Hnames;
      [congruence|].
    change (length (name :: names) =? 0)%nat with false in Hrun.
    cbv iota in Hrun.
    pose proof (lockAndRead_world H (groupPath self) w) as Hw1.
    destruct (lockAndRead H (groupPath self) w) as [w1 r].
    simpl fst in Hw1. simpl snd in *. fold (locked_by r) in Hrun.
    assert (Hlog1 : log w1
                    = (log w ++ [LockAndRead (groupPath self)
                                   (lock_held H (groupPath self) w)])%list)
      by now subst w1.
    clear Hw1.
    assert (Hend : forall w0 mid err,
               log w0 = (log w1 ++ mid)%list ->
               filter is_report mid = [] -> filter is_unlock mid = [] ->
               cb H (groupPath self) (locked_by r) w0 err = w' ->
               (exists err,
                   last_report (log w') = Some (err, is_null err)
                   /\ filter is_report (log w')
                      = (filter is_report (log w)
                           ++ [RealCb err (is_null err)])%list)
               /\ filter is_unlock (log w')
                  = (filter is_unlock (log w)
                       ++ (if locked_by r then [UnlockFile (groupPath self)]
                           else []))%list).
    { intros w0 mid err Hlog Hrep Hunl <-. rewrite cb_log, Hlog, Hlog1. split.
      - exists err. split.
        + rewrite !app_assoc. apply last_report_snoc.
        + rewrite !filter_app, Hrep. simpl.
          destruct (locked_by r); simpl; now rewrite !app_nil_r.
      - rewrite !filter_app, Hunl. simpl.
        destruct (locked_by r); simpl; now rewrite !app_nil_r. }
    destruct (match r with inl err => code_is_not_ENOENT err | inr _ => false end).
    { injection Hrun as _ Hw <-. split; [reflexivity|].
      refine (Hend w1 [] _ _ _ _ Hw); auto using app_nil_r. }
    cbv zeta in Hrun.
    destruct (addUserToHTGroup _ user (name :: names)) as [g [[|]|err]];
      simpl in Hrun.
    + unfold writeFile in Hrun.
      destruct (write_error H (groupPath self)) as [err|].
      * injection Hrun as _ Hw <-. split; [reflexivity|].
        refine (Hend _ [WriteFile (groupPath self) (serializeHTgroups g) false]
                  _ _ _ _ Hw); auto.
      * match type of Hrun with
        | context [reloadGroups H ?s ?w0] =>
            pose proof (reloadGroups_log H s w0) as [mid [Hmid Hall]];
            pose proof (reloadGroups_frame H s w0) as [_ [_ [Hgp _]]];
            destruct (reloadGroups H s w0) as [[self2 w2] err2]
        end.
        simpl in Hmid, Hall, Hgp. rewrite Hgp in Hrun.
        injection Hrun as _ Hw <-. split; [reflexivity|].
        destruct (looks_are_quiet _ _ Hall) as [Hq1 [Hq2 _]].
        refine (Hend w2 (WriteFile (groupPath self) (serializeHTgroups g) true
                           :: mid) _ _ _ _ Hw); simpl; auto.
        rewrite Hmid. now rewrite <- app_assoc.
    + injection Hrun as _ Hw <-. split; [reflexivity|].
      refine (Hend w1 [] _ _ _ _ Hw); auto using app_nil_r.
    + injection Hrun as _ Hw <-. split; [reflexivity|].
      refine (Hend w1 [] _ _ _ _ Hw); auto using app_nil_r.
  - intros H self w user groups e Hne He Hheld Hfatal.
    unfold addusergroups.
    destruct (sanityCheckGroups groups) as [|name names]; [congruence|].
    change (length (name :: names) =? 0)%nat with false. cbv iota.
    unfold lockAndRead. rewrite He, Hheld. simpl. rewrite Hfatal.
    unfold cb, emit. simpl. now rewrite <- app_assoc.
Qed.

Lemma addusergroups_reports_once_run :
  (Returned = Returned
   /\ (exists err,
          last_report
            (log (snd (fst (addusergroups quiet_host (fresh None) bob_and_admins
                              "alice" (GString "admins")))))
          = Some (err, is_null err)
          /\ filter is_report
               (log (snd (fst (addusergroups quiet_host (fresh None)
                                 bob_and_admins "alice" (GString "admins")))))
             = (filter is_report (log bob_and_admins)
                  ++ [RealCb err (is_null err)])%list)
   /\ filter is_unlock
        (log (snd (fst (addusergroups quiet_host (fresh None) bob_and_admins
                          "alice" (GString "admins")))))
      = (filter is_unlock (log bob_and_admins)
           ++ (if locked_by (snd (lockAndRead quiet_host (groupPath (fresh None))
                                    bob_and_admins))
               then [UnlockFile (groupPath (fresh None))] else []))%list)
  /\ addusergroups failed_read_host (fresh None) bob_and_admins "alice"
       (GString "admins")
     = (fresh None,
        {| files := files bob_and_admins;
           log := log bob_and_admins
                    ++ [LockAndRead (groupPath (fresh None)) true;
                        RealCb (Some (SysError "EIO")) false] |},
        Returned).
Proof.
  split.
  - apply (proj1 addusergroups_reports_once quiet_host (fresh None)
             bob_and_admins "alice" (GString "admins")
             (fst (fst (addusergroups quiet_host (fresh None) bob_and_admins
                          "alice" (GString "admins")))));
      [discriminate | reflexivity].
  - apply (proj2 addusergroups_reports_once failed_read_host (fresh None)
             bob_and_admins "alice" (GString "admins") (SysError "EIO"));
      [discriminate | reflexivity | reflexivity | reflexivity].
Defined.

(** X17.  [addusergroups] writes only when something changed.  The name is
    URI-safe, the locked read succeeds or finds no file, every group asked
    for is in what was read, and writing works: then the call reports
    [(null, true)].  If the user was in all those groups already the file
    is not written; otherwise it is written once, with the serialization
    of the groups after [addUserToHTGroup]. *)
Theorem addusergroups_writes_on_change :
  forall H self w user groups w1 r self' w' c,
    sanityCheckGroups groups <> [] ->
    user = encodeURIComponent user ->
    lockAndRead H (groupPath self) w = (w1, r) ->
    fatal r = false ->
    (forall name,
        In name (sanityCheckGroups groups) ->
        has_key (parseHTgroup (body_of r)) name = true) ->
    write_error H (groupPath self) = None ->
    addusergroups H self w user groups = (self', w', c) ->
    last_report (log w') = Some (None, true)
    /\ ((forall name,
            In name (sanityCheckGroups groups) ->
            lists_user (parseHTgroup (body_of r)) user name = true) ->
        files w' = files w
        /\ filter is_write (log w') = filter is_write (log w)
        /\ HTPasswd.groups self' = parseHTgroup (body_of r))
    /\ ((exists name,
            In name (sanityCheckGroups groups)
            /\ lists_user (parseHTgroup (body_of r)) user name = false) ->
        exists g',
          fst (addUserToHTGroup (parseHTgroup (body_of r)) user
                 (sanityCheckGroups groups)) = g'
          /\ files w' = store (files w) (groupPath self) (serializeHTgroups g')
          /\ filter is_write (log w')
             = (filter is_write (log w)
                  ++ [WriteFile (groupPath self) (serializeHTgroups g') true])%list).
Proof.
  intros H self w user groups w1 r self' w' c Hne Hsafe Hlr Hfatal Hkeys Hwrite
         Hrun.
  pose proof (lockAndRead_world H (groupPath self) w) as Hw1.
  rewrite Hlr in Hw1. simpl in Hw1.
  unfold addusergroups in Hrun.
  destruct (sanityCheckGroups groups) as [|n ns] eqn:Hnames; [congruence|].
  change (length (n :: ns) =? 0)%nat with false in Hrun. cbv iota in Hrun.
  rewrite Hlr in Hrun. fold (fatal r) in Hrun. fold (body_of r) in Hrun.
  rewrite Hfatal in Hrun. cbv zeta in Hrun.
  destruct (addUserToHTGroup_loop_spec (n :: ns) (parseHTgroup (body_of r))
              user false Hkeys) as [g' [Hspec _]].
  unfold addUserToHTGroup in *.
  rewrite <- Hsafe, String.eqb_refl in *. simpl negb in *. cbv iota in *.
  rewrite orb_false_l in Hspec. rewrite Hspec in *. simpl fst.
  destruct (existsb (fun name => negb (lists_user (parseHTgroup (body_of r))
                                         user name)) (n :: ns)) eqn:Hmissing.
  - unfold writeFile in Hrun. simpl in Hrun. rewrite Hwrite in Hrun.
    match type of Hrun with
    | context [reloadGroups H ?s ?w0] =>
        pose proof (reloadGroups_log H s w0) as [mid [Hmid Hall]];
        pose proof (reloadGroups_frame H s w0) as [Hf [_ [Hgp _]]];
        destruct (reloadGroups H s w0) as [[self2 w2] err2]
    end.
    simpl in Hmid, Hall, Hgp, Hf. rewrite Hgp in Hrun.
    injection Hrun as _ Hw _. subst w'.
    destruct (looks_are_quiet _ _ Hall) as [_ [_ Hq]].
    rewrite cb_log, cb_world. split.
    { rewrite !app_assoc. apply last_report_snoc. }
    split.
    { intros Hall'. exfalso.
      apply existsb_exists in Hmissing as [name [Hin Hl]].
      rewrite (Hall' name Hin) in Hl. discriminate. }
    intros _. exists g'. split; [reflexivity|]. split.
    + subst w1. destruct r; simpl; rewrite Hf; reflexivity.
    + rewrite Hmid. subst w1. simpl.
      rewrite !filter_app, Hq. simpl.
      destruct r; simpl; now rewrite !app_nil_r.
  - simpl in Hrun. injection Hrun as Hs Hw _. subst w' self'.
    rewrite cb_log, cb_world. split.
    { rewrite !app_assoc. apply last_report_snoc. }
    split.
    + intros Hall'. subst w1. split; [now destruct r|]. split.
      * simpl. rewrite !filter_app. simpl.
        destruct r; simpl; now rewrite !app_nil_r.
      * simpl.
        pose proof (addUserToHTGroup_loop_member (n :: ns) _ user false Hall')
          as Hsame.
        congruence.
    + intros [name [Hin Hl]]. exfalso.
      assert (Hex : existsb (fun name => negb (lists_user (parseHTgroup (body_of r))
                                                 user name)) (n :: ns) = true).
      { apply existsb_exists. exists name. now rewrite Hl. }
      congruence.
Qed.

Lemma addusergroups_writes_on_change_run :
  last_report
    (log (snd (fst (addusergroups quiet_host (fresh None) bob_and_admins
                      "alice" (GString "admins")))))
  = Some (None, true)
  /\ ((forall name,
          In name (sanityCheckGroups (GString "admins")) ->
          lists_user (parseHTgroup (body_of (inr "admins: bob carol")))
            "alice" name = true) ->
      files (snd (fst (addusergroups quiet_host (fresh None) bob_and_admins
                         "alice" (GString "admins"))))
      = files bob_and_admins
      /\ filter is_write
           (log (snd (fst (addusergroups quiet_host (fresh None) bob_and_admins
                             "alice" (GString "admins")))))
         = filter is_write (log bob_and_admins)
      /\ HTPasswd.groups
           (fst (fst (addusergroups quiet_host (fresh None) bob_and_admins
                        "alice" (GString "admins"))))
         = parseHTgroup (body_of (inr "admins: bob carol")))
  /\ ((exists name,
          In name (sanityCheckGroups (GString "admins"))
          /\ lists_user (parseHTgroup (body_of (inr "admins: bob carol")))
               "alice" name = false) ->
      exists g',
        fst (addUserToHTGroup (parseHTgroup (body_of (inr "admins: bob carol")))
               "alice" (sanityCheckGroups (GString "admins"))) = g'
        /\ files (snd (fst (addusergroups quiet_host (fresh None) bob_and_admins
                              "alice" (GString "admins"))))
           = store (files bob_and_admins) (groupPath (fresh None))
               (serializeHTgroups g')
        /\ filter is_write
             (log (snd (fst (addusergroups quiet_host (fresh None)
                               bob_and_admins "alice" (GString "admins")))))
           = (filter is_write (log bob_and_admins)
                ++ [WriteFile (groupPath (fresh None)) (serializeHTgroups g')
                      true])%list).
Proof.
  apply (addusergroups_writes_on_change quiet_host (fresh None) bob_and_admins
           "alice" (GString "admins")
           (emit (LockAndRead "htgroup" true) bob_and_admins)
           (inr "admins: bob carol")
           (fst (fst (addusergroups quiet_host (fresh None) bob_and_admins
                        "alice" (GString "admins"))))
           (snd (fst (addusergroups quiet_host (fresh None) bob_and_admins
                        "alice" (GString "admins"))))
           Returned).
  - discriminate.
  - reflexivity.
  - reflexivity.
  - reflexivity.
  - intros name [<- | []]. reflexivity.
  - reflexivity.
  - reflexivity.
Defined.

(** ** The group file, written and read back *)

Lemma has_char_join c sep members :
  has_char c sep = false ->
  Forall (fun member => has_char c member = false) members ->
  has_char c (join sep members) = false.
Proof.
  intros Hsep. induction 1 as [|m members Hm Hall IH]; [reflexivity|].
  destruct members as [|m' members]; [exact Hm|].
  change (join sep (m :: m' :: members)) with (m ++ sep ++ join sep (m' :: members)).
  now rewrite !has_char_app, Hm, Hsep, IH.
Qed.








(** Two groups come back as one, and a group whose name starts with
    [__proto__:] comes back as none. *)
Example serialized_groups_read_back :
  parseHTgroup
    (serializeHTgroups [("admins", ["bob"]); ("staff", ["carol"; "dave"])])
  = [("admins", [""; "bobstaff"])]
  /\ parseHTgroup (serializeHTgroups [("__proto__:x", ["bob"])]) = [].
Proof. split; reflexivity. Qed.

(** X19.  One group, written and read back, comes back with an empty
    member in front.  For a name without colon or line feed and a
    non-empty list of members without space, colon or line feed, the
    group reads back as the empty string followed by the members; written
    again, the line has one more space after the colon.  The one name
    that does not come back is [__proto__]: its line adds no key, and
    nothing is written again. *)
Theorem one_group_comes_back_with_an_empty_member :
  forall name members,
    members <> [] ->
    entry_free_of ":" (name, members) ->
    entry_free_of LF (name, members) ->
    Forall (fun member => has_char " " member = false) members ->
    parseHTgroup (serializeHTgroups [(name, members)])
    = (if name =? "__proto__" then [] else [(name, "" :: members)])
    /\ serializeHTgroups (parseHTgroup (serializeHTgroups [(name, members)]))
       = (if name =? "__proto__" then ""
          else name ++ ":  " ++ join " " members).
Proof.
  intros name members Hne [Hnc Hmc] [Hnl Hml] Hspace. simpl in Hnc, Hmc, Hnl, Hml.
  assert (Hbody : serializeHTgroups [(name, members)]
                  = name ++ String ":" (String " " (join " " members))).
  { unfold serializeHTgroups. simpl. now rewrite String.eqb_refl. }
  assert (Hparse : parseHTgroup (serializeHTgroups [(name, members)])
                   = if name =? "__proto__" then []
                     else [(name, "" :: members)]).
  { rewrite Hbody. unfold parseHTgroup, split.
    rewrite split_on_absent.
    2:{ rewrite has_char_app, Hnl. simpl. now apply has_char_join. }
    simpl. unfold parseHTgroup_line, split.
    rewrite (split_on_first ":" name _ Hnc).
    rewrite split_on_absent.
    2:{ simpl. now apply has_char_join. }
    simpl.
    change (split_on " " (String " " (join " " members)))
      with ("" :: split_on " " (join " " members)).
    rewrite (split_on_join " " members Hne Hspace).
    unfold obj_set. cbn [has_key existsb].
    now destruct (name =? "__proto__"). }
  split; [exact Hparse|].
  rewrite Hparse. destruct (name =? "__proto__"); [reflexivity|].
  unfold serializeHTgroups. simpl.
  rewrite String.eqb_refl.
  destruct members as [|m members]; [congruence|]. reflexivity.
Qed.

Lemma one_group_comes_back_with_an_empty_member_run :
  parseHTgroup (serializeHTgroups [("admins", ["bob"; "carol"])])
  = (if "admins" =? "__proto__" then []
     else [("admins", [""; "bob"; "carol"])])
  /\ serializeHTgroups
       (parseHTgroup (serializeHTgroups [("admins", ["bob"; "carol"])]))
     = (if "admins" =? "__proto__" then ""
        else "admins" ++ ":  " ++ join " " ["bob"; "carol"]).
Proof.
  apply (one_group_comes_back_with_an_empty_member "admins" ["bob"; "carol"]).
  - discriminate.
  - split; simpl; repeat constructor.
  - split; simpl; repeat constructor.
  - repeat constructor.
Defined.

(** ** Reading the user file *)

Lemma split_on_two sep s :
  has_char sep s = true -> (2 <= length (split_on sep s))%nat.
Proof.
  induction s as [|c s IH]; simpl; [discriminate|].
  destruct (Ascii.eqb c sep); simpl.
  - intros _. pose proof (split_on_not_nil sep s).
    destruct (split_on sep s); simpl; [congruence | lia].
  - intros Hs. specialize (IH Hs).
    destruct (split_on sep s); simpl in *; lia.
Qed.

Lemma parseHTPasswd_line_colon result line :
  has_char ":" line = true ->
  parseHTPasswd_line result line
  = obj_set result (record_name line) (record_hash line).
Proof.
  intros Hc. unfold parseHTPasswd_line, record_name, record_hash, split.
  pose proof (split_on_two ":" line Hc) as Hlen.
  destruct (split_on ":" line) as [|a [|b rest]]; simpl in Hlen; try lia.
  reflexivity.
Qed.

Lemma parseHTPasswd_fold_other lines result k :
  (forall l, In l lines -> has_char ":" l = true -> record_name l <> k) ->
  obj_get (fold_left parseHTPasswd_line lines result) k = obj_get result k.
Proof.
  revert result. induction lines as [|l lines IH]; intros result Hne; simpl;
    [reflexivity|].
  rewrite IH by (intros l' Hl'; apply Hne; now right).
  destruct (has_char ":" l) eqn:Hc.
  - rewrite (parseHTPasswd_line_colon _ _ Hc).
    apply obj_get_set_other. exact (Hne l (or_introl eq_refl) Hc).
  - now rewrite (parseHTPasswd_line_no_colon _ _ Hc).
Qed.

(** X20.  Which users [parseHTPasswd] knows, and under which hash.  A line
    counts when it holds a colon: its name is what precedes the first
    colon, its hash what lies between the first and the second.  The map
    binds a name other than [__proto__] to the hash of the last line that
    carries it, and binds no name that no such line carries: reading such
    a name finds what every object inherits when it is one of those
    names, and is undefined otherwise.  A line named [__proto__] binds
    nothing, so that name is never a key of the map. *)
Theorem parseHTPasswd_last_record_wins :
  (forall input before line after,
      split input LF None = (before ++ line :: after)%list ->
      has_char ":" line = true ->
      record_name line <> "__proto__" ->
      (forall l, In l after -> has_char ":" l = true ->
                 record_name l <> record_name line) ->
      obj_read (parseHTPasswd input) (record_name line)
      = Own (record_hash line))
  /\ (forall input user,
         (forall l, In l (split input LF None) -> has_char ":" l = true ->
                    record_name l <> user) ->
         has_key (parseHTPasswd input) user = false
         /\ obj_read (parseHTPasswd input) user
            = if inherited user then Inherited else Undefined)
  /\ (forall input,
         has_key (parseHTPasswd input) "__proto__" = false
         /\ obj_read (parseHTPasswd input) "__proto__" = Inherited)
  /\ (forall name hash rest,
         has_char ":" name = false -> has_char ":" hash = false ->
         record_name (name ++ ":" ++ hash ++ ":" ++ rest) = name
         /\ record_hash (name ++ ":" ++ hash ++ ":" ++ rest) = hash).
Proof.
  split; [|split; [|split]].
  - intros input before line after Hsplit Hc Hplain Hlater.
    apply obj_read_own.
    unfold parseHTPasswd. rewrite Hsplit, fold_left_app. simpl.
    rewrite (parseHTPasswd_fold_other after _ _ Hlater).
    rewrite (parseHTPasswd_line_colon _ _ Hc), obj_get_set by exact Hplain.
    now rewrite String.eqb_refl.
  - intros input user Hnone.
    assert (Hget : obj_get (parseHTPasswd input) user = None).
    { unfold parseHTPasswd.
      now rewrite (parseHTPasswd_fold_other _ _ _ Hnone). }
    split; [now apply obj_get_None|].
    unfold obj_read. now rewrite Hget.
  - intros input. destruct (wf_parseHTPasswd input) as [_ Hp].
    split; [exact Hp|].
    unfold obj_read. apply obj_get_None in Hp. now rewrite Hp.
  - intros name hash rest Hn Hh. unfold record_name, record_hash, split.
    change (name ++ ":" ++ hash ++ ":" ++ rest)
      with (name ++ String ":" (hash ++ String ":" rest)).
    rewrite (split_on_first ":" name _ Hn), (split_on_first ":" hash _ Hh).
    split; reflexivity.
Qed.

Lemma parseHTPasswd_last_record_wins_run :
  obj_read (parseHTPasswd ("bob:first:note" ++ NL ++ "bob:second"))
    (record_name "bob:second")
  = Own (record_hash "bob:second")
  /\ (has_key (parseHTPasswd ("bob:first:note" ++ NL ++ "__proto__:x"))
        "constructor" = false
      /\ obj_read (parseHTPasswd ("bob:first:note" ++ NL ++ "__proto__:x"))
           "constructor"
         = if inherited "constructor" then Inherited else Undefined).
Proof.
  split.
  - apply (proj1 parseHTPasswd_last_record_wins
             ("bob:first:note" ++ NL ++ "bob:second") ["bob:first:note"]
             "bob:second" []).
    + reflexivity.
    + reflexivity.
    + discriminate.
    + intros l [].
  - apply (proj1 (proj2 parseHTPasswd_last_record_wins)
             ("bob:first:note" ++ NL ++ "__proto__:x") "constructor").
    intros l [<- | [<- | []]] _; discriminate.
Defined.

(** A record named [__proto__] leaves the map as it was. *)
Example parseHTPasswd_skips_proto_record :
  parseHTPasswd ("bob:first:note" ++ NL ++ "__proto__:x")
  = [("bob", "first")].
Proof. reflexivity. Qed.

(** ** Reloading twice *)

Lemma replace_value_same {V} (o : object V) k v :
  obj_get o k = Some v -> replace_value o k v = o.
Proof.
  induction o as [|[k0 v0] o IH]; simpl; [reflexivity|].
  destruct (k0 =? k) eqn:E.
  - now intros [= ->].
  - intros Hg. now rewrite IH.
Qed.

Lemma obj_set_same {V} (o : object V) k v :
  obj_get o k = Some v -> obj_set o k v = o.
Proof.
  intros Hg. unfold obj_set.
  destruct (has_key o k) eqn:Hk.
  - now apply replace_value_same.
  - apply obj_get_None in Hk. congruence.
Qed.

Lemma Object_assign_holds {V} (target source : object V) :
  (forall k v, In (k, v) source -> obj_get target k = Some v) ->
  Object_assign target source = target.
Proof.
  unfold Object_assign.
  induction source as [|[k v] source IH]; intros Hall; simpl; [reflexivity|].
  rewrite obj_set_same by (apply Hall; now left).
  apply IH. intros k' v' Hin. apply Hall. now right.
Qed.

Lemma Object_assign_again {V} (target source : object V) :
  wf source ->
  Object_assign (Object_assign target source) source
  = Object_assign target source.
Proof.
  intros Hwf. apply Object_assign_holds. intros k v Hin.
  rewrite (obj_get_assign _ _ _ Hwf). now rewrite (In_obj_get _ _ _ Hwf Hin).
Qed.

(** X21.  Reading the same file again changes nothing.  Once [reload] has
    read the user file and merged it, a further [reload] over the same
    files leaves the user map exactly as it is, whether it skips the read,
    fails, or reads and merges again; and so for [reloadGroups] and the
    group map. *)
Theorem reloading_again_changes_nothing :
  (forall H H' self w body,
      answers H (path self) ->
      contents (files w) (path self) = Some body ->
      strict_eq (lastTime self) (mtime H (path self)) = false ->
      users (fst (fst (reload H self w)))
      = Object_assign (users self) (parseHTPasswd body)
      /\ users (fst (fst (reload H' (fst (fst (reload H self w)))
                            (snd (fst (reload H self w))))))
         = users (fst (fst (reload H self w))))
  /\ (forall H H' self w body,
         answers H (groupPath self) ->
         contents (files w) (groupPath self) = Some body ->
         strict_eq (lastTimeGroup self) (mtime H (groupPath self)) = false ->
         groups (fst (fst (reloadGroups H self w)))
         = Object_assign (groups self) (parseHTgroup body)
         /\ groups (fst (fst (reloadGroups H' (fst (fst (reloadGroups H self w)))
                                (snd (fst (reloadGroups H self w))))))
            = groups (fst (fst (reloadGroups H self w)))).
Proof.
  split.
  - intros H H' self w body [Hstat Hread] Hfile Hnew.
    assert (Hfirst : reload H self w
                     = (with_users (with_lastTime self (mtime H (path self)))
                          (Object_assign (users self) (parseHTPasswd body)),
                        emit (ReadFile (path self)) (emit (Stat (path self)) w),
                        None)).
    { unfold reload, stat, readFile. rewrite Hstat. simpl.
      rewrite Hfile, Hnew. simpl. now rewrite Hread, Hfile. }
    rewrite Hfirst. simpl. split; [reflexivity|].
    unfold reload, stat, readFile. simpl.
    destruct (stat_error H' (path self)); [reflexivity|].
    rewrite Hfile.
    destruct (strict_eq (mtime H (path self)) (mtime H' (path self)));
      [reflexivity|].
    simpl. destruct (read_error H' (path self)); [reflexivity|].
    rewrite Hfile. simpl.
    apply Object_assign_again, wf_parseHTPasswd.
  - intros H H' self w body [Hstat Hread] Hfile Hnew.
    assert (Hfirst : reloadGroups H self w
                     = (with_groups
                          (with_lastTimeGroup self (mtime H (groupPath self)))
                          (Object_assign (groups self) (parseHTgroup body)),
                        emit (ReadFile (groupPath self))
                          (emit (Stat (groupPath self)) w),
                        None)).
    { unfold reloadGroups, stat, readFile. rewrite Hstat. simpl.
      rewrite Hfile, Hnew. simpl. now rewrite Hread, Hfile. }
    rewrite Hfirst. simpl. split; [reflexivity|].
    unfold reloadGroups, stat, readFile. simpl.
    destruct (stat_error H' (groupPath self)); [reflexivity|].
    rewrite Hfile.
    destruct (strict_eq (mtime H (groupPath self)) (mtime H' (groupPath self)));
      [reflexivity|].
    simpl. destruct (read_error H' (groupPath self)); [reflexivity|].
    rewrite Hfile. simpl.
    apply Object_assign_again, wf_parseHTgroup.
Qed.

Lemma reloading_again_changes_nothing_run :
  users (fst (fst (reload quiet_host (fresh None) one_user_file)))
  = Object_assign (users (fresh None))
      (parseHTPasswd ("bob:{PLAIN}hunter2:comment" ++ NL))
  /\ users (fst (fst (reload next_stat_host
                        (fst (fst (reload quiet_host (fresh None) one_user_file)))
                        (snd (fst (reload quiet_host (fresh None)
                                     one_user_file))))))
     = users (fst (fst (reload quiet_host (fresh None) one_user_file))).
Proof.
  apply (proj1 reloading_again_changes_nothing quiet_host next_stat_host
           (fresh None) one_user_file
           ("bob:{PLAIN}hunter2:comment" ++ NL));
    [split; reflexivity | reflexivity | reflexivity].
Defined.

(** ** Who passes the check, and how an instance is built *)

(** [verifyPassword] is given a string here, and a string has [match]. *)
Lemma verifyPassword_has_match lib passwd hash :
  verifyPassword lib passwd hash <> Throw no_match_method.
Proof.
  unfold verifyPassword, call_crypt3.
  destruct (bcrypt_marker hash); [discriminate|].
  destruct (indexOf hash "{PLAIN}" =? 0)%Z; [discriminate|].
  destruct (indexOf hash "{SHA}" =? 0)%Z; [discriminate|].
  destruct (md5 lib passwd hash =? hash); [discriminate|].
  destruct (crypt3 lib); simpl; discriminate.
Qed.

(** X22.  Who passes [sanityCheck].  It returns [null] exactly when name
    and password are not empty, the name reads [undefined] in the map or
    is bound to the empty hash, and the map holds fewer names than
    [maxUsers]; with all of that but the last it returns 403
    [maximum amount of users reached], and in no other case.  A name whose
    stored hash is empty counts as unknown.  A name the map does not bind
    but every object inherits, [constructor] for one, does not pass: with
    [verifyPassword] for verifier the check throws on the value it reads,
    whatever the non-empty password, and that is the only way it throws
    this error. *)
Theorem sanityCheck_lets_in :
  forall user password verifyFn usrs maxU,
    (sanityCheck user password verifyFn usrs maxU = Ret None
     <-> user <> "" /\ password <> ""
         /\ (obj_read usrs user = Undefined \/ obj_read usrs user = Own "")
         /\ length_ge (length (Object_keys usrs)) maxU = false)
    /\ (sanityCheck user password verifyFn usrs maxU = Ret (Some maximum_reached)
        <-> user <> "" /\ password <> ""
            /\ (obj_read usrs user = Undefined \/ obj_read usrs user = Own "")
            /\ length_ge (length (Object_keys usrs)) maxU = true)
    /\ (forall lib,
           sanityCheck user password (verifyPassword lib) usrs maxU
           = Throw no_match_method
           <-> user <> "" /\ password <> ""
               /\ obj_read usrs user = Inherited).
Proof.
  intros user password verifyFn usrs maxU. split; [|split].
  - split; [apply sanityCheck_null|].
    intros [Hu [Hp [Hget Hlen]]]. now apply sanityCheck_passes.
  - unfold sanityCheck. split.
    + destruct user as [|c user]; [discriminate|].
      destruct password as [|d password]; [discriminate|]. simpl negb.
      simpl orb. cbv iota zeta.
      destruct (obj_read usrs (String c user)) as [[|h0 h]| |]; simpl.
      * destruct (length_ge _ _); [|discriminate]. intros _.
        repeat split; try discriminate; auto.
      * destruct (verifyFn _ _) as [[|]|]; discriminate.
      * discriminate.
      * destruct (length_ge _ _); [|discriminate]. intros _.
        repeat split; try discriminate; auto.
    + intros [Hu [Hp [Hget Hlen]]]. apply truthy_nonempty in Hu, Hp.
      rewrite Hu, Hp. simpl.
      destruct Hget as [-> | ->]; simpl; now rewrite Hlen.
  - intros lib. unfold sanityCheck. split.
    + destruct user as [|c user]; [discriminate|].
      destruct password as [|d password]; [discriminate|]. simpl negb.
      simpl orb. cbv iota zeta.
      destruct (obj_read usrs (String c user)) as [[|h0 h]| |] eqn:Hread;
        cbn [truthy_hash truthy negb verify_hash bind].
      * destruct (length_ge _ _); discriminate.
      * pose proof (verifyPassword_has_match lib (String d password)
                      (String h0 h)) as Hm.
        destruct (verifyPassword lib (String d password) (String h0 h))
          as [[|]|e]; try discriminate.
        intros [= ->]. now elim Hm.
      * intros _. repeat split; discriminate.
      * destruct (length_ge _ _); discriminate.
    + intros [Hu [Hp Hread]]. apply truthy_nonempty in Hu, Hp.
      rewrite Hu, Hp, Hread. reflexivity.
Qed.

(** [constructor] on an empty map: the check reads the inherited function
    and throws. *)
Example sanityCheck_inherited_name :
  sanityCheck "constructor" "pw" (verifyPassword sha_only) [] Infinity
  = Throw no_match_method.
Proof. reflexivity. Qed.

(** X23.  What the constructor asks for.  It returns an instance exactly
    when a user file is named, in the plugin's configuration or else in
    the host's, and a group file is named; otherwise it throws.  The
    instance then knows no user and no group, has read nothing yet, and
    its paths are the resolved names, the plugin's own [file] going before
    the host's [users_file]. *)
Theorem new_needs_both_files :
  forall resolve users_file c,
    ((exists self, new resolve users_file c = Ret self)
     <-> (file c <> "" \/ users_file <> "") /\ group_file c <> "")
    /\ (forall self,
           new resolve users_file c = Ret self ->
           users self = [] /\ groups self = []
           /\ lastTime self = JNull /\ lastTimeGroup self = JNull
           /\ path self
              = resolve (match file c with "" => users_file | _ => file c end)
           /\ groupPath self = resolve (group_file c)).
Proof.
  intros resolve users_file c. unfold new. split.
  - destruct (file c) as [|a f]; simpl.
    + destruct users_file as [|b u]; simpl.
      * split; [intros [self Hs]; discriminate | intros [[Hf | Hf] _]; congruence].
      * destruct (group_file c) as [|d g]; simpl.
        -- split; [intros [self Hs]; discriminate | intros [_ Hg]; congruence].
        -- split; [|eauto]. intros _. split; [right|]; discriminate.
    + destruct (group_file c) as [|d g]; simpl.
      * split; [intros [self Hs]; discriminate | intros [_ Hg]; congruence].
      * split; [|eauto]. intros _. split; [left|]; discriminate.
  - intros self.
    destruct (negb (truthy (if negb (truthy (file c)) then users_file else file c)));
      [discriminate|].
    destruct (negb (truthy (group_file c))); [discriminate|].
    intros [= <-]. simpl. repeat split.
    now destruct (file c).
Qed.
